(** * SinaraArchive: packing a directory of files into store rows and back

    A shallow embedding of [sinara/archive.py].  The local filesystem is a
    finite map from absolute paths (lists of component names) to nodes; the
    methods of [SinaraArchive] are functions in a small state-and-exception
    monad over that map.  The dataframe engine is outside the repository: its
    [binaryFile] reader, column operations and [foreach] are modelled by the
    few list functions of section "Engine", and [urllib] and [pathlib] by
    the modules [Url] and [PurePath]. *)

From Stdlib Require Import ZArith Lia Strings.Ascii Strings.Byte.
From Stdlib Require Import Numbers.DecimalString Numbers.DecimalN.
From stdpp Require Import base tactics option list sorting gmap strings.

Local Open Scope Z_scope.

(** ** Settings *)

(** [_SinaraSettings] is not part of the file; what [get_block_size] and
    [get_row_size] need from it is whether it has the getter
    ([hasattr]) and what the getter returns. *)
Record _SinaraSettings := {
  get_storage_block_size : option Z;
  get_storage_row_size : option Z
}.

Definition get_block_size (s : _SinaraSettings) : Z :=
  match get_storage_block_size s with
  | Some v => v
  | None => 10 * 1024 * 1024
  end.

Definition get_row_size (s : _SinaraSettings) : Z :=
  match get_storage_row_size s with
  | Some v => v
  | None => 1024 * 1024
  end.

(** The class attributes [BLOCK_SIZE] and [ROW_SIZE], resolved once. *)
Record SinaraArchive := {
  BLOCK_SIZE : Z;
  ROW_SIZE : Z
}.

Definition new_archive (s : _SinaraSettings) : SinaraArchive :=
  {| BLOCK_SIZE := get_block_size s; ROW_SIZE := get_row_size s |}.

(** ** Python numbers: [int / int] and [int(float)] *)

Module PyFloat.

(** A finite binary64 value [mant * 2 ^ expo]. *)
Record float := { mant : Z; expo : Z }.

(** Round-half-even of the non-negative rational [num / den], [0 < den]. *)
Definition round_half_even (num den : Z) : Z :=
  let q := num / den in
  let r := num mod den in
  if (den <? 2 * r) || ((den =? 2 * r) && Z.odd q) then q + 1 else q.

(** [floor (log2 (n / d))] for [0 < n], [0 < d]. *)
Definition log2_quot (n d : Z) : Z :=
  let l := Z.log2 n - Z.log2 d in
  if (if 0 <=? l then n <? d * 2 ^ l else n * 2 ^ (- l) <? d) then l - 1 else l.

(** The binary64 nearest to [n / d] for [0 <= n], [0 < d]: 53 significant
    bits, exponent clamped below at the subnormal range. *)
Definition nearest (n d : Z) : float :=
  if n =? 0 then {| mant := 0; expo := 0 |}
  else
    let e := Z.max (log2_quot n d - 52) (-1074) in
    let m := if 0 <=? e then round_half_even n (d * 2 ^ e)
             else round_half_even (n * 2 ^ (- e)) d in
    {| mant := m; expo := e |}.

Inductive div_error := ZeroDivisionError | OverflowError.

(** [a / b] on Python ints: the correctly rounded quotient. *)
Definition truediv (a b : Z) : div_error + float :=
  if b =? 0 then inl ZeroDivisionError
  else
    let f := nearest (Z.abs a) (Z.abs b) in
    if (0 <=? expo f) && (2 ^ 1024 <=? mant f * 2 ^ expo f) then inl OverflowError
    else inr {| mant := Z.sgn a * Z.sgn b * mant f; expo := expo f |}.

(** [int(x)]: truncation toward zero. *)
Definition int (x : float) : Z :=
  if 0 <=? expo x then mant x * 2 ^ expo x
  else Z.quot (mant x) (2 ^ (- expo x)).

End PyFloat.

(** ** Partition sizing (lines 67-69 of [pack_files_from_tmp_to_spark_df]) *)

(** [int(total_size / BLOCK_SIZE)]. *)
Definition by_block_size (total_size block_size : Z) : PyFloat.div_error + Z :=
  match PyFloat.truediv total_size block_size with
  | inl e => inl e
  | inr x => inr (PyFloat.int x)
  end.

Definition plan_partitions (total_size block_size cores : Z) : PyFloat.div_error + Z :=
  let threads := cores * 3 in
  match by_block_size total_size block_size with
  | inl e => inl e
  | inr n => inr (if threads <? n then n else threads)
  end.


(** ** Python strings and [posixpath] *)

Module Py.

(** [s.startswith(pre)]. *)
Fixpoint startswith (s pre : string) : bool :=
  match pre, s with
  | EmptyString, _ => true
  | String a pre', String b s' => if Ascii.eqb a b then startswith s' pre' else false
  | String _ _, EmptyString => false
  end.

(** [s.endswith(suf)]: some suffix of [s] is [suf]. *)
Fixpoint endswith (s suf : string) : bool :=
  if String.eqb s suf then true
  else match s with
       | EmptyString => false
       | String _ s' => endswith s' suf
       end.

(** [s.lstrip(c)] and [s.rstrip(c)] for a one-character set. *)
Fixpoint lstrip (c : ascii) (s : string) : string :=
  match s with
  | EmptyString => EmptyString
  | String a s' => if Ascii.eqb a c then lstrip c s' else s
  end.

Fixpoint rstrip (c : ascii) (s : string) : string :=
  match s with
  | EmptyString => EmptyString
  | String a s' =>
      let r := rstrip c s' in
      if Ascii.eqb a c && String.eqb r EmptyString then EmptyString else String a r
  end.

Definition strip (c : ascii) (s : string) : string := rstrip c (lstrip c s).

(** [s.rpartition(c)] when [c] occurs: the text before and after the last
    occurrence, i.e. [s[:i]] and [s[i+1:]] for [i = s.rfind(c)]. *)
Fixpoint rsplit_at (c : ascii) (s : string) : option (string * string) :=
  match s with
  | EmptyString => None
  | String a s' =>
      match rsplit_at c s' with
      | Some (pre, post) => Some (String a pre, post)
      | None => if Ascii.eqb a c then Some (EmptyString, s') else None
      end
  end.

(** [s.split(c)]. *)
Fixpoint split (c : ascii) (s : string) : list string :=
  match s with
  | EmptyString => [EmptyString]
  | String a s' =>
      if Ascii.eqb a c then EmptyString :: split c s'
      else match split c s' with
           | x :: xs => String a x :: xs
           | [] => [String a EmptyString]
           end
  end.

(** [posixpath.join(a, b)]. *)
Definition join (a b : string) : string :=
  if startswith b "/" then b
  else if String.eqb a "" || endswith a "/" then a +:+ b
  else a +:+ "/" +:+ b.

(** [posixpath.dirname(p)]: [head = p[:p.rfind('/') + 1]], stripped of its
    trailing slashes unless it consists of slashes only. *)
Definition dirname (p : string) : string :=
  match rsplit_at "/" p with
  | None => ""
  | Some (pre, _) =>
      let head := pre +:+ "/" in
      if String.eqb (lstrip "/" head) "" then head else rstrip "/" head
  end.

(** [format(n, 'd')] and [format(n, '04d')] for [n >= 0]. *)
Definition format_d (n : N) : string := NilZero.string_of_uint (N.to_uint n).

Fixpoint zeros (k : nat) : string :=
  match k with
  | O => ""
  | S k' => String "0" (zeros k')
  end.

Definition format_04d (n : N) : string :=
  let s := format_d n in zeros (4 - String.length s) +:+ s.

(** [Java String.replaceAll(pat, "")] for a pattern without regex
    metacharacters, as [regexp_replace(col, pat, '')] applies it: scanning
    from the left, every match is dropped and the scan resumes after it.
    [skip] counts the characters of the current match still to drop. *)
Fixpoint remove_all_from (pat : string) (skip : nat) (s : string) : string :=
  match s with
  | EmptyString => EmptyString
  | String a s' =>
      match skip with
      | S k => remove_all_from pat k s'
      | O => if startswith s pat then remove_all_from pat (String.length pat - 1) s'
             else String a (remove_all_from pat 0 s')
      end
  end.

Definition regexp_replace_empty (s pat : string) : string :=
  if String.eqb pat "" then s else remove_all_from pat 0 s.

(** [pat in s]. *)
Fixpoint contains (s pat : string) : bool :=
  if startswith s pat then true
  else match s with
       | EmptyString => false
       | String _ s' => contains s' pat
       end.

(** [s.partition(c)] when [c] occurs: the text before and after the first
    occurrence. *)
Fixpoint partition (c : ascii) (s : string) : option (string * string) :=
  match s with
  | EmptyString => None
  | String a s' =>
      if Ascii.eqb a c then Some (EmptyString, s')
      else match partition c s' with
           | Some (pre, post) => Some (String a pre, post)
           | None => None
           end
  end.

(** Character classes of ASCII text. *)
Definition isupper (a : ascii) : bool :=
  ((65 <=? N_of_ascii a) && (N_of_ascii a <=? 90))%N.
Definition islower (a : ascii) : bool :=
  ((97 <=? N_of_ascii a) && (N_of_ascii a <=? 122))%N.
Definition isalpha (a : ascii) : bool := isupper a || islower a.
Definition isdigit (a : ascii) : bool :=
  ((48 <=? N_of_ascii a) && (N_of_ascii a <=? 57))%N.
Definition isascii (a : ascii) : bool := (N_of_ascii a <? 128)%N.

(** [s.lower()] on ASCII letters. *)
Fixpoint lower (s : string) : string :=
  match s with
  | EmptyString => EmptyString
  | String a s' =>
      String (if isupper a then ascii_of_N (N_of_ascii a + 32) else a) (lower s')
  end.

(** [s.lstrip(chars)] and the removal of every character of a set. *)
Fixpoint lstrip_where (p : ascii → bool) (s : string) : string :=
  match s with
  | EmptyString => EmptyString
  | String a s' => if p a then lstrip_where p s' else s
  end.

Fixpoint remove_where (p : ascii → bool) (s : string) : string :=
  match s with
  | EmptyString => EmptyString
  | String a s' => if p a then remove_where p s' else String a (remove_where p s')
  end.

(** [s[k:]]. *)
Fixpoint skip (k : nat) (s : string) : string :=
  match k, s with
  | S k', String _ s' => skip k' s'
  | _, _ => s
  end.

(** Every character of [s] passes [p]. *)
Definition all_chars (p : ascii → bool) (s : string) : bool :=
  forallb p (String.list_ascii_of_string s).

End Py.

(** ** Paths *)

(** An absolute path is the list of its components; [[]] is the root. *)
Abbreviation Path := (list string).

(** [path.parent] and [path.name]. *)
Definition parent (p : Path) : Path := removelast p.
Definition name (p : Path) : string := List.last p "".

(** [path.stem]: the name without its last suffix. *)
Definition stem (p : Path) : string :=
  let n := name p in
  match Py.rsplit_at "." n with
  | Some (pre, post) =>
      if negb (String.eqb pre "") && negb (String.eqb post "") then pre else n
  | None => n
  end.

(** One step of path resolution: [p / seg] for a slash-free segment. *)
Definition walk (p : Path) (seg : string) : Path :=
  if String.eqb seg "" || String.eqb seg "." then p
  else if String.eqb seg ".." then parent p
  else p ++ [seg].

(** The node an absolute path string denotes. *)
Definition resolve (s : string) : Path := foldl walk [] (Py.split "/" s).

(** [str(path)]. *)
Fixpoint segments (p : Path) : string :=
  match p with
  | [] => ""
  | n :: p' => "/" +:+ n +:+ segments p'
  end.

Definition render (p : Path) : string :=
  match p with
  | [] => "/"
  | _ => segments p
  end.

(** ["/".join(rel)]: the relative path string [a/b/c] of the names [rel]. *)
Definition relative (rel : list string) : string :=
  match rel with
  | [] => ""
  | n :: rest => n +:+ segments rest
  end.

(** A name that a directory entry can have. *)
Definition valid_name (n : string) : bool :=
  negb (String.eqb n "") && negb (String.eqb n ".") && negb (String.eqb n "..")
  && negb (Py.contains n "/").


(** [sorted] compares [Path] objects by their lists of components. *)
Fixpoint path_leb (p q : Path) : bool :=
  match p, q with
  | [], _ => true
  | _ :: _, [] => false
  | a :: p', b :: q' => if String.eqb a b then path_leb p' q' else String.leb a b
  end.

Definition path_le (p q : Path) : Prop := path_leb p q.

Global Instance path_le_dec : RelDecision path_le.
Proof. intros p q. unfold path_le. apply _. Defined.

Definition sorted (l : list Path) : list Path := merge_sort path_le l.

(** ** The local filesystem *)

Inductive node :=
  | File (content : list byte)
  | Dir.

Abbreviation fs := (gmap Path node).

(** The root directory always exists. *)
Definition node_at (m : fs) (p : Path) : option node :=
  match p with
  | [] => Some Dir
  | _ => m !! p
  end.

Definition is_file (m : fs) (p : Path) : bool :=
  match node_at m p with
  | Some (File _) => true
  | _ => false
  end.

Definition is_dir (m : fs) (p : Path) : bool :=
  match node_at m p with
  | Some Dir => true
  | _ => false
  end.

(** [path.stat().st_size] of a regular file. *)
Definition st_size (m : fs) (p : Path) : Z :=
  match node_at m p with
  | Some (File c) => Z.of_nat (length c)
  | _ => 0
  end.

Definition entries (m : fs) : list Path := (map_to_list m).*1.

Definition strictly_below (d q : Path) : Prop := d `prefix_of` q ∧ d ≠ q.

Global Instance strictly_below_dec : RelDecision strictly_below.
Proof. intros d q. unfold strictly_below. apply _. Defined.

(** The order in which the operating system enumerates directory entries and
    in which the engine hands out rows is not fixed by the program. *)
Record schedule := {
  fs_order : list Path → list Path;
  fs_order_perm : ∀ l, fs_order l ≡ₚ l;
  row_order : ∀ A : Type, list A → list A;
  row_order_perm : ∀ A (l : list A), row_order A l ≡ₚ l
}.
Arguments row_order _ {A} _.

Definition in_order : schedule :=
  {| fs_order := id; fs_order_perm := λ l, reflexivity l;
     row_order := λ A, id; row_order_perm := λ A l, reflexivity l |}.

Definition reversed : schedule :=
  {| fs_order := reverse; fs_order_perm := reverse_Permutation;
     row_order := λ A, reverse; row_order_perm := λ A, reverse_Permutation |}.

(** ** Exceptions and state *)

(** [Unmodelled] is not a Python exception: it marks a call of a library
    or of the engine with an argument whose treatment the model does not
    cover (see [Url.urlsplit], [local_directory] and [read_parquet]). *)
Inductive exn :=
  | FileNotFoundError
  | FileExistsError
  | IsADirectoryError
  | NotADirectoryError
  | ZeroDivisionError
  | OverflowError
  | ValueError
  | IllegalArgumentException
  | AnalysisException
  | SparkException
  | Py4JError
  | Unmodelled.

(** [OutOfFuel] is not a Python outcome: it marks a loop of the model that
    was given too few iterations (see [split_loop_fuel]). *)
Inductive outcome (A : Type) :=
  | Return (a : A)
  | Raise (e : exn)
  | OutOfFuel.
Arguments Return {A} a.
Arguments Raise {A} e.
Arguments OutOfFuel {A}.

Definition ST (S A : Type) : Type := S → outcome A * S.

Definition ret {S A} (a : A) : ST S A := λ s, (Return a, s).
Definition raise {S A} (e : exn) : ST S A := λ s, (Raise e, s).
Definition bind {S A B} (c : ST S A) (k : A → ST S B) : ST S B :=
  λ s, match c s with
       | (Return a, s') => k a s'
       | (Raise e, s') => (Raise e, s')
       | (OutOfFuel, s') => (OutOfFuel, s')
       end.
(** A result that is an exception or a value. *)
Definition of_sum {S A} (r : exn + A) : ST S A :=
  match r with
  | inl e => raise e
  | inr a => ret a
  end.
Definition get {S} : ST S S := λ s, (Return s, s).
Definition put {S} (s : S) : ST S unit := λ _, (Return (), s).

Declare Scope st_scope.
Delimit Scope st_scope with st.
Notation "x <- c1 ;; c2" := (bind c1 (fun x => c2))
  (at level 20, c1 at level 99, c2 at level 200, only parsing) : st_scope.
Notation "c1 ;; c2" := (bind c1 (fun _ => c2))
  (at level 100, c2 at level 200, only parsing, right associativity) : st_scope.
Local Open Scope st_scope.

(** [for x in l: body(x)]. *)
Fixpoint for_ {S A} (l : list A) (body : A → ST S unit) : ST S unit :=
  match l with
  | [] => ret ()
  | x :: l' => body x ;; for_ l' body
  end.

(** A loop that carries an accumulator. *)
Fixpoint for_acc {S A B} (l : list A) (acc : B) (body : B → A → ST S B) : ST S B :=
  match l with
  | [] => ret acc
  | x :: l' => acc' <- body acc x ;; for_acc l' acc' body
  end.

Abbreviation F := (ST fs).

(** *** File operations *)

(** What creating an entry at [p] needs from its parent directory. *)
Definition create (p : Path) (n : node) : F unit := λ m,
  match node_at m (parent p) with
  | Some Dir => (Return (), <[p := n]> m)
  | Some (File _) => (Raise NotADirectoryError, m)
  | None => (Raise FileNotFoundError, m)
  end.

(** [Path(p).mkdir(parents=False, exist_ok=True)]. *)
Definition Path_mkdir (p : Path) : F unit := λ m,
  match node_at m p with
  | Some Dir => (Return (), m)
  | Some (File _) => (Raise FileExistsError, m)
  | None => create p Dir m
  end.

(** [Path(p).touch()]. *)
Definition Path_touch (p : Path) : F unit := λ m,
  match node_at m p with
  | Some _ => (Return (), m)
  | None => create p (File []) m
  end.

(** [open(p, 'rb')] followed by reading: the content of the file. *)
Definition open_rb (p : Path) : F (list byte) := λ m,
  match node_at m p with
  | Some (File c) => (Return c, m)
  | Some Dir => (Raise IsADirectoryError, m)
  | None => (Raise FileNotFoundError, m)
  end.

(** [open(p, 'wb')]: the file is created or truncated. *)
Definition open_wb (p : Path) : F unit := λ m,
  match node_at m p with
  | Some Dir => (Raise IsADirectoryError, m)
  | Some (File _) => (Return (), <[p := File []]> m)
  | None => create p (File []) m
  end.

(** [f.write(data)] on the file opened at [p]: appends. *)
Definition append_data (data : list byte) (n : node) : node :=
  match n with
  | File c => File (c ++ data)
  | Dir => Dir
  end.

Definition write (p : Path) (data : list byte) : F unit := λ m,
  (Return (), alter (append_data data) p m).

(** [f.read(n)] on the unread rest of a file: the bytes read and the rest.
    [n = -1] reads to the end; a size below [-1] is refused. *)
Definition read (n : Z) (rest : list byte) : exn + list byte * list byte :=
  if n <? -1 then inl ValueError
  else if n <? 0 then inr (rest, [])
  else inr (take (Z.to_nat n) rest, drop (Z.to_nat n) rest).

(** [os.makedirs(d, exist_ok=True)], one component after the other. *)
Fixpoint makedirs_from (base : Path) (rest : list string) : F unit :=
  match rest with
  | [] => ret ()
  | n :: rest' =>
      let d := base ++ [n] in
      λ m, match node_at m d with
           | Some Dir => makedirs_from d rest' m
           | Some (File _) =>
               (Raise (match rest' with
                       | [] => FileExistsError
                       | _ => NotADirectoryError
                       end), m)
           | None => makedirs_from d rest' (<[d := Dir]> m)
           end
  end.

Definition os_makedirs (d : string) : F unit :=
  if String.eqb d "" then raise FileNotFoundError
  else makedirs_from [] (resolve d).

(** [open(file_name, 'wb')] for a path string. *)
Definition open_wb_str (file_name : string) : F Path :=
  if Py.endswith file_name "/" then raise IsADirectoryError
  else open_wb (resolve file_name) ;; ret (resolve file_name).

(** [shutil.rmtree(d)]. *)
Definition shutil_rmtree (d : Path) : F unit := λ m,
  match node_at m d with
  | Some Dir => (Return (), filter (λ kv, ¬ d `prefix_of` kv.1) m)
  | Some (File _) => (Raise NotADirectoryError, m)
  | None => (Raise FileNotFoundError, m)
  end.

(** [Path(d).glob('**/*')]: everything below [d]. *)
Definition glob_rec (o : schedule) (d : Path) : F (list Path) := λ m,
  (Return (if is_dir m d
           then fs_order o (filter (strictly_below d) (entries m))
           else []), m).

(** [Path(d).glob('**/' + '*' + suffix)]. *)
Definition glob_rec_suffix (o : schedule) (d : Path) (suffix : string) : F (list Path) :=
  l <- glob_rec o d ;;
  ret (filter (λ x, Is_true (Py.endswith (name x) suffix)) l).

(** [Path(d).glob(prefix + '*')]: the direct children of [d] whose name
    starts with [prefix]. *)
Definition glob_prefix (o : schedule) (d : Path) (prefix : string) : F (list Path) :=
  l <- glob_rec o d ;;
  ret (filter (λ x, parent x = d ∧ Is_true (Py.startswith (name x) prefix)) l).

(** ** Chunker: [SinaraArchive._split_file] *)

(** [Path(f"{path.parent}/{path.name}.parts")]. *)
Definition parts_path_of (path : Path) : Path :=
  parent path ++ [name path +:+ ".parts"].

(** [f"{parts_path}/part-{part_num:04d}"]. *)
Definition part_name (part_num : N) : string := "part-" +:+ Py.format_04d part_num.

Definition chunk_filename (parts_path : Path) (part_num : N) : Path :=
  parts_path ++ [part_name part_num].

(** The [while True] loop.  [fin] is the unread rest of the input file; no
    chunk file is the input file, so reading it piecewise sees the content it
    had when it was opened. *)
Fixpoint split_loop (fuel : nat) (parts_path : Path) (chunk_size : Z)
    (fin : list byte) (part_num : N) : F unit :=
  match fuel with
  | O => λ m, (OutOfFuel, m)
  | S fuel' =>
      match read chunk_size fin with
      | inl e => raise e
      | inr ([], _) => ret ()
      | inr (chunk, fin') =>
          let chunk_filename := chunk_filename parts_path part_num in
          open_wb chunk_filename ;;
          write chunk_filename chunk ;;
          split_loop fuel' parts_path chunk_size fin' (part_num + 1)%N
      end
  end.

Definition _split_file (path : Path) (chunk_size : Z) : F unit :=
  let parts_path := parts_path_of path in
  Path_mkdir parts_path ;;
  fin <- open_rb path ;;
  split_loop (S (length fin)) parts_path chunk_size fin 0%N ;;
  Path_touch (parts_path ++ ["_PARTS"]).

(** ** Rejoiner: [SinaraArchive._join_parts] *)

(** The body of [for parts_dir in parts_dirlist]. *)
Definition join_parts_dir (o : schedule) (parts_dir : Path) : F unit :=
  let file_name := walk (parent parts_dir) (stem parts_dir) in
  open_wb file_name ;;
  part_files <- glob_prefix o parts_dir "part-" ;;
  for_ (sorted part_files) (λ part_file,
    data <- open_rb part_file ;;
    write file_name data) ;;
  shutil_rmtree parts_dir.

Definition _join_parts (o : schedule) (path : string) : F unit :=
  found <- glob_rec_suffix o (resolve path) ".parts" ;;
  m <- get ;;
  let parts_dirlist := filter (λ x, Is_true (is_dir m x)) found in
  for_ parts_dirlist (join_parts_dir o).

(** ** Libraries: [urllib.parse] and [pathlib] *)

Module Url.

(** The fields of [urlsplit]'s result that matter here; the query and the
    fragment are cut off and dropped. *)
Record SplitResult := { scheme : string; netloc : string; path : string }.

Definition c0_control_or_space (a : ascii) : bool := (N_of_ascii a <=? 32)%N.

(** Tab, line feed and carriage return. *)
Definition unsafe_byte (a : ascii) : bool :=
  ((N_of_ascii a =? 9) || (N_of_ascii a =? 10) || (N_of_ascii a =? 13))%N.

Definition scheme_char (a : ascii) : bool :=
  Py.isalpha a || Py.isdigit a
  || Ascii.eqb a "+" || Ascii.eqb a "-" || Ascii.eqb a ".".

(** [_splitnetloc(url, 2)], applied to the text after the leading [//]:
    the network location ends before the first of [/], [?] and [#]. *)
Fixpoint splitnetloc (s : string) : string * string :=
  match s with
  | EmptyString => (EmptyString, EmptyString)
  | String a s' =>
      if Ascii.eqb a "/" || Ascii.eqb a "?" || Ascii.eqb a "#" then (EmptyString, s)
      else let (n, rest) := splitnetloc s' in (String a n, rest)
  end.

(** [url.split(c, 1)[0]] *)
Definition before (c : ascii) (s : string) : string :=
  match Py.partition c s with
  | Some (pre, _) => pre
  | None => s
  end.

(** [urlsplit(url)] as CPython 3.12 defines it: leading control characters
    and spaces are stripped, tabs and line ends removed; a scheme is a
    leading letter followed by scheme characters up to the first colon; a
    network location follows [//]; the fragment and then the query are
    cut off the rest, which is the path.  Mismatched brackets in the network
    location raise [ValueError].  The validation of a bracketed host and of
    a network location that is not ASCII is not modelled. *)
Definition urlsplit (url : string) : exn + SplitResult :=
  let url := Py.remove_where unsafe_byte (Py.lstrip_where c0_control_or_space url) in
  let (scheme, url) :=
    match Py.partition ":" url with
    | Some (String a pre, post) =>
        if Py.isalpha a && Py.all_chars scheme_char (String a pre)
        then (Py.lower (String a pre), post)
        else (EmptyString, url)
    | _ => (EmptyString, url)
    end in
  let (netloc, url) :=
    if Py.startswith url "//" then splitnetloc (Py.skip 2 url)
    else (EmptyString, url) in
  let opening := Py.contains netloc "[" in
  let closing := Py.contains netloc "]" in
  if xorb opening closing then inl ValueError
  else if opening || negb (Py.all_chars Py.isascii netloc) then inl Unmodelled
  else inr {| scheme := scheme; netloc := netloc; path := before "?" (before "#" url) |}.

End Url.

(** [pathlib.PurePosixPath]: a root and the list of the other parts. *)
Module PurePath.

Record t := { root : string; parts : list string }.

(** [Path(s)]: exactly two leading slashes are kept as the root [//];
    empty components and [.] are dropped, [..] is kept. *)
Definition of_string (s : string) : t :=
  {| root := if Py.startswith s "//" && negb (Py.startswith s "///") then "//"
             else if Py.startswith s "/" then "/"
             else "";
     parts := filter (λ n, n ≠ "" ∧ n ≠ ".") (Py.split "/" s) |}.

(** [p.name]. *)
Definition name (p : t) : string := List.last (parts p) "".

(** [p / other]. *)
Definition joinpath (p : t) (other : string) : t :=
  let q := of_string other in
  if String.eqb (root q) "" then {| root := root p; parts := parts p ++ parts q |}
  else q.

(** [str(p)]. *)
Definition str (p : t) : string :=
  match parts p with
  | [] => if String.eqb (root p) "" then "." else root p
  | ps => root p +:+ relative ps
  end.

End PurePath.

(** ** Engine *)

(** The dataframe engine is an external collaborator: what follows is a
    model of what Spark 3 does, not a translation of code of this
    repository.  Its [binaryFile] source yields one row per file that its
    file listing finds below the directory, with the file's URI
    [file:<absolute path>], byte length and content; [modificationTime] is
    not used and left out.  What the engine does lazily, when the dataframe
    is written, is done here where the dataframe is defined: the filesystem
    does not change in between. *)
Module BinaryFile.
Record row := { path : string; length : Z; content : list byte }.
End BinaryFile.

(** The rows of an archive: [path] replaced by [relPath]. *)
Module Archive.
Record row := { length : Z; content : list byte; relPath : string }.
End Archive.

Record dataframe := {
  rows : list Archive.row;
  numPartitions : Z
}.

Module Hadoop.

(** [new Path(pathString)]: the scheme is the text before the first colon
    when no slash precedes it; an authority follows [//] and ends before
    the next slash; the rest is the path. *)
Definition parse (pathString : string) : option string * option string * string :=
  let (scheme, rest) :=
    match Py.partition ":" pathString with
    | Some (pre, post) =>
        if Py.contains pre "/" then (None, pathString) else (Some pre, post)
    | None => (None, pathString)
    end in
  if Py.startswith rest "//" && (2 <? String.length rest)%nat then
    match Py.partition "/" (Py.skip 2 rest) with
    | Some (authority, tail) => (scheme, Some authority, "/" +:+ tail)
    | None => (scheme, Some (Py.skip 2 rest), EmptyString)
    end
  else (scheme, None, rest).

End Hadoop.

(** The characters that make a path a glob pattern for the engine. *)
Definition glob_meta : list ascii := ["{"; "}"; "["; "]"; "*"; "?"; "\"]%char.

Definition glob_free (s : string) : bool :=
  Py.all_chars (λ a, negb (bool_decide (a ∈ glob_meta))) s.

(** The directory of the local filesystem that a URL names for the engine:
    scheme [file], no authority or an empty one, an absolute path.  Only
    this case is modelled, and only for a URL that is not a glob pattern. *)
Definition local_directory (url : string) : option Path :=
  match Hadoop.parse url with
  | (Some scheme, authority, path) =>
      if String.eqb scheme "file"
         && match authority with
            | None => true
            | Some a => String.eqb a ""
            end
         && Py.startswith path "/" && glob_free url
      then Some (resolve path)
      else None
  | _ => None
  end.

(** The file listing leaves out what looks like a hidden or a temporary
    file or directory ([shouldFilterOutPathName]), and a scan takes
    non-empty files with the name of a data file only ([isDataPath]). *)
Definition shouldFilterOutPathName (pathName : string) : bool :=
  let exclude :=
    (Py.startswith pathName "_" && negb (Py.contains pathName "="))
    || Py.startswith pathName "." || Py.endswith pathName "._COPYING_" in
  let include :=
    Py.startswith pathName "_common_metadata" || Py.startswith pathName "_metadata" in
  exclude && negb include.

Definition isDataPath (name : string) : bool :=
  negb ((Py.startswith name "_" && negb (Py.contains name "=")) || Py.startswith name ".").

(** The names that the listing of [d] goes through on its way to [x]: the
    components of [x] below [d], or the name of [d] when [x] is [d]. *)
Definition listed (d x : Path) : bool :=
  forallb (λ n, negb (shouldFilterOutPathName n))
    (if bool_decide (x = d) then [name x] else drop (length d) x).

Definition binary_row (x : Path) (c : list byte) : BinaryFile.row :=
  {| BinaryFile.path := "file:" +:+ render x;
     BinaryFile.length := Z.of_nat (length c);
     BinaryFile.content := c |}.

(** [spark.read.format("binaryFile").option("pathGlobFilter", "*")
    .option("recursiveFileLookup", "true").load(url)]. *)
Definition read_binaryFile (o : schedule) (url : string) : F (list BinaryFile.row) := λ m,
  match local_directory url with
  | None => (Raise Unmodelled, m)
  | Some d =>
      match node_at m d with
      | None => (Raise AnalysisException, m)
      | Some _ =>
          (Return (omap (λ x, match node_at m x with
                              | Some (File c) =>
                                  if listed d x && isDataPath (name x)
                                     && negb (Nat.eqb (length c) 0)
                                  then Some (binary_row x c)
                                  else None
                              | _ => None
                              end)
                        (fs_order o (filter (λ x, d `prefix_of` x) (entries m)))), m)
      end
  end.

(** [.withColumn("relPath", regexp_replace('path', pat, '')).drop("path")]. *)
Definition with_relPath (pat : string) (r : BinaryFile.row) : Archive.row :=
  {| Archive.length := BinaryFile.length r;
     Archive.content := BinaryFile.content r;
     Archive.relPath := Py.regexp_replace_empty (BinaryFile.path r) pat |}.

(** [df.repartition(n)]: the rows are redistributed.  [n] is passed as a
    Java [int] and must be positive. *)
Definition repartition {S} (o : schedule) (n : Z) (l : list Archive.row) : ST S dataframe :=
  if (- 2 ^ 31 <=? n) && (n <? 2 ^ 31) then
    if 0 <? n then ret {| rows := row_order o l; numPartitions := n |}
    else raise IllegalArgumentException
  else raise Py4JError.

(** The longest content that the [binaryFile] source reads
    ([spark.sql.sources.binaryFile.maxLength]). *)
Definition maxLength : Z := 2147483647.

(** The store: a dataset of rows per store path. *)
Record world := {
  files : fs;
  store : gmap string (list Archive.row)
}.

Abbreviation M := (ST world).

Definition on_files {A} (c : F A) : M A := λ w,
  match c (files w) with
  | (r, m') => (r, {| files := m'; store := store w |})
  end.

(** [df.write.option(...).mode("overwrite").parquet(store_path)].  The
    write is what makes the engine read the content of the rows; a content
    above [maxLength] fails the job, after the old dataset was removed. *)
Definition write_parquet (store_path : string) (df : dataframe) : M unit := λ w,
  if forallb (λ r, Archive.length r <=? maxLength) (rows df)
  then (Return (), {| files := files w; store := <[store_path := rows df]> (store w) |})
  else (Raise SparkException, {| files := files w; store := delete store_path (store w) |}).

(** [spark.read.parquet(store_path)], for a path that is not a glob
    pattern. *)
Definition read_parquet (o : schedule) (store_path : string) : M (list Archive.row) := λ w,
  if glob_free store_path then
    match store w !! store_path with
    | Some l => (Return (row_order o l), w)
    | None => (Raise AnalysisException, w)
    end
  else (Raise Unmodelled, w).

(** ** Archive orchestrator *)

(** [SinaraArchive_save_file(file_col, tmp_entity_dir)]. *)
Definition SinaraArchive_save_file (tmp_entity_dir : string) (file_col : Archive.row) : F unit :=
  let file_name := Py.join tmp_entity_dir (Py.strip "/" (Archive.relPath file_col)) in
  let file_binary := Archive.content file_col in
  os_makedirs (Py.dirname file_name) ;;
  f_id <- open_wb_str file_name ;;
  write f_id file_binary.

Definition of_div_error (e : PyFloat.div_error) : exn :=
  match e with
  | PyFloat.ZeroDivisionError => ZeroDivisionError
  | PyFloat.OverflowError => OverflowError
  end.

(** What line 67 finds at [SINARA_SERVER_CORES] in [os.environ]: nothing,
    a text that [int] converts, given by its value, or a text that [int]
    rejects. *)
Inductive setting :=
  | Unset
  | Number (c : Z)
  | NotANumber.

(** [int(os.environ['SINARA_SERVER_CORES']) if ... in os.environ else 5]. *)
Definition server_cores (env : setting) : exn + Z :=
  match env with
  | Unset => inr 5
  | Number c => inr c
  | NotANumber => inl ValueError
  end.

Section Orchestrator.

Variable self : SinaraArchive.
Variable o : schedule.
(** The entry [SINARA_SERVER_CORES] of the environment. *)
Variable env : setting.

(** The test of the list comprehension of line 60. *)
Definition in_pathlist (x : Path) : bool :=
  negb (Py.endswith (name x) ".parts")
  && negb (Py.endswith (render (parent x)) ".parts").

(** The body of [for path in pathlist]. *)
Definition scan (total_size : Z) (path : Path) : F Z :=
  m <- get ;;
  if is_file m path then
    let total_size := total_size + st_size m path in
    if ROW_SIZE self <? st_size m path then
      _split_file path (ROW_SIZE self) ;; ret total_size
    else ret total_size
  else ret total_size.

(** Lines 55 to 58. *)
Definition tmp_url_of (tmp_entity_dir : string) : exn + string :=
  match Url.urlsplit tmp_entity_dir with
  | inl e => inl e
  | inr url =>
      inr (if String.eqb (Url.scheme url) "" then "file://" +:+ Url.path url
           else tmp_entity_dir)
  end.

Definition pack_files_from_tmp_to_spark_df (tmp_entity_dir : string) : F dataframe :=
  tmp_url <- of_sum (tmp_url_of tmp_entity_dir) ;;
  found <- glob_rec o (resolve tmp_entity_dir) ;;
  let pathlist := filter (λ x, Is_true (in_pathlist x)) found in
  total_size <- for_acc pathlist 0 scan ;;
  cores <- of_sum (server_cores env) ;;
  partitions <- match plan_partitions total_size (BLOCK_SIZE self) cores with
                | inl e => raise (of_div_error e)
                | inr n => ret n
                end ;;
  loaded <- read_binaryFile o tmp_url ;;
  let df := with_relPath ("file:" +:+ tmp_entity_dir)
              <$> filter (λ r, BinaryFile.length r ≤ ROW_SIZE self) loaded in
  repartition o partitions df.

(** The deprecated alias; it logs a warning and delegates. *)
Definition pack_files_form_tmp_to_spark_df (tmp_entity_dir : string) : F dataframe :=
  pack_files_from_tmp_to_spark_df tmp_entity_dir.

Definition pack_files_from_tmp_to_store (tmp_entity_dir store_path : string) : M unit :=
  df <- on_files (pack_files_from_tmp_to_spark_df tmp_entity_dir) ;;
  write_parquet store_path df.

Definition pack (tmp_entity_dir store_path : string) : M unit :=
  pack_files_from_tmp_to_store tmp_entity_dir store_path.

Definition unpack_files_from_spark_df_to_tmp (df_archive : list Archive.row)
    (tmp_entity_dir : string) : F unit :=
  for_ df_archive (SinaraArchive_save_file tmp_entity_dir) ;;
  _join_parts o tmp_entity_dir.

Definition unpack_files_from_store_to_tmp (store_path tmp_entity_dir : string) : M unit :=
  df <- read_parquet o store_path ;;
  on_files (unpack_files_from_spark_df_to_tmp df tmp_entity_dir).

(** [get_tmp_work_path] belongs to another module; its result is the
    argument [tmp_work_path].  The functions called take the [Path] object
    [tmp_entity_dir] as the string that [os.fspath] gives. *)
Definition unpack (tmp_work_path store_path : string) : M string :=
  let tmp_entity_dir :=
    PurePath.joinpath (PurePath.of_string tmp_work_path)
      (PurePath.name (PurePath.of_string store_path)) in
  unpack_files_from_store_to_tmp store_path (PurePath.str tmp_entity_dir) ;;
  ret (PurePath.str tmp_entity_dir).

End Orchestrator.


(** ** Vocabulary of the properties *)

(** A computation [frames R] when its final state is [R]-related to its
    initial state, whether it returns or raises. *)
Definition frames {A : Type} (R : relation fs) (c : F A) : Prop := ∀ m, R m (c m).2.

(** Nothing outside the subtree at [d] differs. *)
Definition same_outside (d : Path) (m m' : fs) : Prop :=
  ∀ q, ¬ d `prefix_of` q → m' !! q = m !! q.

(** Nothing differs but [d] itself and its direct children. *)
Definition changes_at (d : Path) (m m' : fs) : Prop :=
  ∀ q, q ≠ d → (∀ x, q ≠ d ++ [x]) → m' !! q = m !! q.

(** Every file that is new or has new content has at most [bound] bytes. *)
Definition files_within (bound : Z) (m m' : fs) : Prop :=
  ∀ q c, m' !! q = Some (File c) → m !! q = Some (File c) ∨ Z.of_nat (length c) ≤ bound.

(** What [f.read(n)] can return. *)
Definition chunk_ok (n : Z) (c : list byte) : Prop :=
  n < 0 ∨ Z.of_nat (length c) ≤ n.

(** Reading a chunk index back. *)
Definition index_of (s : string) : option N :=
  N.of_uint <$> NilEmpty.uint_of_string s.

Definition four_digits (n : N) : bool :=
  Nat.eqb (String.length (Py.format_04d n)) 4.

(** [test] holds of the [count] numbers from [i] on. *)
Fixpoint all_from (test : N → bool) (i : N) (count : nat) : bool :=
  match count with
  | O => true
  | S count' => test i && all_from test (N.succ i) count'
  end.

Definition name_lt (s t : string) : bool := String.leb s t && negb (String.eqb s t).

(** What a listing of the entries selected by [P] amounts to: a
    duplicate-free list of exactly those entries, in some order. *)
Definition lists (m : fs) (P : Path → Prop) (l : list Path) : Prop :=
  NoDup l ∧ ∀ q, q ∈ l ↔ is_Some (m !! q) ∧ P q.

(** The state a joined group leaves behind. *)
Definition joined (g f : Path) (c : list byte) (m : fs) : fs :=
  filter (λ kv, ¬ g `prefix_of` kv.1) (<[f := File c]> m).

(** A chunk group [(d, n, c)]: the directory [d/n.parts] whose part files,
    in sorted order, concatenate to [c], next to a place for the file [d/n]. *)
Definition gdir (g : Path * string * list byte) : Path := g.1.1 ++ [g.1.2 +:+ ".parts"].
Definition gfile (g : Path * string * list byte) : Path := g.1.1 ++ [g.1.2].

Definition chunk_group (m : fs) (g : Path * string * list byte) : Prop :=
  valid_name g.1.2 = true
  ∧ m !! gdir g = Some Dir
  ∧ node_at m g.1.1 = Some Dir
  ∧ node_at m (gfile g) ≠ Some Dir
  ∧ ∃ l cs,
      lists m (λ q, ∃ x, q = gdir g ++ [x] ∧ Py.startswith x "part-" = true) l
      ∧ Sorted path_le l
      ∧ Forall2 (λ q c, m !! q = Some (File c)) l cs
      ∧ concat cs = g.2.

(** No group lies inside another, and no group's file inside a group. *)
Definition separate (gs : list (Path * string * list byte)) : Prop :=
  ∀ g g', g ∈ gs → g' ∈ gs →
    ¬ gdir g `prefix_of` gfile g' ∧ (gdir g `prefix_of` gdir g' → g = g').

(** The order [sorted] gives the names of 10001 chunks: [part-10000] comes
    right after [part-1000]. *)
Definition misorder : list N :=
  ((λ k, (0 + N.of_nat k)%N) <$> seq 0 (10 * 100 + 1))
  ++ [10000%N]
  ++ ((λ k, (1001 + N.of_nat k)%N) <$> seq 0 (90 * 100 - 1)).

(** The archive row of the file [q] with content [c]. *)
Definition archive_row (tmp_entity_dir : string) (q : Path) (c : list byte) : Archive.row :=
  with_relPath ("file:" +:+ tmp_entity_dir) (binary_row q c).

(** A small tree for the examples: [/src/a.txt] of two bytes and
    [/src/d/big] of seven, packed with a row size of three bytes. *)
Definition example_files : fs :=
  {[ ["src"] := Dir;
     ["src"; "a.txt"] := File ["h"; "i"]%byte;
     ["src"; "d"] := Dir;
     ["src"; "d"; "big"] := File ["0"; "1"; "2"; "3"; "4"; "5"; "6"]%byte;
     ["tmp"] := Dir ]}.

Definition example_world : world := {| files := example_files; store := ∅ |}.

Definition example_archive : SinaraArchive := {| BLOCK_SIZE := 10; ROW_SIZE := 3 |}.

(** The bytes the walk of [pack_files_from_tmp_to_spark_df] counts: the
    sizes of the entries of [l], a directory counting for nothing. *)
Definition total_of (m : fs) (l : list Path) : Z :=
  foldr (λ q acc, st_size m q + acc) 0 l.

(** The entries that the walk of line 60 keeps: those below the directory
    [d] that pass its test; nothing when [d] is no directory. *)
Definition walked (d : Path) (m : fs) : list Path :=
  if is_dir m d
  then filter (λ x, Is_true (in_pathlist x)) (filter (strictly_below d) (entries m))
  else [].

(** The characters with a meaning in a regular expression.  The pattern
    that [regexp_replace] gets is [file:] followed by the directory string;
    the model of [regexp_replace] takes the pattern literally, which is what
    the engine does when the directory string has none of these. *)
Definition regex_meta : list ascii :=
  ["\"; "^"; "$"; "."; "|"; "?"; "*"; "+"; "("; ")"; "["; "]"; "{"; "}"]%char.

Definition regex_plain (s : string) : bool :=
  Py.all_chars (λ a, negb (bool_decide (a ∈ regex_meta))) s.

(** The portable filename characters of POSIX: letters, digits, [.], [_]
    and [-]. *)
Definition portable_char (a : ascii) : bool :=
  Py.isalpha a || Py.isdigit a || Ascii.eqb a "." || Ascii.eqb a "_" || Ascii.eqb a "-".

(** A plain name: a name of portable characters that the engine's file
    listing does not take for a hidden or a temporary entry. *)
Definition plain_name (n : string) : bool :=
  valid_name n && Py.all_chars portable_char n
  && negb (Py.startswith n "_") && negb (Py.startswith n ".")
  && negb (Py.endswith n "._COPYING_").

(** A plain name without a dot.  In the path string of a directory with
    such names no character has a meaning for [urlsplit], for the engine's
    path globbing or in a regular expression. *)
Definition dir_char (a : ascii) : bool :=
  Py.isalpha a || Py.isdigit a || Ascii.eqb a "_" || Ascii.eqb a "-".

Definition plain_dir_name (n : string) : bool :=
  plain_name n && Py.all_chars dir_char n.

(** The characters of the path string of a directory with such names. *)
Definition path_char (a : ascii) : bool := dir_char a || Ascii.eqb a "/".

(** The filesystem with a directory at [base/n1], [base/n1/n2], ... *)
Fixpoint with_dirs (base : Path) (rest : list string) (m : fs) : fs :=
  match rest with
  | [] => m
  | n :: rest' => with_dirs (base ++ [n]) rest' (<[base ++ [n] := Dir]> m)
  end.

(** What [_split_file] leaves for the file [p] of content [c]: the
    directory, the sentinel, the chunks, and nothing else. *)
Definition group_at (chunk_size : Z) (p : Path) (c : list byte) (m : fs) : Prop :=
  let parts_path := parts_path_of p in
  let size := Z.to_nat chunk_size in
  let count := Z.to_nat ((Z.of_nat (length c) + chunk_size - 1) / chunk_size) in
  m !! parts_path = Some Dir
  ∧ m !! (parts_path ++ ["_PARTS"]) = Some (File [])
  ∧ (∀ j, (j < count)%nat →
       m !! chunk_filename parts_path (N.of_nat j)
       = Some (File (take size (drop (j * size) c))))
  ∧ (∀ q, parts_path `prefix_of` q → is_Some (m !! q) →
       q = parts_path ∨ q = parts_path ++ ["_PARTS"]
       ∨ ∃ j, (j < count)%nat ∧ q = chunk_filename parts_path (N.of_nat j)).

(** The chunk group of [x] is neither above [y] nor above the chunk group
    of [y]. *)
Definition apart (x y : Path) : Prop :=
  ¬ parts_path_of x `prefix_of` y ∧ ¬ parts_path_of x `prefix_of` parts_path_of y.

(** While the rows of an archive of the files below [src] in [m1] are
    written below [dst]: every file below [dst] is the copy of a file of
    [m1], every directory below [dst] is on the way to such a copy, and no
    file lies on the way to [dst]. *)
Definition unpacking (src dst : Path) (m1 m : fs) : Prop :=
  (∀ q c, dst `prefix_of` q → m !! q = Some (File c) →
     ∃ rel, q = dst ++ rel ∧ rel ≠ [] ∧ m1 !! (src ++ rel) = Some (File c))
  ∧ (∀ q, strictly_below dst q → m !! q = Some Dir →
       ∃ rel rel' c, q = dst ++ rel ∧ strictly_below rel rel'
                     ∧ m1 !! (src ++ rel') = Some (File c))
  ∧ (∀ q c, q ≠ [] → q `prefix_of` dst → m !! q ≠ Some (File c)).

(** The rows of an archive of the files below [src] in [m1]. *)
Definition row_of (src : Path) (m1 : fs) (r : Archive.row) : Prop :=
  ∃ rel, rel ≠ [] ∧ Forall (λ n, valid_name n = true) rel
         ∧ Archive.relPath r = segments rel
         ∧ m1 !! (src ++ rel) = Some (File (Archive.content r)).

(** The files that the chunking pass splits. *)
Definition oversize (self : SinaraArchive) (m : fs) (x : Path) : bool :=
  match m !! x with
  | Some (File c) => ROW_SIZE self <? Z.of_nat (length c)
  | _ => false
  end.

(** What is in the chunk group of [p] in the packed tree [m]. *)
Definition in_group (chunk_size : Z) (m : fs) (p : Path) (c : list byte) (q : Path) : Prop :=
  let parts_path := parts_path_of p in
  let size := Z.to_nat chunk_size in
  let count := Z.to_nat ((Z.of_nat (length c) + chunk_size - 1) / chunk_size) in
  (q = parts_path ∧ m !! q = Some Dir)
  ∨ (q = parts_path ++ ["_PARTS"] ∧ m !! q = Some (File []))
  ∨ ∃ j, (j < count)%nat ∧ q = chunk_filename parts_path (N.of_nat j)
         ∧ m !! q = Some (File (take size (drop (j * size) c))).

(** The files below [src] that the chunking pass splits, and the chunk
    groups that unpacking them below [dst] gives. *)
Definition oversized (self : SinaraArchive) (src : Path) (m : fs) : list Path :=
  filter (λ x, Is_true (oversize self m x)) (filter (strictly_below src) (entries m)).

Definition content_of (m : fs) (p : Path) : list byte :=
  match m !! p with
  | Some (File c) => c
  | _ => []
  end.

Definition group_of (src dst : Path) (m : fs) (p : Path) : Path * string * list byte :=
  (dst ++ drop (length src) (parent p), name p, content_of m p).

(** * Properties *)

(** ** Partition sizing *)

Module PyFloatFacts.
Import PyFloat.

Lemma round_half_even_cases num den :
  round_half_even num den = num / den
  ∨ (round_half_even num den = num / den + 1 ∧ den ≤ 2 * (num mod den)).
Proof.
  unfold round_half_even.
  destruct (den <? 2 * (num mod den)) eqn:Hlt; simpl.
  - right. apply Z.ltb_lt in Hlt. lia.
  - destruct (den =? 2 * (num mod den)) eqn:Heq; simpl; [|by left].
    apply Z.eqb_eq in Heq. destruct (Z.odd (num / den)); [right; lia | by left].
Qed.

(** Rounding a quotient scaled by [s] and dividing by [s] again gives the
    floor of the quotient, as long as the scale exceeds half the divisor. *)
Lemma round_scaled a b s :
  0 ≤ a → 0 < b → 0 < s → b < 2 * s →
  round_half_even (a * s) b / s = a / b.
Proof.
  intros Ha Hb Hs Hbs.
  pose proof (Z.div_mod a b ltac:(lia)) as Hk.
  pose proof (Z.mod_pos_bound a b Hb) as Ht.
  pose proof (Z.div_mod (a * s) b ltac:(lia)) as Hq.
  pose proof (Z.mod_pos_bound (a * s) b Hb) as Hr.
  set (k := a / b) in *. set (t := a mod b) in *.
  set (q := a * s / b) in *. set (r := (a * s) mod b) in *.
  assert (k * s ≤ q) by nia.
  assert (q < (k + 1) * s) by nia.
  symmetry. apply Z.div_unique with (r := round_half_even (a * s) b - s * k).
  - left. destruct (round_half_even_cases (a * s) b) as [->|[-> Hup]];
      fold q; [lia|]. fold r in Hup.
    split; [lia|].
    destruct (Z.eq_dec (q + 1) ((k + 1) * s)) as [Heq|]; [|lia].
    exfalso. nia.
  - lia.
Qed.

Lemma log2_quot_range n d :
  log2_quot n d = Z.log2 n - Z.log2 d ∨ log2_quot n d = Z.log2 n - Z.log2 d - 1.
Proof. unfold log2_quot. repeat case_match; lia. Qed.

Lemma log2_quot_le n d : 0 < n < 2 ^ 53 → 0 < d → log2_quot n d ≤ 52.
Proof.
  intros Hn Hd.
  assert (Z.log2 n < 53) by (apply Z.log2_lt_pow2; lia).
  pose proof (Z.log2_nonneg d).
  destruct (log2_quot_range n d); lia.
Qed.

(** The divisor is below twice the scale [2 ^ (52 - log2_quot n d)]. *)
Lemma log2_quot_scale n d :
  0 < n < 2 ^ 53 → 0 < d → d < 2 ^ (53 - log2_quot n d).
Proof.
  intros Hn Hd.
  assert (Hln : Z.log2 n < 53) by (apply Z.log2_lt_pow2; lia).
  pose proof (Z.log2_nonneg d) as Hld. pose proof (Z.log2_nonneg n) as Hln0.
  pose proof (Z.log2_spec d Hd) as [_ Hd2].
  unfold log2_quot. set (l := Z.log2 n - Z.log2 d).
  destruct (0 <=? l) eqn:Hl.
  - apply Z.leb_le in Hl. destruct (n <? d * 2 ^ l) eqn:Hc.
    + eapply Z.lt_le_trans; [exact Hd2|]. apply Z.pow_le_mono_r; lia.
    + apply Z.ltb_ge in Hc.
      assert (d * 2 ^ l < 2 ^ l * 2 ^ (53 - l)).
      { rewrite <- Z.pow_add_r by lia. replace (l + (53 - l)) with 53 by lia. lia. }
      assert (0 < 2 ^ l) by (apply Z.pow_pos_nonneg; lia). nia.
  - apply Z.leb_gt in Hl. destruct (n * 2 ^ (- l) <? d) eqn:Hc.
    + eapply Z.lt_le_trans; [exact Hd2|]. apply Z.pow_le_mono_r; lia.
    + apply Z.ltb_ge in Hc.
      replace (53 - l) with (53 + - l) by lia. rewrite Z.pow_add_r by lia.
      assert (0 < 2 ^ (- l)) by (apply Z.pow_pos_nonneg; lia). nia.
Qed.

(** Quotients in the subnormal range. *)
Lemma log2_quot_tiny n d :
  0 < n → 0 < d → log2_quot n d < -1022 → n * 2 ^ 1021 < d.
Proof.
  intros Hn Hd Hlq.
  pose proof (Z.log2_spec n Hn) as [_ Hn2].
  pose proof (Z.log2_spec d Hd) as [Hd1 _].
  pose proof (Z.log2_nonneg n) as Hln0.
  assert (Z.log2 n + 1022 ≤ Z.log2 d) by (destruct (log2_quot_range n d); lia).
  assert (2 ^ (Z.log2 n + 1022) ≤ 2 ^ Z.log2 d) by (apply Z.pow_le_mono_r; lia).
  replace (Z.log2 n + 1022) with (Z.succ (Z.log2 n) + 1021) in * by lia.
  rewrite Z.pow_add_r in * by lia.
  assert (0 < 2 ^ 1021) by (apply Z.pow_pos_nonneg; lia). nia.
Qed.

(** [int(a / b)] is the floor of the quotient while [a] is exactly
    representable. *)
Lemma int_truediv a b :
  0 ≤ a < 2 ^ 53 → 0 < b →
  ∃ x, truediv a b = inr x ∧ int x = a / b.
Proof.
  intros Ha Hb. unfold truediv.
  destruct (b =? 0) eqn:Hb0; [apply Z.eqb_eq in Hb0; lia|].
  rewrite (Z.abs_eq a), (Z.abs_eq b) by lia.
  unfold nearest. destruct (a =? 0) eqn:Ha0.
  { apply Z.eqb_eq in Ha0. subst a. simpl. eexists; split; [done|].
    unfold int; simpl. by rewrite Z.mul_0_r. }
  apply Z.eqb_neq in Ha0. cbn [mant expo].
  rewrite (Z.sgn_pos a), (Z.sgn_pos b) by lia.
  pose proof (log2_quot_le a b ltac:(lia) Hb) as Hle.
  pose proof (log2_quot_scale a b ltac:(lia) Hb) as Hsc.
  set (lq := log2_quot a b) in *.
  remember (Z.max (lq - 52) (-1074)) as e eqn:Hedef.
  assert (He : e ≤ 0) by lia.
  destruct (0 <=? e) eqn:He0.
  - apply Z.leb_le in He0. assert (e = 0) as -> by lia.
    assert (lq = 52) as Hlq by lia. rewrite Hlq in Hsc.
    assert (b = 1) as -> by (change (2 ^ (53 - 52)) with 2 in Hsc; lia).
    change (1 * 2 ^ 0) with 1.
    assert (round_half_even a 1 = a) as ->.
    { unfold round_half_even. rewrite Z.div_1_r, Z.mod_1_r. done. }
    assert (Hov : (2 ^ 1024 <=? a * 2 ^ 0) = false).
    { apply Z.leb_gt. change (2 ^ 0) with 1.
      assert (2 ^ 53 < 2 ^ 1024) by (apply Z.pow_lt_mono_r; lia). lia. }
    rewrite Hov. cbn [andb]. eexists; split; [done|]. unfold int; cbn [mant expo].
    change (0 <=? 0) with true. cbv iota. rewrite Z.div_1_r. change (2 ^ 0) with 1. lia.
  - apply Z.leb_gt in He0. simpl. eexists; split; [done|].
    unfold int; cbn [mant expo]. rewrite (proj2 (Z.leb_gt 0 e)) by lia.
    set (s := 2 ^ (- e)).
    assert (Hs : 0 < s) by (apply Z.pow_pos_nonneg; lia).
    pose proof (round_half_even_cases (a * s) b) as Hm.
    assert (0 ≤ a * s / b) by (apply Z.div_pos; nia).
    rewrite Z.quot_div_nonneg by lia.
    replace (1 * 1 * round_half_even (a * s) b) with (round_half_even (a * s) b) by lia.
    destruct (Z.le_gt_cases (-1074) (lq - 52)) as [Hnorm|Hsub].
    + apply round_scaled; [lia..|].
      assert (e = lq - 52) as He' by lia. unfold s. rewrite He'.
      replace (2 * 2 ^ (- (lq - 52))) with (2 ^ (53 - lq)); [done|].
      replace (53 - lq) with (1 + - (lq - 52)) by lia.
      rewrite Z.pow_add_r by lia. done.
    + pose proof (log2_quot_tiny a b ltac:(lia) Hb ltac:(fold lq; lia)) as Htiny.
      assert (e = -1074) as He' by lia.
      assert (Hs' : s = 2 ^ 1021 * 2 ^ 53) by (unfold s; rewrite He'; done).
      assert (0 < 2 ^ 1021) by (apply Z.pow_pos_nonneg; lia).
      assert (a * s / b < 2 ^ 53).
      { apply Z.div_lt_upper_bound; [lia|]. rewrite Hs'. nia. }
      assert (2 ^ 53 < s).
      { rewrite Hs'. assert (1 < 2 ^ 1021) by (apply Z.pow_gt_1; lia). nia. }
      rewrite Z.div_small by lia. rewrite Z.div_small; [done|]. nia.
Qed.
End PyFloatFacts.


Lemma by_block_size_floor total_size block_size :
  0 ≤ total_size < 2 ^ 53 → 0 < block_size →
  by_block_size total_size block_size = inr (total_size / block_size).
Proof.
  intros Ht Hb. unfold by_block_size.
  destruct (PyFloatFacts.int_truediv total_size block_size Ht Hb) as (x & -> & ->).
  done.
Qed.

(** C5, as stated, fails for sizes beyond the exactly representable range:
    the quotient of [2^31 * 10 MiB - 1] bytes by the default block size is
    rounded up to [2^31] by the float division, one more than its floor. *)
Lemma plan_partitions_not_floor :
  let total := 2 ^ 31 * 10485760 - 1 in
  0 ≤ total ∧ 3 * 5 < total / 10485760
  ∧ plan_partitions total 10485760 5 ≠ inr (total / 10485760).
Proof. vm_compute. split_and!; congruence. Qed.

(** C5 (amended): for [0 <= totalBytes < 2^53], positive [blockSize] and
    positive [coreCount], the partition count is [floor(totalBytes /
    blockSize)] when that exceeds [3 * coreCount], and [3 * coreCount]
    otherwise; for [totalBytes = 0] it is [3 * coreCount], never zero. *)
Theorem plan_partitions_spec total_size block_size cores :
  0 ≤ total_size < 2 ^ 53 → 0 < block_size → 0 < cores →
  plan_partitions total_size block_size cores
  = inr (if cores * 3 <? total_size / block_size
         then total_size / block_size else cores * 3)
  ∧ plan_partitions 0 block_size cores = inr (cores * 3)
  ∧ cores * 3 ≠ 0.
Proof.
  intros Ht Hb Hc. unfold plan_partitions.
  rewrite !by_block_size_floor by lia. split; [done|].
  rewrite Z.div_0_l by lia.
  rewrite (proj2 (Z.ltb_ge (cores * 3) 0)) by lia. split; [done|lia].
Qed.

Lemma plan_partitions_spec_witness :
  plan_partitions (25 * 1024 * 1024 * 1024) (10 * 1024 * 1024) 5 = inr 2560
  ∧ plan_partitions 0 (10 * 1024 * 1024) 5 = inr 15.
Proof.
  destruct (plan_partitions_spec (25 * 1024 * 1024 * 1024) (10 * 1024 * 1024) 5)
    as (H1 & H2 & _); [lia..|].
  split; [exact H1 | exact H2].
Defined.
(** ** Strings *)

Lemma string_app_cons (a : ascii) (s t : string) : String a s +:+ t = String a (s +:+ t).
Proof. reflexivity. Qed.

Lemma string_app_nil_l (s : string) : "" +:+ s = s.
Proof. reflexivity. Qed.

Lemma string_app_nil_r (s : string) : s +:+ "" = s.
Proof. induction s as [|a s IH]; [done|]. by rewrite string_app_cons, IH. Qed.

Lemma string_app_assoc (s1 s2 s3 : string) : (s1 +:+ s2) +:+ s3 = s1 +:+ s2 +:+ s3.
Proof. induction s1 as [|a s1 IH]; [done|]. by rewrite !string_app_cons, IH. Qed.

Lemma string_length_app (s1 s2 : string) :
  String.length (s1 +:+ s2) = (String.length s1 + String.length s2)%nat.
Proof. induction s1 as [|a s1 IH]; [done|]. rewrite string_app_cons. simpl. by rewrite IH. Qed.

Lemma string_app_neq_l (s t : string) : t ≠ "" → s +:+ t ≠ s.
Proof.
  intros Ht Heq. assert (String.length (s +:+ t) = String.length s) as Hl by congruence.
  rewrite string_length_app in Hl. destruct t; [done|simpl in Hl; lia].
Qed.

(** ** State and filesystem facts *)

Lemma path_parent_name (p : Path) : p ≠ [] → p = parent p ++ [name p].
Proof. intros Hp. unfold parent, name. by apply app_removelast_last. Qed.

Lemma parent_snoc (p : Path) (n : string) : parent (p ++ [n]) = p.
Proof. unfold parent. apply removelast_last. Qed.

Lemma name_snoc (p : Path) (n : string) : name (p ++ [n]) = n.
Proof. unfold name. apply last_last. Qed.

Lemma node_at_insert (m : fs) (p q : Path) (n : node) :
  p ≠ [] → node_at (<[p := n]> m) q = if decide (p = q) then Some n else node_at m q.
Proof.
  intros Hp. unfold node_at. destruct q as [|x q].
  - by rewrite decide_False.
  - rewrite lookup_insert. by destruct (decide (p = x :: q)).
Qed.

Lemma node_at_nonroot (m : fs) (p : Path) : p ≠ [] → node_at m p = m !! p.
Proof. by destruct p. Qed.

Lemma bind_run {S A B : Type} (c : ST S A) (k : A → ST S B) (s s' : S) (a : A) :
  c s = (Return a, s') → bind c k s = k a s'.
Proof. intros H. unfold bind. by rewrite H. Qed.

Lemma bind_raise {S A B : Type} (c : ST S A) (k : A → ST S B) (s s' : S) (e : exn) :
  c s = (Raise e, s') → bind c k s = (Raise e, s').
Proof. intros H. unfold bind. by rewrite H. Qed.

Lemma bind_assoc {S A B C : Type} (c : ST S A) (k : A → ST S B) (h : B → ST S C) (s : S) :
  bind (bind c k) h s = bind c (λ a, bind (k a) h) s.
Proof. unfold bind. by destruct (c s) as [[a|e|] s']. Qed.

Section frames.
Context (R : relation fs) `{!PreOrder R}.

Lemma frames_ret {A : Type} (a : A) : frames R (ret a).
Proof. intros m. simpl. reflexivity. Qed.

Lemma frames_raise {A : Type} (e : exn) : frames R (raise (A:=A) e).
Proof. intros m. simpl. reflexivity. Qed.

Lemma frames_get : frames R get.
Proof. intros m. simpl. reflexivity. Qed.

Lemma frames_bind {A B : Type} (c : F A) (k : A → F B) :
  frames R c → (∀ a, frames R (k a)) → frames R (bind c k).
Proof.
  intros Hc Hk m. unfold bind. specialize (Hc m).
  destruct (c m) as [[a|e|] m1]; simpl in *; [|done..].
  etrans; [exact Hc|apply Hk].
Qed.

Lemma frames_for_ {A : Type} (l : list A) (body : A → F unit) :
  (∀ x, x ∈ l → frames R (body x)) → frames R (for_ l body).
Proof.
  induction l as [|x l IH]; intros Hb; simpl.
  - apply frames_ret.
  - apply frames_bind; [apply Hb; left|].
    intros _. apply IH. intros y Hy. apply Hb. by right.
Qed.

Lemma frames_for_acc {A B : Type} (l : list A) (acc : B) (body : B → A → F B) :
  (∀ b x, x ∈ l → frames R (body b x)) → frames R (for_acc l acc body).
Proof.
  revert acc. induction l as [|x l IH]; intros acc Hb; simpl.
  - apply frames_ret.
  - apply frames_bind; [apply Hb; left|].
    intros b. apply IH. intros b' y Hy. apply Hb. by right.
Qed.
End frames.

Global Instance same_outside_preorder (d : Path) : PreOrder (same_outside d).
Proof.
  split.
  - by intros m q _.
  - intros m1 m2 m3 H12 H23 q Hq. by rewrite H23, H12.
Qed.

Global Instance changes_at_preorder (d : Path) : PreOrder (changes_at d).
Proof.
  split.
  - by intros m q _ _.
  - intros m1 m2 m3 H12 H23 q Hq1 Hq2. by rewrite H23, H12.
Qed.

Global Instance files_within_preorder (bound : Z) : PreOrder (files_within bound).
Proof.
  split.
  - intros m q c Hq. by left.
  - intros m1 m2 m3 H12 H23 q c Hq. destruct (H23 q c Hq) as [Hq2|]; [|by right].
    by apply H12.
Qed.

Lemma changes_at_same_outside (d : Path) (m m' : fs) :
  changes_at d m m' → same_outside d m m'.
Proof.
  intros H q Hq. apply H.
  - intros ->. by apply Hq.
  - intros x ->. apply Hq. by apply prefix_app_r.
Qed.

Lemma frames_open_rb (R : relation fs) `{!PreOrder R} (p : Path) : frames R (open_rb p).
Proof. intros m. unfold open_rb. repeat case_match; simpl; reflexivity. Qed.

(** What the three write operations of [_split_file] can do. *)
Lemma Path_mkdir_cases (p : Path) (m : fs) :
  Path_mkdir p m = (Return (), m) ∨ Path_mkdir p m = (Return (), <[p := Dir]> m)
  ∨ ∃ e, Path_mkdir p m = (Raise e, m).
Proof. unfold Path_mkdir, create. repeat case_match; eauto. Qed.

Lemma Path_touch_cases (p : Path) (m : fs) :
  Path_touch p m = (Return (), m) ∨ Path_touch p m = (Return (), <[p := File []]> m)
  ∨ ∃ e, Path_touch p m = (Raise e, m).
Proof. unfold Path_touch, create. repeat case_match; eauto. Qed.

Lemma open_write_cases (p : Path) (data : list byte) (m : fs) :
  (open_wb p ;; write p data) m = (Return (), <[p := File data]> m)
  ∨ ∃ e, (open_wb p ;; write p data) m = (Raise e, m).
Proof.
  unfold bind, open_wb, create, write.
  repeat case_match; simplify_eq; eauto; left; by rewrite alter_insert_eq.
Qed.

Lemma read_chunk_ok (n : Z) (rest chunk rest' : list byte) :
  read n rest = inr (chunk, rest') → chunk_ok n chunk.
Proof.
  unfold chunk_ok, read. destruct (n <? -1); [done|].
  destruct (n <? 0) eqn:Hn; intros [= <- <-].
  - left. by apply Z.ltb_lt.
  - right. rewrite length_take. lia.
Qed.

Section split_frames.
Context (R : relation fs) `{!PreOrder R} (parts_path : Path) (chunk_size : Z).
Hypothesis R_dir : ∀ m, R m (<[parts_path := Dir]> m).
Hypothesis R_file : ∀ m x c, chunk_ok chunk_size c → R m (<[parts_path ++ [x] := File c]> m).

Lemma frames_split_loop (fuel : nat) (fin : list byte) (part_num : N) :
  frames R (split_loop fuel parts_path chunk_size fin part_num).
Proof.
  revert fin part_num. induction fuel as [|fuel IH]; intros fin part_num; simpl.
  - intros m. simpl. reflexivity.
  - pose proof (read_chunk_ok chunk_size fin) as Hok.
    destruct (read chunk_size fin) as [e|[chunk fin']]; [by apply frames_raise|].
    specialize (Hok chunk fin' eq_refl).
    destruct chunk as [|c chunk]; [by apply frames_ret|].
    intros m. rewrite <- bind_assoc.
    apply (frames_bind R); [|intros _; apply IH].
    intros m0. unfold chunk_filename.
    destruct (open_write_cases (parts_path ++ [part_name part_num]) (c :: chunk) m0)
      as [->|[e ->]]; simpl; [by apply R_file|reflexivity].
Qed.

Lemma frames_split_file_gen (path : Path) :
  parts_path_of path = parts_path → frames R (_split_file path chunk_size).
Proof.
  intros Hpp. unfold _split_file. rewrite Hpp.
  apply frames_bind; [done| |intros _].
  { intros m. destruct (Path_mkdir_cases parts_path m) as [->|[->|[e ->]]]; simpl;
      [reflexivity|apply R_dir|reflexivity]. }
  apply frames_bind; [done|by apply frames_open_rb|intros fin].
  apply frames_bind; [done|apply frames_split_loop|intros _].
  intros m. destruct (Path_touch_cases (parts_path ++ ["_PARTS"]) m) as [->|[->|[e ->]]];
    simpl; [reflexivity| |reflexivity].
  apply R_file. unfold chunk_ok. simpl. lia.
Qed.
End split_frames.

(** [_split_file] changes the [.parts] directory and its direct children
    only. *)
Lemma split_file_changes_at (path : Path) (chunk_size : Z) :
  frames (changes_at (parts_path_of path)) (_split_file path chunk_size).
Proof.
  apply (frames_split_file_gen _ (parts_path_of path)); [| |done].
  - intros m q Hq _. by apply lookup_insert_ne.
  - intros m x c _ q _ Hq. apply lookup_insert_ne. apply not_eq_sym, Hq.
Qed.

Lemma frames_split_file (path : Path) (chunk_size : Z) :
  frames (same_outside (parts_path_of path)) (_split_file path chunk_size).
Proof. intros m. apply changes_at_same_outside, split_file_changes_at. Qed.

(** With a non-negative chunk size, every file [_split_file] writes has at
    most that many bytes. *)
Lemma split_file_within (path : Path) (chunk_size : Z) :
  0 ≤ chunk_size → frames (files_within chunk_size) (_split_file path chunk_size).
Proof.
  intros Hc. apply (frames_split_file_gen _ (parts_path_of path)); [| |done].
  - intros m q c Hq. left.
    rewrite lookup_insert in Hq. by case_decide.
  - intros m x c [?|Hlen] q c' Hq; [lia|].
    rewrite lookup_insert in Hq. case_decide; simplify_eq; auto.
Qed.

Lemma parts_path_not_prefix (p : Path) : ¬ parts_path_of p `prefix_of` p.
Proof.
  unfold parts_path_of. intros [k Hk]. destruct (decide (p = [])) as [->|Hp].
  - by destruct k.
  - rewrite (path_parent_name p Hp) in Hk at 1.
    rewrite <- (assoc_L (++)) in Hk. apply (inj (app _)) in Hk.
    simplify_eq/=. by eapply (string_app_neq_l (name p) ".parts").
Qed.

(** C9: whatever its outcome, [_split_file] leaves the original file as it
    was, and every entry it creates or changes is the sibling
    [<name>.parts] directory or an entry directly inside it. *)
Theorem split_file_frame (path : Path) (chunk_size : Z) (m : fs) :
  let m' := (_split_file path chunk_size m).2 in
  let parts_path := parts_path_of path in
  m' !! path = m !! path
  ∧ parent parts_path = parent path
  ∧ name parts_path = name path +:+ ".parts"
  ∧ ∀ q, m' !! q ≠ m !! q → q = parts_path ∨ ∃ x, q = parts_path ++ [x].
Proof.
  pose proof (split_file_changes_at path chunk_size m) as Hf. simpl.
  split_and!.
  - apply (frames_split_file path chunk_size m), parts_path_not_prefix.
  - apply parent_snoc.
  - apply name_snoc.
  - intros q Hq. destruct (decide (q = parts_path_of path)) as [|Hne]; [by left|].
    destruct (decide (q = [])) as [->|Hq0].
    { destruct Hq. apply Hf; [done|]. intros x Hx. by destruct (parts_path_of path). }
    destruct (decide (parent q = parts_path_of path)) as [Hpar|Hpar].
    + right. exists (name q). rewrite <- Hpar. by apply path_parent_name.
    + destruct Hq. apply Hf; [done|]. intros x ->. by rewrite parent_snoc in Hpar.
Qed.
(** ** Chunk names *)

Lemma all_from_spec (test : N → bool) (i : N) (count : nat) (j : N) :
  all_from test i count = true → (i ≤ j < i + N.of_nat count)%N → test j = true.
Proof.
  revert i. induction count as [|count IH]; intros i Hall Hj; [lia|].
  simpl in Hall. apply andb_true_iff in Hall as [Hi Hall].
  destruct (decide (j = i)) as [->|]; [done|].
  apply (IH (N.succ i)); [done|lia].
Qed.

Lemma index_of_zeros (k : nat) (s : string) (n : N) :
  index_of s = Some n → index_of (Py.zeros k +:+ s) = Some n.
Proof.
  intros Hs. induction k as [|k IH]; [done|].
  unfold index_of in *. simpl Py.zeros. rewrite string_app_cons.
  cbn [NilEmpty.uint_of_string].
  destruct (NilEmpty.uint_of_string (Py.zeros k +:+ s)) as [d|]; [|done].
  simpl in *. simplify_eq. done.
Qed.

Lemma index_of_format_04d (n : N) : index_of (Py.format_04d n) = Some n.
Proof.
  unfold Py.format_04d. apply index_of_zeros.
  unfold index_of, Py.format_d, NilZero.string_of_uint.
  destruct (N.to_uint n) eqn:Hn;
    try (rewrite <- Hn, NilEmpty.usu; simpl; by rewrite DecimalN.Unsigned.of_to).
  apply (f_equal N.of_uint) in Hn. rewrite DecimalN.Unsigned.of_to in Hn.
  by subst.
Qed.

Lemma part_name_inj (i j : N) : part_name i = part_name j → i = j.
Proof.
  unfold part_name. intros H%(inj (String.app _)).
  apply (f_equal index_of) in H. rewrite !index_of_format_04d in H. congruence.
Qed.

Lemma chunk_filename_inj (parts_path : Path) (i j : N) :
  chunk_filename parts_path i = chunk_filename parts_path j → i = j.
Proof.
  unfold chunk_filename. intros H%(inj (app _)). apply part_name_inj. congruence.
Qed.

Lemma format_04d_length_ge (n : N) : (4 ≤ String.length (Py.format_04d n))%nat.
Proof.
  unfold Py.format_04d. rewrite string_length_app.
  assert (∀ k, String.length (Py.zeros k) = k) as ->
    by (induction k; simpl; congruence).
  lia.
Qed.

(** The first 10000 indices take exactly four digits, and the names are in
    increasing string order. *)
Lemma four_digits_below : all_from four_digits 0 (100 * 100) = true.
Proof. vm_compute. reflexivity. Qed.

Lemma part_names_increasing :
  all_from (λ n, name_lt (part_name n) (part_name (N.succ n))) 0 (100 * 100 - 1) = true.
Proof. vm_compute. reflexivity. Qed.

Lemma format_04d_length (n : N) : (n < 10000)%N → String.length (Py.format_04d n) = 4%nat.
Proof.
  intros Hn. apply Nat.eqb_eq.
  apply (all_from_spec four_digits 0 (100 * 100) n four_digits_below). lia.
Qed.

Lemma part_name_lt_succ (n : N) :
  (n < 9999)%N → name_lt (part_name n) (part_name (N.succ n)) = true.
Proof.
  intros Hn.
  apply (all_from_spec _ 0 (100 * 100 - 1) n part_names_increasing). lia.
Qed.

Lemma name_lt_spec (s t : string) : name_lt s t = true ↔ (s ≤ t)%string ∧ s ≠ t.
Proof.
  unfold name_lt, String.le. rewrite andb_true_iff, negb_true_iff, String.eqb_neq.
  by rewrite Is_true_true.
Qed.

Lemma part_name_le (i j : N) :
  (i ≤ j < 10000)%N → (part_name i ≤ part_name j)%string.
Proof.
  intros [Hij Hj]. revert Hj. pattern j. revert j Hij.
  apply N.right_induction; [solve_proper|done|].
  intros j Hij IH Hj. etrans; [apply IH; lia|].
  apply (name_lt_spec (part_name j)), part_name_lt_succ. lia.
Qed.
(** ** Chunker *)

Lemma read_pos (n : Z) (rest : list byte) :
  0 ≤ n → read n rest = inr (take (Z.to_nat n) rest, drop (Z.to_nat n) rest).
Proof.
  intros Hn. unfold read.
  by rewrite (proj2 (Z.ltb_ge n (-1))), (proj2 (Z.ltb_ge n 0)) by lia.
Qed.




(** Opening a fresh file in an existing directory and writing to it. *)
Lemma write_new_file (m : fs) (p : Path) (n : string) (data : list byte) :
  node_at m p = Some Dir → m !! (p ++ [n]) = None →
  (open_wb (p ++ [n]) ;; write (p ++ [n]) data) m
  = (Return (), <[p ++ [n] := File data]> m).
Proof.
  intros Hp Hn. unfold bind, open_wb, create, write.
  rewrite node_at_nonroot, Hn by (by destruct p). rewrite parent_snoc, Hp.
  by rewrite alter_insert_eq.
Qed.

Lemma snoc_ne_self (p : Path) (n : string) : p ++ [n] ≠ p.
Proof. intros H%(f_equal length). rewrite length_app in H. simpl in H. lia. Qed.

Section split_loop.
Context (parts_path : Path) (chunk_size : Z).
Let cn := Z.to_nat chunk_size.
Let chunk (fin : list byte) (j : nat) := take cn (drop (j * cn) fin).

Lemma split_loop_spec (fuel : nat) (fin : list byte) (k : N) (m : fs) :
  0 < chunk_size → (length fin < fuel)%nat →
  node_at m parts_path = Some Dir →
  (∀ j, (k ≤ j)%N → m !! chunk_filename parts_path j = None) →
  ∃ m', split_loop fuel parts_path chunk_size fin k m = (Return (), m')
    ∧ (∀ j : nat, (j * cn < length fin)%nat →
          m' !! chunk_filename parts_path (k + N.of_nat j) = Some (File (chunk fin j)))
    ∧ (∀ q, (∀ j : nat, (j * cn < length fin)%nat →
               q ≠ chunk_filename parts_path (k + N.of_nat j)) →
          m' !! q = m !! q).
Proof.
  intros Hc. assert (Hcn : (0 < cn)%nat) by (unfold cn; lia).
  revert fin k m. induction fuel as [|fuel IH]; intros fin k m Hf Hd Hfree; [lia|].
  simpl. rewrite read_pos by lia. fold cn.
  destruct (take cn fin) as [|c ch] eqn:Htake.
  { assert (fin = []) as ->.
    { destruct fin; [done|]. destruct cn; [lia|done]. }
    eexists; split_and!; [done|simpl; lia|done]. }
  rewrite <- Htake.
  pose proof (write_new_file m parts_path (part_name k) (take cn fin) Hd
                (Hfree k (N.le_refl k))) as Hw.
  unfold chunk_filename at 1 2.
  rewrite <- bind_assoc, (bind_run _ _ _ _ _ Hw).
  assert (Hlen : (length (drop cn fin) < length fin)%nat).
  { rewrite length_drop. destruct fin as [|b0 fin]; [by rewrite take_nil in Htake|].
    cbn [length]. lia. }
  destruct (IH (drop cn fin) (k + 1)%N
              (<[parts_path ++ [part_name k] := File (take cn fin)]> m))
    as (m' & Hrun & Hin & Hout).
  - lia.
  - rewrite node_at_insert by (by destruct parts_path).
    rewrite decide_False; [done|]. apply snoc_ne_self.
  - intros j Hj. rewrite lookup_insert_ne; [apply Hfree; lia|].
    intros H%chunk_filename_inj. lia.
  - exists m'. split; [done|]. split.
    + intros [|j] Hj.
      * rewrite N.add_0_r, Hout.
        { rewrite lookup_insert_eq. unfold chunk. by rewrite Nat.mul_0_l, drop_0. }
        intros j _ H%chunk_filename_inj. lia.
      * replace (k + N.of_nat (S j))%N with (k + 1 + N.of_nat j)%N by lia. rewrite Hin.
        { unfold chunk. by rewrite drop_drop. }
        rewrite length_drop. lia.
    + intros q Hq. rewrite Hout.
      * apply lookup_insert_ne. intros <-. apply (Hq 0%nat); [lia|].
        by rewrite N.add_0_r.
      * intros j Hj. replace (k + 1 + N.of_nat j)%N with (k + N.of_nat (S j))%N by lia.
        apply Hq. rewrite length_drop in Hj. lia.
Qed.
End split_loop.

Lemma ceil_div_spec (s c : Z) (j : nat) :
  0 < c → 0 ≤ s →
  (j < Z.to_nat ((s + c - 1) / c))%nat ↔ Z.of_nat j * c < s.
Proof.
  intros Hc Hs.
  assert (0 ≤ (s + c - 1) / c) by (apply Z.div_pos; lia).
  pose proof (Z.mul_div_le (s + c - 1) c Hc).
  pose proof (Z.mul_succ_div_gt (s + c - 1) c Hc).
  split; intros Hj.
  - assert (Z.of_nat j + 1 ≤ (s + c - 1) / c) by lia. nia.
  - assert (Z.of_nat j + 1 ≤ (s + c - 1) / c); [|lia].
    apply Z.div_le_lower_bound; lia.
Qed.

Lemma concat_chunks (c : nat) (data : list byte) (n : nat) :
  concat ((λ j, take c (drop (j * c) data)) <$> seq 0 n) = take (n * c) data.
Proof.
  induction n as [|n IH]; [done|].
  rewrite seq_S, fmap_app, concat_app, IH. simpl. rewrite app_nil_r, take_take_drop.
  f_equal. lia.
Qed.

Lemma sentinel_not_chunk (parts_path : Path) (j : N) :
  parts_path ++ ["_PARTS"] ≠ chunk_filename parts_path j.
Proof. unfold chunk_filename, part_name. by intros H%(inj (app _)). Qed.

Lemma prefix_snoc_inv (d q : Path) :
  d `prefix_of` q → q = d ∨ ∃ n, (d ++ [n]) `prefix_of` q.
Proof.
  intros [[|n k] ->].
  - left. by rewrite app_nil_r.
  - right. exists n. exists k. by rewrite <- (assoc_L (++)).
Qed.

(** What [_split_file] does to a non-empty file whose [.parts] directory
    does not exist yet. *)
Lemma split_file_spec (path : Path) (chunk_size : Z) (data : list byte) (m : fs) :
  let parts_path := parts_path_of path in
  let c := Z.to_nat chunk_size in
  let n := Z.to_nat ((Z.of_nat (length data) + chunk_size - 1) / chunk_size) in
  let chunk := λ j : nat, take c (drop (j * c) data) in
  node_at m path = Some (File data) → data ≠ [] → 0 < chunk_size →
  node_at m (parent path) = Some Dir →
  (∀ q, parts_path `prefix_of` q → m !! q = None) →
  ∃ m1 : fs,
    _split_file path chunk_size m
      = (Return (), <[parts_path ++ ["_PARTS"] := File []]> m1)
    ∧ m1 !! (parts_path ++ ["_PARTS"]) = None
    ∧ m1 !! parts_path = Some Dir
    ∧ (∀ j : nat, (j < n)%nat →
         m1 !! (parts_path ++ ["part-" +:+ Py.format_04d (N.of_nat j)])
         = Some (File (chunk j)))
    ∧ (∀ q, parts_path `prefix_of` q → is_Some (m1 !! q) →
         q = parts_path
         ∨ ∃ j : nat, (j < n)%nat
             ∧ q = parts_path ++ ["part-" +:+ Py.format_04d (N.of_nat j)])
    ∧ (∀ j : N, (j < 10000)%N → String.length (Py.format_04d j) = 4%nat)
    ∧ (∀ j : N, (4 ≤ String.length (Py.format_04d j))%nat)
    ∧ (∀ j, (j + 1 < n)%nat → length (chunk j) = c)
    ∧ (0 < length (chunk (n - 1)) ≤ c)%nat
    ∧ concat (chunk <$> seq 0 n) = data.
Proof.
  intros parts_path c n chunk Hfile Hdata Hc Hparent Hfresh.
  assert (Hpath : path ≠ []) by (by intros ->).
  assert (Hparts : parts_path ≠ [])
    by (unfold parts_path, parts_path_of; by destruct (parent path)).
  assert (Hcn : (0 < c)%nat) by (unfold c; lia).
  assert (Hn : ∀ j, (j < n)%nat ↔ (j * c < length data)%nat).
  { intros j. unfold n. rewrite ceil_div_spec by lia. unfold c. nia. }
  set (m0 := <[parts_path := Dir]> m).
  assert (Hmk : Path_mkdir parts_path m = (Return (), m0)).
  { unfold Path_mkdir, create. rewrite node_at_nonroot, Hfresh by done.
    unfold parts_path at 1, parts_path_of. by rewrite parent_snoc, Hparent. }
  assert (Hrb : open_rb path m0 = (Return data, m0)).
  { unfold open_rb. unfold m0. rewrite node_at_insert, decide_False, Hfile; [done| |done].
    intros Heq. apply (parts_path_not_prefix path). fold parts_path. by rewrite Heq. }
  destruct (split_loop_spec parts_path chunk_size (S (length data)) data 0%N m0)
    as (m1 & Hloop & Hin & Hout); [done|lia| | |].
  { unfold m0. by rewrite node_at_insert, decide_True. }
  { intros j _. unfold m0. rewrite lookup_insert_ne by (symmetry; apply snoc_ne_self).
    apply Hfresh, prefix_app_r. done. }
  assert (Hsent : m1 !! (parts_path ++ ["_PARTS"]) = None).
  { rewrite Hout by (intros; apply sentinel_not_chunk).
    unfold m0. rewrite lookup_insert_ne by (symmetry; apply snoc_ne_self).
    apply Hfresh, prefix_app_r. done. }
  assert (Hdir : m1 !! parts_path = Some Dir).
  { rewrite Hout; [apply lookup_insert_eq|].
    intros j _. symmetry. apply snoc_ne_self. }
  assert (Hlast : (0 < length (chunk (n - 1)) ≤ c)%nat).
  { assert (0 < n)%nat as Hn0.
    { apply Hn. destruct data; [done|simpl; lia]. }
    assert (Hlast : (n - 1 < n)%nat) by lia. apply Hn in Hlast.
    unfold chunk. rewrite length_take, length_drop. lia. }
  exists m1. split_and!; try done; try apply Hlast.
  - unfold _split_file. fold parts_path.
    rewrite (bind_run _ _ _ _ _ Hmk), (bind_run _ _ _ _ _ Hrb), (bind_run _ _ _ _ _ Hloop).
    unfold Path_touch, create. rewrite node_at_nonroot by (by destruct parts_path).
    rewrite Hsent, parent_snoc, node_at_nonroot, Hdir; done.
  - intros j Hj. apply (Hin j). by apply Hn.
  - intros q Hq Hsome.
    destruct (decide (q ∈ (λ j, chunk_filename parts_path (N.of_nat j)) <$> seq 0 n))
      as [(j & -> & Hj)%list_elem_of_fmap|Hno].
    + right. exists j. apply elem_of_seq in Hj. split; [lia|done].
    + left. rewrite Hout in Hsome.
      2:{ intros j Hj ->. apply Hno, list_elem_of_fmap. exists j. split; [done|].
          apply elem_of_seq. apply Hn in Hj. lia. }
      unfold m0 in Hsome. destruct (decide (q = parts_path)) as [|Hne]; [done|].
      rewrite lookup_insert_ne, Hfresh in Hsome by done. by destruct Hsome.
  - apply format_04d_length.
  - apply format_04d_length_ge.
  - intros j Hj. unfold chunk. rewrite length_take, length_drop.
    apply Hn in Hj. lia.
  - unfold chunk. rewrite (concat_chunks c data n). apply take_ge.
    destruct (decide (n * c < length data)%nat) as [Hlt|]; [|lia].
    apply Hn in Hlt. lia.
Qed.

(** Checking on a concrete filesystem that nothing lies at or below [d]. *)
Lemma nothing_below_check (m : fs) (d : Path) :
  forallb (λ k, negb (bool_decide (d `prefix_of` k))) (entries m) = true →
  ∀ q, d `prefix_of` q → m !! q = None.
Proof.
  intros Hall q Hq. destruct (m !! q) as [x|] eqn:Hx; [|done].
  rewrite forallb_forall in Hall. specialize (Hall q).
  rewrite negb_true_iff, bool_decide_eq_false in Hall. destruct Hall; [|done].
  apply list_elem_of_In, list_elem_of_fmap. exists (q, x).
  split; [done|]. by apply elem_of_map_to_list.
Qed.




(** C2: the index of a chunk file does not always have four digits.  A
    file of 10001 bytes split with chunk size 1 gets its last chunk under
    [part-10000], an index of five digits: the format [:04d] pads to four
    digits and does not bound the width. *)
Lemma split_file_five_digits :
  let data := replicate (100 * 100 + 1) "x"%byte in
  let m : fs := {[ ["d"] := Dir; ["d"; "f"] := File data ]} in
  let r := _split_file ["d"; "f"] 1 m in
  r.1 = Return ()
  ∧ r.2 !! ["d"; "f.parts"; "part-10000"] = Some (File ["x"%byte])
  ∧ chunk_filename ["d"; "f.parts"] 10000 = ["d"; "f.parts"; "part-10000"]
  ∧ String.length (Py.format_04d 10000) = 5%nat.
Proof.
  intros data m r.
  destruct (split_file_spec ["d"; "f"] 1 data m)
    as (m1 & Hrun & _ & _ & Hchunks & _); [done|done|lia|done| |].
  { apply nothing_below_check. vm_compute. reflexivity. }
  assert (Hname : Py.format_04d 10000 = "10000") by (vm_compute; reflexivity).
  specialize (Hchunks (100 * 100)%nat).
  unfold data in Hchunks at 1. rewrite length_replicate, Z.div_1_r in Hchunks.
  specialize (Hchunks ltac:(lia)).
  replace (N.of_nat (100 * 100)) with 10000%N in Hchunks by lia.
  rewrite Hname in Hchunks.
  unfold data in Hchunks. rewrite drop_replicate, take_replicate in Hchunks.
  replace (Z.to_nat 1 `min` (100 * 100 + 1 - 100 * 100 * Z.to_nat 1))%nat with 1%nat
    in Hchunks by lia.
  subst r. rewrite Hrun. cbn [fst snd]. split_and!.
  - done.
  - rewrite lookup_insert_ne by done. exact Hchunks.
  - unfold chunk_filename, part_name. by rewrite Hname.
  - by rewrite Hname.
Qed.

(** ** The order [sorted] uses *)

Lemma string_eqb_refl (s : string) : String.eqb s s = true.
Proof. apply String.eqb_refl. Qed.

Global Instance path_le_refl : Reflexive path_le.
Proof.
  intros p. unfold path_le. induction p as [|a p IH]; [done|].
  simpl. by rewrite string_eqb_refl.
Qed.

Global Instance path_le_total : Total path_le.
Proof.
  intros p. unfold path_le. induction p as [|a p IH]; intros [|b q]; simpl; auto.
  rewrite (String.eqb_sym b a).
  destruct (String.eqb a b); [apply IH|].
  destruct (total String.le a b); auto.
Qed.

Global Instance path_le_antisym : AntiSymm (=) path_le.
Proof.
  intros p. unfold path_le. induction p as [|a p IH]; intros [|b q]; simpl; try done.
  rewrite (String.eqb_sym b a).
  destruct (String.eqb_spec a b) as [->|Hne].
  - intros H1 H2. f_equal. by apply IH.
  - intros H1 H2. destruct Hne. by apply (anti_symm String.le).
Qed.

Global Instance path_le_trans : Transitive path_le.
Proof.
  intros p. unfold path_le.
  induction p as [|a p IH]; intros [|b q] [|c r]; simpl; try done.
  destruct (String.eqb_spec a b) as [->|Hab].
  - destruct (String.eqb_spec b c) as [->|Hbc]; [apply IH|done].
  - destruct (String.eqb_spec b c) as [->|Hbc].
    + by rewrite (proj2 (String.eqb_neq a c)).
    + intros H1 H2. destruct (String.eqb_spec a c) as [->|Hac].
      * destruct Hab. by apply (anti_symm String.le).
      * by trans b.
Qed.

Lemma path_le_siblings (d : Path) (a b : string) :
  path_le (d ++ [a]) (d ++ [b]) ↔ (a ≤ b)%string.
Proof.
  unfold path_le. induction d as [|x d IH]; simpl.
  - destruct (String.eqb_spec a b) as [->|]; [|done].
    split; [done|intros _; by destruct b].
  - by rewrite string_eqb_refl.
Qed.

(** [sorted] does not depend on the order of its input. *)
Lemma sorted_Permutation (l1 l2 : list Path) : l1 ≡ₚ l2 → sorted l1 = sorted l2.
Proof.
  intros Hp. unfold sorted. apply (Sorted_unique path_le).
  - apply Sorted_merge_sort; apply _.
  - apply Sorted_merge_sort; apply _.
  - by rewrite !merge_sort_Permutation.
Qed.

Lemma sorted_of_Sorted (l l' : list Path) :
  Sorted path_le l → l' ≡ₚ l → sorted l' = l.
Proof.
  intros Hs Hp. unfold sorted. apply (Sorted_unique path_le); [|done|].
  - apply Sorted_merge_sort; apply _.
  - by rewrite merge_sort_Permutation.
Qed.

(** Two duplicate-free lists with the same elements. *)
Lemma NoDup_same_elements {A : Type} (l1 l2 : list A) :
  NoDup l1 → NoDup l2 → (∀ x, x ∈ l1 ↔ x ∈ l2) → l1 ≡ₚ l2.
Proof. intros. by apply NoDup_Permutation. Qed.

(** ** Directory listings *)

Lemma elem_of_entries (m : fs) (q : Path) : q ∈ entries m ↔ is_Some (m !! q).
Proof.
  unfold entries. rewrite list_elem_of_fmap. split.
  - intros ([q' x] & -> & Hx). apply elem_of_map_to_list in Hx. by exists x.
  - intros [x Hx]. exists (q, x). split; [done|]. by apply elem_of_map_to_list.
Qed.

Lemma NoDup_entries (m : fs) : NoDup (entries m).
Proof. apply NoDup_fst_map_to_list. Qed.

Lemma lists_Permutation (m : fs) (P : Path → Prop) (l1 l2 : list Path) :
  lists m P l1 → lists m P l2 → l1 ≡ₚ l2.
Proof.
  intros [Hn1 H1] [Hn2 H2]. apply NoDup_Permutation; [done..|].
  intros q. by rewrite H1, H2.
Qed.

Lemma lists_filter_entries (o : schedule) (m : fs) (P : Path → Prop) `{!∀ q, Decision (P q)} :
  lists m P (filter P (fs_order o (entries m))).
Proof.
  split.
  - apply NoDup_filter. rewrite fs_order_perm. apply NoDup_entries.
  - intros q. rewrite list_elem_of_filter, fs_order_perm, elem_of_entries. tauto.
Qed.

Lemma glob_rec_lists (o : schedule) (d : Path) (m : fs) :
  is_dir m d = true →
  ∃ l, glob_rec o d m = (Return l, m) ∧ lists m (strictly_below d) l.
Proof.
  intros Hd. unfold glob_rec. rewrite Hd. eexists; split; [done|].
  split.
  - rewrite fs_order_perm. apply NoDup_filter, NoDup_entries.
  - intros q. rewrite fs_order_perm, list_elem_of_filter, elem_of_entries. tauto.
Qed.

Lemma glob_prefix_lists (o : schedule) (d : Path) (pre : string) (m : fs) :
  is_dir m d = true →
  ∃ l, glob_prefix o d pre m = (Return l, m)
    ∧ lists m (λ q, ∃ n, q = d ++ [n] ∧ Py.startswith n pre = true) l.
Proof.
  intros Hd. destruct (glob_rec_lists o d m Hd) as (l & Hrun & Hn & Hl).
  unfold glob_prefix. rewrite (bind_run _ _ _ _ _ Hrun).
  eexists; split; [done|]. split; [by apply NoDup_filter|].
  intros q. rewrite list_elem_of_filter, Hl. split.
  - intros ((Hpar & Hst) & Hsome & Hbelow). split; [done|].
    destruct Hbelow as [[k ->] Hne]. destruct (decide (k = [])) as [->|Hk].
    { by rewrite app_nil_r in Hne. }
    exists (name (d ++ k)). split; [|by apply Is_true_true].
    rewrite <- Hpar at 2. apply path_parent_name. by destruct d, k.
  - intros (Hsome & n & -> & Hst). rewrite parent_snoc, name_snoc.
    unfold strictly_below. split_and!; try done.
    + by apply Is_true_true.
    + by apply prefix_app_r.
    + symmetry. apply snoc_ne_self.
Qed.

(** ** Rejoiner *)

Lemma open_wb_file (m : fs) (p : Path) :
  p ≠ [] → node_at m (parent p) = Some Dir → node_at m p ≠ Some Dir →
  open_wb p m = (Return (), <[p := File []]> m).
Proof.
  intros Hp Hpar Hnd. unfold open_wb, create.
  destruct (node_at m p) as [[c|]|]; [done|done|]. by rewrite Hpar.
Qed.

Lemma append_data_app (c1 c2 : list byte) (n : node) :
  append_data c2 (append_data c1 n) = append_data (c1 ++ c2) n.
Proof. destruct n; simpl; [|done]. by rewrite (assoc_L (++)). Qed.

(** The loop over the sorted part files appends their contents in turn. *)
Lemma join_loop_spec (file_name : Path) (l : list Path) (cs : list (list byte)) (m : fs) :
  Forall2 (λ q c, q ≠ [] ∧ q ≠ file_name ∧ m !! q = Some (File c)) l cs →
  for_ l (λ part_file, data <- open_rb part_file ;; write file_name data) m
  = (Return (), alter (append_data (concat cs)) file_name m).
Proof.
  intros Hl. revert m Hl. revert cs.
  induction l as [|q l IH]; intros cs m Hl.
  - apply Forall2_nil_inv_l in Hl as ->. simpl. unfold ret. f_equal.
    symmetry. apply alter_id. intros [c|] _; simpl; [|done]. by rewrite app_nil_r.
  - apply Forall2_cons_inv_l in Hl as (c & cs' & (Hq & Hne & Hc) & Hl & ->).
    simpl. unfold bind at 1 2, open_rb, write.
    rewrite node_at_nonroot, Hc by done.
    rewrite (IH cs').
    + f_equal. rewrite alter_alter_eq. apply alter_ext.
      intros n _. simpl. apply append_data_app.
    + eapply Forall2_impl; [exact Hl|]. intros q' c' (? & ? & ?).
      split_and!; [done..|]. by rewrite lookup_alter_ne.
Qed.

Lemma join_parts_dir_spec (o : schedule) (parts_dir : Path) (l : list Path)
    (cs : list (list byte)) (m : fs) :
  let file_name := walk (parent parts_dir) (stem parts_dir) in
  parts_dir ≠ [] → m !! parts_dir = Some Dir →
  file_name ≠ [] → ¬ parts_dir `prefix_of` file_name →
  node_at m (parent file_name) = Some Dir →
  node_at m file_name ≠ Some Dir →
  lists m (λ q, ∃ n, q = parts_dir ++ [n] ∧ Py.startswith n "part-" = true) l →
  Sorted path_le l →
  Forall2 (λ q c, m !! q = Some (File c)) l cs →
  join_parts_dir o parts_dir m
  = (Return (), filter (λ kv, ¬ parts_dir `prefix_of` kv.1)
                  (<[file_name := File (concat cs)]> m)).
Proof.
  intros file_name Hpd Hdir Hfn Hnp Hpar Hnd Hl Hsorted Hcs.
  unfold join_parts_dir. fold file_name.
  rewrite (bind_run _ _ _ _ _ (open_wb_file m file_name Hfn Hpar Hnd)).
  set (m0 := <[file_name := File []]> m).
  assert (Hsame : ∀ q, parts_dir `prefix_of` q → m0 !! q = m !! q).
  { intros q Hq. apply lookup_insert_ne. by intros ->. }
  assert (Hdir0 : is_dir m0 parts_dir = true).
  { unfold is_dir. by rewrite node_at_nonroot, Hsame, Hdir. }
  destruct (glob_prefix_lists o parts_dir "part-" m0 Hdir0) as (g & Hg & Hgl).
  rewrite (bind_run _ _ _ _ _ Hg).
  assert (Hperm : g ≡ₚ l).
  { destruct Hgl as [Hgn Hgl], Hl as [Hln Hl]. apply NoDup_Permutation; [done..|].
    intros q. rewrite Hgl, Hl. split; intros [Hs (n & -> & Hn)].
    - rewrite Hsame in Hs by (by apply prefix_app_r). eauto.
    - rewrite <- Hsame in Hs by (by apply prefix_app_r). eauto. }
  rewrite (sorted_of_Sorted l g Hsorted Hperm).
  erewrite bind_run; last first.
  { apply (join_loop_spec file_name l cs m0).
    destruct Hl as [_ Hl].
    apply Forall2_same_length_lookup_2; [by eapply Forall2_length|].
    intros i q c Hq Hc.
    pose proof (Forall2_lookup_lr _ _ _ _ _ _ Hcs Hq Hc) as Hqc.
    assert (q ∈ l) as (_ & n & -> & _)%Hl by (by eapply list_elem_of_lookup_2).
    split_and!.
    - by destruct parts_dir.
    - intros Heq. apply Hnp. rewrite <- Heq. by apply prefix_app_r.
    - rewrite Hsame; [done|by apply prefix_app_r]. }
  unfold shutil_rmtree.
  rewrite node_at_nonroot, lookup_alter_ne by (done || by intros ->).
  rewrite Hsame, Hdir by done. unfold m0. by rewrite alter_insert_eq.
Qed.

Lemma rsplit_at_app (c : ascii) (s t : string) :
  Py.rsplit_at c t = None → Py.rsplit_at c (s +:+ String c t) = Some (s, t).
Proof.
  intros Ht. induction s as [|a s IH].
  - rewrite string_app_nil_l. simpl. by rewrite Ht, Ascii.eqb_refl.
  - rewrite string_app_cons. simpl. by rewrite IH.
Qed.

Lemma stem_parts (p : Path) (n : string) : n ≠ "" → stem (p ++ [n +:+ ".parts"]) = n.
Proof.
  intros Hn. unfold stem. rewrite name_snoc.
  change ".parts" with (String "." "parts").
  rewrite rsplit_at_app by done.
  by rewrite (proj2 (String.eqb_neq n "")).
Qed.

Lemma valid_name_nonempty (n : string) : valid_name n = true → n ≠ "".
Proof. unfold valid_name. by intros H ->. Qed.

Lemma walk_valid (p : Path) (n : string) : valid_name n = true → walk p n = p ++ [n].
Proof.
  unfold valid_name, walk. rewrite !andb_true_iff, !negb_true_iff.
  by intros [[[-> ->] ->] _].
Qed.

(** The file a chunk group is joined into. *)
Lemma file_name_of_parts (d : Path) (n : string) :
  valid_name n = true →
  walk (parent (d ++ [n +:+ ".parts"])) (stem (d ++ [n +:+ ".parts"])) = d ++ [n].
Proof.
  intros Hn. rewrite parent_snoc, stem_parts by by apply valid_name_nonempty.
  by apply walk_valid.
Qed.

Lemma prefix_of_snoc (g d : Path) (x : string) :
  g `prefix_of` d ++ [x] → g = d ++ [x] ∨ g `prefix_of` d.
Proof.
  intros [k Hk]. destruct k as [|y k _] using rev_ind.
  - left. by rewrite app_nil_r in Hk.
  - right. exists k. rewrite (assoc_L (++)) in Hk. by apply app_inj_tail in Hk as [-> _].
Qed.

Lemma joined_lookup (g f : Path) (c : list byte) (m : fs) (q : Path) :
  joined g f c m !! q
  = if decide (g `prefix_of` q) then None
    else if decide (q = f) then Some (File c) else m !! q.
Proof.
  unfold joined. destruct (decide (g `prefix_of` q)) as [Hq|Hq].
  - apply map_lookup_filter_None. right. intros x _. simpl. tauto.
  - destruct (decide (q = f)) as [->|Hne].
    + apply map_lookup_filter_Some. by rewrite lookup_insert_eq.
    + destruct (m !! q) as [x|] eqn:Hx.
      * apply map_lookup_filter_Some. by rewrite lookup_insert_ne.
      * apply map_lookup_filter_None. left. by rewrite lookup_insert_ne.
Qed.

Lemma gdir_ne (g : Path * string * list byte) : gdir g ≠ [].
Proof. unfold gdir. by destruct (g.1.1). Qed.

Lemma gfile_ne (g : Path * string * list byte) : gfile g ≠ [].
Proof. unfold gfile. by destruct (g.1.1). Qed.

Lemma gfile_inj (g g' : Path * string * list byte) :
  gfile g = gfile g' → gdir g = gdir g'.
Proof.
  unfold gfile, gdir. intros H.
  apply app_inj_tail in H as [-> ->]. done.
Qed.

Lemma join_group_spec (o : schedule) (g : Path * string * list byte) (m : fs) :
  chunk_group m g → ¬ gdir g `prefix_of` gfile g →
  join_parts_dir o (gdir g) m = (Return (), joined (gdir g) (gfile g) g.2 m).
Proof.
  intros (Hn & Hdir & Hpar & Hnd & l & cs & Hl & Hs & Hcs & <-) Hsep.
  pose proof (file_name_of_parts g.1.1 g.1.2 Hn) as Hfn. fold (gdir g) in Hfn.
  pose proof (join_parts_dir_spec o (gdir g) l cs m) as Hj. simpl in Hj.
  rewrite Hfn in Hj. apply Hj; try done.
  - apply gdir_ne.
  - apply gfile_ne.
  - unfold gfile. by rewrite parent_snoc.
Qed.

Lemma chunk_group_joined (g g' : Path * string * list byte) (m : fs) :
  chunk_group m g → chunk_group m g' →
  ¬ gdir g `prefix_of` gfile g' → ¬ gdir g' `prefix_of` gfile g →
  ¬ gdir g `prefix_of` gdir g' → ¬ gdir g' `prefix_of` gdir g →
  chunk_group (joined (gdir g) (gfile g) g.2 m) g'.
Proof.
  intros (Hn & Hdir & Hpar & Hnd & _) (Hn' & Hdir' & Hpar' & Hnd' & l & cs & Hl & Hs & Hcs & Hc).
  intros Hgf' Hg'f Hgg' Hg'g.
  assert (Hnd0 : m !! gfile g ≠ Some Dir).
  { by rewrite <- (node_at_nonroot m (gfile g)) by apply gfile_ne. }
  assert (Hparts : ∀ x, joined (gdir g) (gfile g) g.2 m !! (gdir g' ++ [x])
                        = m !! (gdir g' ++ [x])).
  { intros x. rewrite joined_lookup. rewrite decide_False, decide_False; [done| |].
    - intros Heq. apply Hg'f. rewrite <- Heq. by apply prefix_app_r.
    - intros [Heq|Hp]%prefix_of_snoc; [|done].
      apply Hg'g. rewrite Heq. by apply prefix_app_r. }
  split_and!; [done| | | |].
  - rewrite joined_lookup, decide_False, decide_False; [done| |done].
    intros Heq. by rewrite <- Heq, Hdir' in Hnd0.
  - destruct (decide (g'.1.1 = [])) as [->|Hne]; [done|].
    rewrite node_at_nonroot in Hpar' |- * by done.
    rewrite joined_lookup, decide_False, decide_False; [done| |].
    + intros Heq. by rewrite <- Heq, Hpar' in Hnd0.
    + intros Hp. apply Hgg'. unfold gdir at 2. by apply prefix_app_r.
  - rewrite node_at_nonroot in Hnd' |- * by apply gfile_ne.
    rewrite joined_lookup. repeat case_decide; done.
  - exists l, cs. split_and!; [|done| |done].
    + destruct Hl as [Hnl Hl]. split; [done|]. intros q. rewrite Hl.
      split; intros [Hsome (x & -> & Hx)]; (split; [|by eauto]).
      * by rewrite Hparts.
      * by rewrite <- Hparts.
    + destruct Hl as [_ Hl].
      apply Forall2_same_length_lookup_2; [by eapply Forall2_length|].
      intros i q c Hq Hqc.
      pose proof (Forall2_lookup_lr _ _ _ _ _ _ Hcs Hq Hqc) as Hfile.
      assert (q ∈ l) as (_ & x & -> & _)%Hl by (by eapply list_elem_of_lookup_2).
      by rewrite Hparts.
Qed.

Lemma separate_cons (g : Path * string * list byte) (gs : list (Path * string * list byte)) :
  separate (g :: gs) → separate gs.
Proof. intros H g1 g2 H1 H2. apply H; by right. Qed.

(** Joining separate groups one after the other: every group directory is
    gone, every group's file holds its chunks' bytes, and nothing else
    changes. *)
Lemma join_groups_spec (o : schedule) (gs : list (Path * string * list byte)) (m : fs) :
  NoDup (gdir <$> gs) → separate gs → (∀ g, g ∈ gs → chunk_group m g) →
  ∃ m',
    for_ (gdir <$> gs) (join_parts_dir o) m = (Return (), m')
    ∧ (∀ g q, g ∈ gs → gdir g `prefix_of` q → m' !! q = None)
    ∧ (∀ g, g ∈ gs → m' !! gfile g = Some (File g.2))
    ∧ (∀ q, (∀ g, g ∈ gs → ¬ gdir g `prefix_of` q ∧ q ≠ gfile g) → m' !! q = m !! q).
Proof.
  revert m. induction gs as [|g gs IH]; intros m Hnd Hsep Hgs.
  { exists m. split_and!; [done| | |done].
    - intros g q Hg. by apply elem_of_nil in Hg.
    - intros g Hg. by apply elem_of_nil in Hg. }
  rewrite fmap_cons in Hnd. apply NoDup_cons in Hnd as [Hg Hnd].
  assert (Hin : g ∈ g :: gs) by left.
  assert (Hother : ∀ g', g' ∈ gs → gdir g' ≠ gdir g).
  { intros g' Hg' Heq. apply Hg. rewrite <- Heq. by apply list_elem_of_fmap_2. }
  assert (Hdisj : ∀ g', g' ∈ gs →
            ¬ gdir g `prefix_of` gdir g' ∧ ¬ gdir g' `prefix_of` gdir g).
  { intros g' Hg'. split; intros Hp.
    - apply (Hother g' Hg'). by rewrite (proj2 (Hsep g g' Hin ltac:(by right)) Hp).
    - apply (Hother g' Hg'). by rewrite (proj2 (Hsep g' g ltac:(by right) Hin) Hp). }
  simpl. rewrite (bind_run _ _ _ _ _ (join_group_spec o g m (Hgs g Hin)
                                        (proj1 (Hsep g g Hin Hin)))).
  set (m1 := joined (gdir g) (gfile g) g.2 m).
  destruct (IH m1 Hnd (separate_cons _ _ Hsep)) as (m' & Hrun & Hgone & Hfiles & Hrest).
  { intros g' Hg'. apply chunk_group_joined.
    - by apply Hgs.
    - apply Hgs. by right.
    - apply Hsep; [done|by right].
    - apply Hsep; [by right|done].
    - by apply Hdisj.
    - by apply Hdisj. }
  exists m'. split; [done|].
  assert (Hkeep : ∀ q, (∀ g', g' ∈ gs → ¬ gdir g' `prefix_of` q) →
            (∀ g', g' ∈ gs → q ≠ gfile g') → m' !! q = m1 !! q).
  { intros q H1 H2. apply Hrest. intros g' Hg'. split; [by apply H1|by apply H2]. }
  split_and!.
  - intros g' q [->|Hg']%elem_of_cons Hq; [|by eapply Hgone].
    destruct (decide (Exists (λ g', gdir g' `prefix_of` q) gs)) as [Hex|Hno].
    + apply Exists_exists in Hex as (g' & Hg' & Hp). by eapply Hgone.
    + rewrite Hkeep.
      * unfold m1. by rewrite joined_lookup, decide_True.
      * intros g' Hg' Hp. apply Hno, Exists_exists. eauto.
      * intros g' Hg' ->. by apply (Hsep g g' Hin ltac:(by right)).
  - intros g' [->|Hg']%elem_of_cons; [|by apply Hfiles].
    rewrite Hkeep.
    + unfold m1. rewrite joined_lookup, decide_False, decide_True; [done..|].
      apply Hsep; done.
    + intros g' Hg'. apply Hsep; [by right|done].
    + intros g' Hg' Heq%gfile_inj. by apply (Hother g' Hg').
  - intros q Hq. rewrite Hkeep.
    + unfold m1. rewrite joined_lookup, decide_False, decide_False; [done|..].
      * apply (Hq g Hin).
      * apply (Hq g Hin).
    + intros g' Hg'. apply Hq. by right.
    + intros g' Hg'. apply Hq. by right.
Qed.

Lemma endswith_unfold (s suf : string) :
  Py.endswith s suf
  = if String.eqb s suf then true
    else match s with
         | EmptyString => false
         | String _ s' => Py.endswith s' suf
         end.
Proof. by destruct s. Qed.

Lemma endswith_app (s suf : string) : Py.endswith (s +:+ suf) suf = true.
Proof.
  induction s as [|a s IH].
  - by rewrite string_app_nil_l, endswith_unfold, String.eqb_refl.
  - rewrite string_app_cons, endswith_unfold.
    by destruct (String.eqb (String a (s +:+ suf)) suf).
Qed.

Lemma startswith_app (pre s : string) : Py.startswith (pre +:+ s) pre = true.
Proof.
  induction pre as [|a pre IH]; [by destruct s|].
  rewrite string_app_cons. simpl. by rewrite Ascii.eqb_refl.
Qed.

(** [_join_parts] on a tree whose [.parts] directories are exactly the
    groups [gs]. *)
Lemma join_parts_spec (o : schedule) (path : string)
    (gs : list (Path * string * list byte)) (m : fs) :
  is_dir m (resolve path) = true →
  NoDup (gdir <$> gs) → separate gs → (∀ g, g ∈ gs → chunk_group m g) →
  (∀ g, g ∈ gs → strictly_below (resolve path) (gdir g)) →
  (∀ q, strictly_below (resolve path) q → Py.endswith (name q) ".parts" = true →
        m !! q = Some Dir → q ∈ gdir <$> gs) →
  ∃ m',
    _join_parts o path m = (Return (), m')
    ∧ (∀ g q, g ∈ gs → gdir g `prefix_of` q → m' !! q = None)
    ∧ (∀ g, g ∈ gs → m' !! gfile g = Some (File g.2))
    ∧ (∀ q, (∀ g, g ∈ gs → ¬ gdir g `prefix_of` q ∧ q ≠ gfile g) → m' !! q = m !! q).
Proof.
  intros Hd Hnd Hsep Hgs Hbelow Hall.
  destruct (glob_rec_lists o (resolve path) m Hd) as (l & Hrun & Hln & Hl).
  unfold _join_parts, glob_rec_suffix.
  rewrite bind_assoc, (bind_run _ _ _ _ _ Hrun). unfold bind at 1 2, ret, get.
  set (dirs := filter _ (filter _ l)).
  assert (Hperm : dirs ≡ₚ gdir <$> gs).
  { apply NoDup_Permutation; [by do 2 apply NoDup_filter|done|].
    intros q. unfold dirs. rewrite !list_elem_of_filter, Hl, !Is_true_true. split.
    - intros (Hisdir & Hends & Hsome & Hq). apply Hall; [done..|].
      unfold is_dir in Hisdir. rewrite node_at_nonroot in Hisdir.
      + by destruct (m !! q) as [[]|].
      + intros ->. by destruct Hq as [[k Hk] Hne]; destruct (resolve path).
    - intros (g & -> & Hg)%list_elem_of_fmap.
      destruct (Hgs g Hg) as (_ & Hdir & _).
      split_and!; [|by unfold gdir; rewrite name_snoc, endswith_app| |by apply Hbelow].
      + unfold is_dir. by rewrite node_at_nonroot, Hdir by apply gdir_ne.
      + by rewrite Hdir. }
  apply Permutation_map_inv in Hperm as (gs' & Hdirs & Hgs').
  rewrite Hdirs. change (map gdir gs') with (gdir <$> gs').
  destruct (join_groups_spec o gs' m) as (m' & Hrun' & H1 & H2 & H3).
  - by rewrite <- Hgs'.
  - intros g g' Hg Hg'. apply Hsep; by rewrite Hgs'.
  - intros g Hg. apply Hgs. by rewrite Hgs'.
  - exists m'. split; [done|]. split_and!.
    + intros g q Hg. apply H1. by rewrite <- Hgs'.
    + intros g Hg. apply H2. by rewrite <- Hgs'.
    + intros q Hq. apply H3. intros g Hg. apply Hq. by rewrite Hgs'.
Qed.

Global Instance chunk_filename_inj' (parts_path : Path) : Inj (=) (=) (chunk_filename parts_path).
Proof. intros i j. apply chunk_filename_inj. Qed.

(** A directory holding exactly the part files of the indices [idx], listed
    in the order of their names, is a chunk group for their bytes. *)
Lemma chunk_group_of_chunks (m : fs) (d : Path) (n : string) (idx : list N)
    (chunk : N → list byte) :
  valid_name n = true →
  m !! (d ++ [n +:+ ".parts"]) = Some Dir →
  node_at m d = Some Dir → node_at m (d ++ [n]) ≠ Some Dir →
  NoDup idx →
  StronglySorted (λ i j, (part_name i ≤ part_name j)%string) idx →
  (∀ j, j ∈ idx → m !! chunk_filename (d ++ [n +:+ ".parts"]) j = Some (File (chunk j))) →
  (∀ x, is_Some (m !! ((d ++ [n +:+ ".parts"]) ++ [x])) → Py.startswith x "part-" = true →
        ∃ j, j ∈ idx ∧ x = part_name j) →
  chunk_group m (d, n, concat (chunk <$> idx)).
Proof.
  intros Hn Hdir Hpar Hnd Hidx Hsorted Hchunks Honly.
  split_and!; try done.
  exists (chunk_filename (d ++ [n +:+ ".parts"]) <$> idx), (chunk <$> idx).
  split_and!; [split| | |done].
  - by apply (NoDup_fmap_2 _).
  - intros q. rewrite list_elem_of_fmap. split.
    + intros (j & -> & Hj). split; [by rewrite Hchunks|].
      exists (part_name j). split; [done|]. apply startswith_app.
    + intros (Hsome & x & -> & Hx). destruct (Honly x Hsome Hx) as (j & Hj & ->).
      by exists j.
  - apply StronglySorted_Sorted.
    eapply (StronglySorted_fmap _ _ path_le); [|exact Hsorted].
    intros i j Hij. by apply path_le_siblings.
  - apply Forall2_fmap, Forall_Forall2_diag, Forall_forall. intros j Hj. by apply Hchunks.
Qed.

(** Names of increasing indices below 10000 are in string order. *)
Lemma part_names_sorted (start : N) (len : nat) :
  (start + N.of_nat len ≤ 10000)%N →
  StronglySorted (λ i j, (part_name i ≤ part_name j)%string)
    ((λ k, (start + N.of_nat k)%N) <$> seq 0 len).
Proof.
  intros Hlen. induction len as [|len IH]; [constructor|].
  rewrite seq_S, fmap_app. apply StronglySorted_app. split_and!.
  - intros i j (a & -> & Ha%elem_of_seq)%list_elem_of_fmap Hj.
    simpl in Hj. apply list_elem_of_singleton in Hj as ->.
    apply part_name_le. lia.
  - apply IH. lia.
  - repeat constructor.
Qed.

(** ** Splitting and rejoining in place *)

Lemma take_one_drop {A : Type} (l : list A) (j : nat) (x : A) :
  l !! j = Some x → take 1 (drop j l) = [x].
Proof.
  revert j. induction l as [|y l IH]; intros [|j] Hj; simplify_eq/=; [done|].
  by apply IH.
Qed.

Lemma concat_constant {A B : Type} (f : A → list B) (l : list A) (b : B) :
  (∀ x, x ∈ l → f x = [b]) → concat (f <$> l) = replicate (length l) b.
Proof.
  induction l as [|x l IH]; intros Hf; [done|].
  simpl. rewrite (Hf x) by left. simpl. f_equal. apply IH. intros y Hy. apply Hf. by right.
Qed.

Lemma separate_singleton (g : Path * string * list byte) : separate [g].
Proof.
  intros g1 g2 ->%list_elem_of_singleton ->%list_elem_of_singleton. split; [|done].
  unfold gdir, gfile. intros [k Hk]. rewrite <- (assoc_L (++)) in Hk.
  apply (inj (app _)) in Hk. simplify_eq/=.
  by eapply (string_app_neq_l g.1.2 ".parts").
Qed.

(** Splitting the file [d/n] and joining the tree again, when [d/n.parts]
    is the only chunk group: the file ends up with its chunks concatenated in
    the order [idx] that [sorted] gives their names. *)
Lemma split_then_join (o : schedule) (path : string) (d : Path) (n : string)
    (data : list byte) (chunk_size : Z) (idx : list N) (m : fs) :
  let parts_path := d ++ [n +:+ ".parts"] in
  let c := Z.to_nat chunk_size in
  let count := Z.to_nat ((Z.of_nat (length data) + chunk_size - 1) / chunk_size) in
  let chunk := λ j : N, take c (drop (N.to_nat j * c) data) in
  valid_name n = true →
  node_at m (d ++ [n]) = Some (File data) → data ≠ [] → 0 < chunk_size →
  node_at m d = Some Dir →
  (∀ q, parts_path `prefix_of` q → m !! q = None) →
  is_dir m (resolve path) = true → strictly_below (resolve path) parts_path →
  (∀ q, strictly_below (resolve path) q → Py.endswith (name q) ".parts" = true →
        m !! q ≠ Some Dir) →
  NoDup idx → (∀ j, j ∈ idx ↔ (N.to_nat j < count)%nat) →
  StronglySorted (λ i j, (part_name i ≤ part_name j)%string) idx →
  ∃ m2 m3,
    _split_file (d ++ [n]) chunk_size m = (Return (), m2)
    ∧ _join_parts o path m2 = (Return (), m3)
    ∧ m3 !! (d ++ [n]) = Some (File (concat (chunk <$> idx)))
    ∧ (∀ q, parts_path `prefix_of` q → m3 !! q = None)
    ∧ (∀ q, ¬ parts_path `prefix_of` q → q ≠ d ++ [n] → m3 !! q = m !! q).
Proof.
  intros parts_path c count chunk Hn Hfile Hdata Hc Hpar Hfresh Hroot Hbelow Hnoparts
    Hnd Hidx Hsorted.
  assert (Hpp : parts_path_of (d ++ [n]) = parts_path).
  { unfold parts_path_of. by rewrite parent_snoc, name_snoc. }
  destruct (split_file_spec (d ++ [n]) chunk_size data m)
    as (m1 & Hsplit & Hsent & Hdir & Hchunks & Honly & _); try done.
  { by rewrite parent_snoc. }
  { by rewrite Hpp. }
  rewrite Hpp in Hsplit, Hsent, Hdir, Hchunks, Honly.
  set (m2 := <[parts_path ++ ["_PARTS"] := File []]> m1) in *.
  pose proof (frames_split_file (d ++ [n]) chunk_size m) as Hframe.
  rewrite Hsplit, Hpp in Hframe. simpl in Hframe.
  assert (Hnp : ¬ parts_path `prefix_of` d ++ [n]).
  { rewrite <- Hpp. apply parts_path_not_prefix. }
  assert (Hnpd : ¬ parts_path `prefix_of` d).
  { intros Hp. apply Hnp. by apply prefix_app_r. }
  assert (Hnode : ∀ q, ¬ parts_path `prefix_of` q → node_at m2 q = node_at m q).
  { intros [|x q] Hq; [done|]. apply Hframe, Hq. }
  set (g := (d, n, concat (chunk <$> idx))).
  assert (Hg : chunk_group m2 g).
  { apply chunk_group_of_chunks; try done.
    - unfold m2. rewrite lookup_insert_ne; [done|apply snoc_ne_self].
    - by rewrite Hnode.
    - by rewrite Hnode, Hfile.
    - intros j Hj. unfold m2. rewrite lookup_insert_ne by apply sentinel_not_chunk.
      apply Hidx in Hj. specialize (Hchunks (N.to_nat j) Hj).
      by rewrite N2Nat.id in Hchunks.
    - intros x Hsome Hx. unfold m2 in Hsome.
      rewrite lookup_insert_ne in Hsome.
      2:{ intros Heq%(inj (app _)). by simplify_eq. }
      destruct (Honly _ ltac:(by apply prefix_app_r) Hsome) as [Heq|(j & Hj & Heq)].
      + by apply snoc_ne_self in Heq.
      + apply (inj (app _)) in Heq. simplify_eq. exists (N.of_nat j).
        split; [|done]. apply Hidx. by rewrite Nat2N.id. }
  destruct (join_parts_spec o path [g] m2) as (m3 & Hjoin & Hgone & Hfiles & Hrest).
  - unfold is_dir in *. rewrite Hnode; [done|].
    intros Hp. destruct Hbelow as [Hb Hne]. apply Hne. by apply (anti_symm prefix).
  - apply NoDup_singleton.
  - apply separate_singleton.
  - by intros g' ->%list_elem_of_singleton.
  - by intros g' ->%list_elem_of_singleton.
  - intros q Hq Hends Hqdir. apply list_elem_of_singleton. change (gdir g) with parts_path.
    destruct (decide (parts_path `prefix_of` q)) as [Hp|Hp].
    + unfold m2 in Hqdir. destruct (decide (q = parts_path ++ ["_PARTS"])) as [->|Hs].
      { by rewrite lookup_insert_eq in Hqdir. }
      rewrite lookup_insert_ne in Hqdir by done.
      destruct (Honly q Hp ltac:(by rewrite Hqdir)) as [->|(j & Hj & ->)]; [done|].
      by rewrite (Hchunks j Hj) in Hqdir.
    + rewrite Hframe in Hqdir by done. by destruct (Hnoparts q Hq Hends).
  - exists m2, m3. split_and!; [done|done|..].
    + apply (Hfiles g). by left.
    + intros q Hq. by apply (Hgone g q); [left|].
    + intros q Hq Hne. rewrite Hrest, Hframe; [done..|].
      by intros g' ->%list_elem_of_singleton.
Qed.


Local Instance offset_inj (a : N) : Inj (=) (=) (λ k, (a + N.of_nat k)%N).
Proof. intros x y H. lia. Qed.

Lemma misorder_elem (j : N) : j ∈ misorder ↔ (j ≤ 10000)%N.
Proof.
  unfold misorder. rewrite !elem_of_app, !list_elem_of_fmap, list_elem_of_singleton.
  split.
  - intros [(k & -> & Hk%elem_of_seq)|[->|(k & -> & Hk%elem_of_seq)]]; lia.
  - intros Hj. destruct (decide (j ≤ 1000)%N); [|destruct (decide (j = 10000%N))].
    + left. exists (N.to_nat j). split; [lia|]. apply elem_of_seq. lia.
    + by right; left.
    + right; right. exists (N.to_nat (j - 1001)). split; [lia|]. apply elem_of_seq. lia.
Qed.

Lemma misorder_NoDup : NoDup misorder.
Proof.
  unfold misorder. apply NoDup_app. split_and!.
  - apply (NoDup_fmap_2 _), NoDup_seq.
  - intros j (k & -> & Hk%elem_of_seq)%list_elem_of_fmap.
    rewrite elem_of_app, list_elem_of_singleton, list_elem_of_fmap.
    intros [?|(k' & ? & Hk'%elem_of_seq)]; lia.
  - apply NoDup_app. split_and!.
    + apply NoDup_singleton.
    + intros j ->%list_elem_of_singleton (k & ? & Hk%elem_of_seq)%list_elem_of_fmap. lia.
    + apply (NoDup_fmap_2 _), NoDup_seq.
Qed.

Lemma misorder_sorted :
  StronglySorted (λ i j, (part_name i ≤ part_name j)%string) misorder.
Proof.
  assert (H1 : (part_name 1000 ≤ part_name 10000)%string) by (by vm_compute).
  assert (H2 : (part_name 10000 ≤ part_name 1001)%string) by (by vm_compute).
  unfold misorder. apply StronglySorted_app. split_and!.
  - intros i j (k & -> & Hk%elem_of_seq)%list_elem_of_fmap.
    rewrite elem_of_app, list_elem_of_singleton, list_elem_of_fmap.
    intros [->|(k' & -> & Hk'%elem_of_seq)].
    + etrans; [|exact H1]. apply part_name_le. lia.
    + apply part_name_le. lia.
  - apply part_names_sorted. lia.
  - apply StronglySorted_app. split_and!.
    + intros i j ->%list_elem_of_singleton (k & -> & Hk%elem_of_seq)%list_elem_of_fmap.
      etrans; [exact H2|]. apply part_name_le. lia.
    + repeat constructor.
    + apply part_names_sorted. lia.
Qed.


(** C4: the rejoiner never looks for [_PARTS].  A group with [part-0000] and
    [part-0001] and no sentinel is joined like a complete one: the file
    appears with the two chunks' bytes, the group is removed, and nothing is
    raised, in whichever order the directory is listed. *)
Theorem join_parts_without_sentinel :
  let m : fs := {[ ["d"] := Dir;
                   ["d"; "x.parts"] := Dir;
                   ["d"; "x.parts"; "part-0000"] := File ["a"; "b"]%byte;
                   ["d"; "x.parts"; "part-0001"] := File ["c"; "d"]%byte ]} in
  let joined : fs := {[ ["d"] := Dir; ["d"; "x"] := File ["a"; "b"; "c"; "d"]%byte ]} in
  m !! ["d"; "x.parts"; "_PARTS"] = None
  ∧ _join_parts in_order "/d" m = (Return (), joined)
  ∧ _join_parts reversed "/d" m = (Return (), joined).
Proof. vm_compute. split_and!; reflexivity. Qed.

(** C3: the rejoiner's order is the string order of the names, which is the
    index order only up to 10000 chunks.  A file of 10001 bytes, 10000
    times [a] and then [b], split with chunk size 1 and joined again, has
    its last chunk [b] moved to offset 1001, whatever the listing order. *)
Theorem join_parts_misorders (o : schedule) :
  let data := replicate (100 * 100) "a"%byte ++ ["b"%byte] in
  let m : fs := {[ ["d"] := Dir; ["d"; "f"] := File data ]} in
  let split := _split_file ["d"; "f"] 1 m in
  let join := _join_parts o "/d" split.2 in
  split.1 = Return () ∧ join.1 = Return ()
  ∧ join.2 !! ["d"; "f"]
    = Some (File (replicate (10 * 100 + 1) "a"%byte ++ ["b"%byte]
                  ++ replicate (90 * 100 - 1) "a"%byte))
  ∧ join.2 !! ["d"; "f"] ≠ Some (File data).
Proof.
  intros data m split join.
  assert (Hlen : length data = (100 * 100 + 1)%nat).
  { unfold data. rewrite length_app, length_replicate. done. }
  assert (Ha : ∀ j, (j < 100 * 100)%nat → take 1 (drop (j * 1) data) = ["a"%byte]).
  { intros j Hj. apply take_one_drop. unfold data.
    rewrite lookup_app_l by (rewrite length_replicate; lia).
    apply lookup_replicate_2. lia. }
  assert (Hb : take 1 (drop (100 * 100 * 1) data) = ["b"%byte]).
  { apply take_one_drop. unfold data.
    rewrite lookup_app_r by (rewrite length_replicate; lia).
    rewrite length_replicate. by replace (100 * 100 * 1 - 100 * 100)%nat with 0%nat by lia. }
  destruct (split_then_join o "/d" ["d"] "f" data 1 misorder m)
    as (m2 & m3 & Hsplit & Hjoin & Hf & _).
  - reflexivity.
  - reflexivity.
  - unfold data. by destruct (replicate (100 * 100) "a"%byte).
  - lia.
  - reflexivity.
  - apply nothing_below_check. reflexivity.
  - reflexivity.
  - split; [by exists ["f.parts"]|discriminate].
  - intros q [[k ->] Hne] Hends Hdir.
    change (resolve "/d") with ["d"] in *. unfold m in Hdir.
    apply lookup_insert_Some in Hdir as [[Hk _]|[_ Hdir]]; [by destruct k|].
    apply lookup_singleton_Some in Hdir as [_ Hdir]. discriminate.
  - apply misorder_NoDup.
  - intros j. rewrite misorder_elem, Hlen, Z.div_1_r. lia.
  - apply misorder_sorted.
  - subst split join. change (["d"] ++ ["f"]) with ["d"; "f"] in *.
    rewrite Hsplit. cbn [fst snd]. rewrite Hjoin. cbn [fst snd].
    assert (Hcontent : concat ((λ j : N, take (Z.to_nat 1) (drop (N.to_nat j * Z.to_nat 1) data))
                                 <$> misorder)
              = replicate (10 * 100 + 1) "a"%byte ++ ["b"%byte]
                ++ replicate (90 * 100 - 1) "a"%byte).
    { assert (Hrun : ∀ start len, (start + N.of_nat len ≤ 10000)%N →
                concat ((λ j : N, take (Z.to_nat 1) (drop (N.to_nat j * Z.to_nat 1) data))
                          <$> ((λ k, (start + N.of_nat k)%N) <$> seq 0 len))
                = replicate len "a"%byte).
      { intros start len Hle. rewrite (concat_constant _ _ "a"%byte).
        - by rewrite length_fmap, length_seq.
        - intros j (k & -> & Hk%elem_of_seq)%list_elem_of_fmap.
          change (Z.to_nat 1) with 1%nat. apply Ha. lia. }
      unfold misorder. rewrite !fmap_app, !concat_app, !Hrun by lia.
      rewrite list_fmap_singleton. cbn [concat]. rewrite app_nil_r.
      change (Z.to_nat 1) with 1%nat.
      replace (N.to_nat 10000 * 1)%nat with (100 * 100 * 1)%nat by lia.
      by rewrite Hb. }
    rewrite Hcontent in Hf. split_and!; [done..|].
    rewrite Hf. intros Heq.
    apply (f_equal (λ x, match x with
                         | Some (File l) => l !! (10 * 100 + 1)%nat
                         | _ => None
                         end)) in Heq.
    rewrite lookup_app_r in Heq by (rewrite length_replicate; lia).
    rewrite length_replicate in Heq.
    replace (10 * 100 + 1 - (10 * 100 + 1))%nat with 0%nat in Heq by lia.
    cbn beta iota in Heq. unfold data in Heq.
    rewrite (lookup_app_l (replicate (100 * 100) _)) in Heq
      by (rewrite length_replicate; lia).
    rewrite lookup_replicate_2 in Heq by lia. discriminate.
Qed.

(** ** Relative paths *)

Lemma startswith_unfold (s pre : string) :
  Py.startswith s pre
  = match pre, s with
    | EmptyString, _ => true
    | String a pre', String b s' => if Ascii.eqb a b then Py.startswith s' pre' else false
    | String _ _, EmptyString => false
    end.
Proof. by destruct s, pre. Qed.

Lemma contains_unfold (s pat : string) :
  Py.contains s pat
  = if Py.startswith s pat then true
    else match s with
         | EmptyString => false
         | String _ s' => Py.contains s' pat
         end.
Proof. by destruct s. Qed.

Lemma remove_all_skip (pat u t : string) :
  Py.remove_all_from pat (String.length u) (u +:+ t) = Py.remove_all_from pat 0 t.
Proof. induction u as [|a u IH]; [done|]. by rewrite string_app_cons. Qed.

Lemma remove_all_prefix (pat t : string) :
  pat ≠ "" → Py.remove_all_from pat 0 (pat +:+ t) = Py.remove_all_from pat 0 t.
Proof.
  intros Hpat. destruct pat as [|a pat]; [done|].
  rewrite string_app_cons. cbn [Py.remove_all_from].
  rewrite <- (string_app_cons a pat t), startswith_app.
  replace (String.length (String a pat) - 1)%nat with (String.length pat) by (simpl; lia).
  apply remove_all_skip.
Qed.

Lemma remove_all_none (pat t : string) :
  Py.contains t pat = false → Py.remove_all_from pat 0 t = t.
Proof.
  induction t as [|a t IH]; [done|]. rewrite contains_unfold.
  destruct (Py.startswith (String a t) pat) eqn:Hs; [done|]. intros Ht.
  cbn [Py.remove_all_from]. by rewrite Hs, IH.
Qed.

(** Removing the pattern from a string that starts with it and does not
    hold it again leaves the rest. *)
Lemma regexp_replace_prefix (pat rest : string) :
  pat ≠ "" → Py.contains rest pat = false →
  Py.regexp_replace_empty (pat +:+ rest) pat = rest.
Proof.
  intros Hpat Hrest. unfold Py.regexp_replace_empty.
  rewrite (proj2 (String.eqb_neq pat "")) by done.
  by rewrite remove_all_prefix, remove_all_none.
Qed.

Lemma segments_app (p q : Path) : segments (p ++ q) = segments p +:+ segments q.
Proof.
  induction p as [|x p IH]; [done|]. simpl. by rewrite IH, !string_app_assoc.
Qed.

Lemma render_app (p q : Path) : p ≠ [] → render (p ++ q) = render p +:+ segments q.
Proof. intros Hp. destruct p as [|x p]; [done|]. apply (segments_app (x :: p)). Qed.

Lemma segments_startswith (q : Path) : q ≠ [] → Py.startswith (segments q) "/" = true.
Proof.
  intros Hq. destruct q as [|x q]; [done|].
  cbn [segments]. rewrite string_app_cons, startswith_unfold.
  rewrite Ascii.eqb_refl. by destruct ("" +:+ x +:+ segments q).
Qed.

Lemma strictly_below_inv (d q : Path) : strictly_below d q → ∃ rel, rel ≠ [] ∧ q = d ++ rel.
Proof.
  intros [[rel ->] Hne]. exists rel. split; [|done]. intros ->. by rewrite app_nil_r in Hne.
Qed.

Lemma split_nonempty (c : ascii) (s : string) : Py.split c s ≠ [].
Proof.
  destruct s as [|a s]; cbn [Py.split]; [done|].
  destruct (Ascii.eqb a c); [done|]. by destruct (Py.split c s).
Qed.

Lemma contains_slash_cons (a : ascii) (n : string) :
  Py.contains (String a n) "/" = false → Ascii.eqb a "/" = false ∧ Py.contains n "/" = false.
Proof.
  rewrite contains_unfold, startswith_unfold, (Ascii.eqb_sym "/" a).
  destruct (Ascii.eqb a "/"); [by destruct n|done].
Qed.

Lemma split_app_name (n t : string) :
  Py.contains n "/" = false →
  Py.split "/" (n +:+ t)
  = match Py.split "/" t with
    | x :: xs => (n +:+ x) :: xs
    | [] => [n]
    end.
Proof.
  induction n as [|a n IH]; intros Hn.
  - rewrite string_app_nil_l. pose proof (split_nonempty "/" t).
    by destruct (Py.split "/" t).
  - apply contains_slash_cons in Hn as [Ha Hn].
    rewrite string_app_cons. cbn [Py.split]. rewrite Ha, (IH Hn).
    pose proof (split_nonempty "/" t). by destruct (Py.split "/" t).
Qed.

Lemma valid_name_no_slash (n : string) : valid_name n = true → Py.contains n "/" = false.
Proof. unfold valid_name. rewrite !andb_true_iff, !negb_true_iff. tauto. Qed.

Lemma split_segments (p : Path) :
  Forall (λ n, valid_name n = true) p → Py.split "/" (segments p) = "" :: p.
Proof.
  induction 1 as [|n p Hn Hp IH]; [done|].
  cbn [segments]. rewrite string_app_cons, string_app_nil_l. cbn [Py.split].
  rewrite Ascii.eqb_refl. f_equal.
  rewrite split_app_name, IH by by apply valid_name_no_slash.
  by rewrite string_app_nil_r.
Qed.

Lemma foldl_walk_valid (acc p : Path) :
  Forall (λ n, valid_name n = true) p → foldl walk acc p = acc ++ p.
Proof.
  intros Hp. revert acc. induction Hp as [|n p Hn Hp IH]; intros acc; simpl.
  - by rewrite app_nil_r.
  - rewrite walk_valid, IH by done. by rewrite <- (assoc_L (++)).
Qed.

(** A normal path string denotes the path it was rendered from. *)
Lemma resolve_segments (p : Path) :
  Forall (λ n, valid_name n = true) p → resolve (segments p) = p.
Proof.
  intros Hp. unfold resolve. rewrite split_segments by done.
  cbn [foldl]. change (walk [] "") with (@nil string). by apply foldl_walk_valid.
Qed.

Lemma resolve_render (p : Path) :
  Forall (λ n, valid_name n = true) p → resolve (render p) = p.
Proof. destruct p as [|n p]; [done|]. apply resolve_segments. Qed.


(** ** Names of chunk files, and where the pattern of [relPath] can match *)
(** ** Names of chunk files, and where the pattern of [relPath] can match *)

Lemma no_slash_cons (a : ascii) (s : string) :
  Ascii.eqb a "/" = false → Py.contains s "/" = false → Py.contains (String a s) "/" = false.
Proof.
  intros Ha Hs. rewrite contains_unfold, startswith_unfold, (Ascii.eqb_sym "/" a), Ha.
  done.
Qed.

Lemma no_slash_app (s t : string) :
  Py.contains s "/" = false → Py.contains t "/" = false → Py.contains (s +:+ t) "/" = false.
Proof.
  induction s as [|a s IH]; intros Hs Ht; [by rewrite string_app_nil_l|].
  apply contains_slash_cons in Hs as [Ha Hs]. rewrite string_app_cons.
  apply no_slash_cons; [done|]. by apply IH.
Qed.

Lemma no_slash_digits (d : Decimal.uint) :
  Py.contains (NilEmpty.string_of_uint d) "/" = false.
Proof.
  induction d; cbn [NilEmpty.string_of_uint]; [done|by apply no_slash_cons..].
Qed.

Lemma no_slash_zeros (k : nat) : Py.contains (Py.zeros k) "/" = false.
Proof. induction k as [|k IH]; [done|]. cbn [Py.zeros]. by apply no_slash_cons. Qed.

Lemma no_slash_part_name (j : N) : Py.contains (part_name j) "/" = false.
Proof.
  unfold part_name, Py.format_04d, Py.format_d, NilZero.string_of_uint.
  apply no_slash_app; [done|]. apply no_slash_app; [apply no_slash_zeros|].
  destruct (N.to_uint j); first [done|apply no_slash_digits].
Qed.

Lemma valid_name_long (s : string) :
  (3 ≤ String.length s)%nat → Py.contains s "/" = false → valid_name s = true.
Proof.
  intros Hlen Hs. unfold valid_name. rewrite Hs.
  assert (Hne : ∀ t, (String.length t < 3)%nat → String.eqb s t = false).
  { intros t Ht. apply String.eqb_neq. intros ->. lia. }
  by rewrite !Hne by (simpl; lia).
Qed.

Lemma valid_name_parts (n : string) :
  valid_name n = true → valid_name (n +:+ ".parts") = true.
Proof.
  intros Hn. apply valid_name_long.
  - rewrite string_length_app. simpl. lia.
  - apply no_slash_app; [by apply valid_name_no_slash|done].
Qed.

Lemma valid_name_part_name (j : N) : valid_name (part_name j) = true.
Proof.
  apply valid_name_long; [|apply no_slash_part_name].
  unfold part_name. rewrite string_length_app. simpl. lia.
Qed.

Lemma endswith_parts_other (n : string) : Py.endswith (n +:+ ".parts") "file:" = false.
Proof.
  induction n as [|a n IH]; [done|].
  rewrite string_app_cons, endswith_unfold, IH.
  replace (String.eqb (String a (n +:+ ".parts")) "file:") with false; [done|].
  symmetry. apply String.eqb_neq. intros H%(f_equal String.length).
  simpl in H. rewrite string_length_app in H. simpl in H. lia.
Qed.

Lemma startswith_no_match (u v x S : string) :
  Py.contains u "/" = false → Py.contains x "/" = false → (x = u → S = "") →
  (S = "" ∨ Py.startswith S "/" = true) →
  Py.startswith (x +:+ S) (u +:+ "/" +:+ v) = false.
Proof.
  revert x. induction u as [|b u IH]; intros x Hu Hx Heq HS.
  - rewrite string_app_nil_l. destruct x as [|a x].
    + by rewrite (Heq eq_refl).
    + apply contains_slash_cons in Hx as [Ha _].
      rewrite !string_app_cons, startswith_unfold, string_app_nil_l, Ascii.eqb_sym.
      by rewrite Ha.
  - apply contains_slash_cons in Hu as [Hb Hu]. rewrite string_app_cons.
    destruct x as [|a x].
    + rewrite string_app_nil_l. destruct HS as [->|HS]; [done|].
      destruct S as [|c S]; [done|]. rewrite startswith_unfold in HS.
      rewrite startswith_unfold. destruct (Ascii.eqb_spec "/" c) as [<-|]; [|done].
      by rewrite Hb.
    + apply contains_slash_cons in Hx as [Ha Hx]. rewrite string_app_cons, startswith_unfold.
      destruct (Ascii.eqb_spec b a) as [->|]; [|done].
      apply IH; [done..| |done]. intros ->. by apply Heq.
Qed.

Lemma contains_no_match (u v x S : string) :
  Py.contains u "/" = false → Py.contains x "/" = false →
  Py.endswith x u = false ∨ S = "" →
  (S = "" ∨ Py.startswith S "/" = true) →
  Py.contains S (u +:+ "/" +:+ v) = false →
  Py.contains (x +:+ S) (u +:+ "/" +:+ v) = false.
Proof.
  intros Hu. induction x as [|a x IH]; intros Hx Hends HS Hrest.
  - by rewrite string_app_nil_l.
  - rewrite contains_unfold, startswith_no_match; [|done..| |done].
    + rewrite string_app_cons. apply contains_slash_cons in Hx as [_ Hx].
      apply IH; [done| |done..]. destruct Hends as [Hends|]; [left|by right].
      rewrite endswith_unfold in Hends. by destruct (String.eqb _ _).
    + intros Heq. destruct Hends as [Hends|]; [|done].
      rewrite endswith_unfold, Heq, string_eqb_refl in Hends. done.
Qed.

(** The pattern [u/v] does not occur in a path none of whose directories
    has a name ending in [u]. *)
Lemma segments_no_match (u v : string) (rel : list string) :
  u ≠ "" → Py.contains u "/" = false →
  Forall (λ n, valid_name n = true) rel →
  Forall (λ n, Py.endswith n u = false) (removelast rel) →
  Py.contains (segments rel) (u +:+ "/" +:+ v) = false.
Proof.
  intros Hne Hu. induction rel as [|x rel IH]; intros Hvalid Hdirs.
  - simpl. destruct u; [done|]. by rewrite string_app_cons.
  - cbn [segments]. rewrite string_app_cons, string_app_nil_l, contains_unfold.
    replace (Py.startswith (String "/" (x +:+ segments rel)) (u +:+ "/" +:+ v)) with false.
    + apply Forall_cons in Hvalid as [Hx Hvalid].
      apply contains_no_match; [done|by apply valid_name_no_slash|..].
      * destruct rel as [|y rel]; [by right|left]. by inversion Hdirs.
      * destruct rel as [|y rel]; [by left|right]. by apply segments_startswith.
      * apply IH; [done|]. destruct rel as [|y rel]; [done|]. by inversion Hdirs.
    + symmetry. destruct u as [|b u]; [done|].
      apply contains_slash_cons in Hu as [Hb _].
      by rewrite string_app_cons, startswith_unfold, Hb.
Qed.
(** ** Strings without special characters *)

Lemma all_chars_cons (p : ascii → bool) (a : ascii) (s : string) :
  Py.all_chars p (String a s) = p a && Py.all_chars p s.
Proof. reflexivity. Qed.

Lemma all_chars_app (p : ascii → bool) (s t : string) :
  Py.all_chars p (s +:+ t) = Py.all_chars p s && Py.all_chars p t.
Proof.
  induction s as [|a s IH]; [done|].
  by rewrite string_app_cons, !all_chars_cons, IH, andb_assoc.
Qed.

Lemma all_chars_impl (p q : ascii → bool) (s : string) :
  (∀ a, p a = true → q a = true) → Py.all_chars p s = true → Py.all_chars q s = true.
Proof.
  intros Hpq. induction s as [|a s IH]; [done|].
  rewrite !all_chars_cons, !andb_true_iff. intros [Ha Hs]. auto.
Qed.

Lemma all_chars_segments (p : ascii → bool) (l : Path) :
  p "/"%char = true → Forall (λ n, Py.all_chars p n = true) l →
  Py.all_chars p (segments l) = true.
Proof.
  intros Hslash. induction 1 as [|n l Hn Hl IH]; [done|].
  cbn [segments]. rewrite string_app_cons, string_app_nil_l, all_chars_cons, all_chars_app.
  by rewrite Hslash, Hn, IH.
Qed.

Lemma remove_where_id (p : ascii → bool) (s : string) :
  Py.all_chars (λ a, negb (p a)) s = true → Py.remove_where p s = s.
Proof.
  induction s as [|a s IH]; [done|].
  rewrite all_chars_cons, andb_true_iff, negb_true_iff. intros [Ha Hs].
  cbn [Py.remove_where]. by rewrite Ha, IH.
Qed.

Lemma partition_none (c : ascii) (s : string) :
  Py.all_chars (λ a, negb (Ascii.eqb a c)) s = true → Py.partition c s = None.
Proof.
  induction s as [|a s IH]; [done|].
  rewrite all_chars_cons, andb_true_iff, negb_true_iff. intros [Ha Hs].
  cbn [Py.partition]. by rewrite Ha, IH.
Qed.

(** What the characters of a plain directory string are not. *)
Lemma path_char_plain (a : ascii) :
  path_char a = true →
  Url.unsafe_byte a = false
  ∧ Ascii.eqb a ":" = false ∧ Ascii.eqb a "#" = false ∧ Ascii.eqb a "?" = false
  ∧ bool_decide (a ∈ glob_meta) = false ∧ bool_decide (a ∈ regex_meta) = false.
Proof.
  destruct a as [[] [] [] [] [] [] [] []]; vm_compute; intros H;
    first [discriminate H|repeat split].
Qed.

Lemma dir_char_portable (a : ascii) : dir_char a = true → portable_char a = true.
Proof.
  unfold dir_char, portable_char. rewrite !orb_true_iff. tauto.
Qed.

Lemma dir_char_no_slash (a : ascii) : dir_char a = true → Ascii.eqb "/" a = false.
Proof.
  destruct a as [[] [] [] [] [] [] [] []]; vm_compute; intros H;
    first [discriminate H|reflexivity].
Qed.

(** [urlsplit] leaves an absolute path of plain characters as it is. *)
Lemma urlsplit_plain (s : string) :
  Py.all_chars path_char s = true →
  Py.startswith s "/" = true → Py.startswith s "//" = false →
  Url.urlsplit s = inr {| Url.scheme := ""; Url.netloc := ""; Url.path := s |}.
Proof.
  intros Hall H1 H2. unfold Url.urlsplit.
  assert (Hstrip : Py.lstrip_where Url.c0_control_or_space s = s).
  { destruct s as [|a s]; [done|]. rewrite startswith_unfold in H1.
    destruct (Ascii.eqb_spec "/" a) as [<-|]; [done|discriminate]. }
  rewrite Hstrip, remove_where_id
    by (eapply all_chars_impl; [|exact Hall]; intros a Ha;
        by rewrite (proj1 (path_char_plain a Ha))).
  assert (Hnone : ∀ c, (∀ a, path_char a = true → Ascii.eqb a c = false) →
            Py.partition c s = None).
  { intros c Hc. apply partition_none. eapply all_chars_impl; [|exact Hall].
    intros a Ha. by rewrite (Hc a Ha). }
  rewrite (Hnone ":"%char) by (intros a Ha; apply (path_char_plain a Ha)).
  rewrite H2. cbn [Py.contains Py.startswith xorb orb Py.all_chars negb forallb
                   String.list_ascii_of_string].
  unfold Url.before.
  rewrite (Hnone "#"%char) by (intros a Ha; apply (path_char_plain a Ha)).
  by rewrite (Hnone "?"%char) by (intros a Ha; apply (path_char_plain a Ha)).
Qed.

Lemma tmp_url_plain (s : string) :
  Py.all_chars path_char s = true →
  Py.startswith s "/" = true → Py.startswith s "//" = false →
  tmp_url_of s = inr ("file://" +:+ s).
Proof. intros Hall H1 H2. unfold tmp_url_of. by rewrite urlsplit_plain. Qed.

(** The engine takes the URL [file://<path>] of such a path for the local
    directory of that path. *)
Lemma local_directory_plain (s : string) :
  Py.all_chars path_char s = true → Py.startswith s "/" = true →
  local_directory ("file://" +:+ s) = Some (resolve s).
Proof.
  intros Hall H1. unfold local_directory, Hadoop.parse.
  destruct s as [|a s]; [done|]. rewrite startswith_unfold in H1.
  destruct (Ascii.eqb_spec "/" a) as [<-|]; [|discriminate].
  assert (Hglob : glob_free ("file://" +:+ String "/" s) = true).
  { unfold glob_free. rewrite all_chars_app. apply andb_true_iff. split; [done|].
    eapply all_chars_impl; [|exact Hall]. intros a Ha.
    by rewrite (proj1 (proj2 (proj2 (proj2 (proj2 (path_char_plain a Ha)))))). }
  rewrite Hglob. cbn [String.append Py.partition Ascii.eqb Bool.eqb].
  cbn [Py.contains Py.startswith Ascii.eqb Bool.eqb String.length Nat.ltb Nat.leb
       andb Py.skip Py.partition String.eqb String.append].
  by destruct s.
Qed.

(** The path string of a directory with plain names. *)
Lemma plain_dir_name_spec (n : string) :
  plain_dir_name n = true →
  valid_name n = true ∧ plain_name n = true ∧ Py.all_chars path_char n = true
  ∧ ∃ a n', n = String a n' ∧ Ascii.eqb "/" a = false.
Proof.
  unfold plain_dir_name. rewrite andb_true_iff. intros [Hplain Hd].
  assert (Hv : valid_name n = true).
  { unfold plain_name in Hplain. rewrite !andb_true_iff in Hplain. tauto. }
  split_and!; [done..| |].
  - eapply all_chars_impl; [|exact Hd]. intros a Ha. unfold path_char. by rewrite Ha.
  - destruct n as [|a n']; [done|]. exists a, n'. split; [done|].
    rewrite all_chars_cons in Hd. apply andb_true_iff in Hd as [Ha _].
    by apply dir_char_no_slash.
Qed.

Lemma plain_dir_valid (src : Path) :
  Forall (λ n, plain_dir_name n = true) src → Forall (λ n, valid_name n = true) src.
Proof. intros H. eapply Forall_impl; [exact H|]. intros n Hn. by apply plain_dir_name_spec. Qed.

Lemma plain_dir_render (src : Path) :
  src ≠ [] → Forall (λ n, plain_dir_name n = true) src →
  Py.all_chars path_char (render src) = true
  ∧ Py.startswith (render src) "/" = true ∧ Py.startswith (render src) "//" = false.
Proof.
  intros Hne Hsrc. split_and!.
  - destruct src as [|n src]; [done|]. apply (all_chars_segments path_char (n :: src)); [done|].
    eapply Forall_impl; [exact Hsrc|]. intros x Hx. by apply plain_dir_name_spec.
  - destruct src as [|n src]; [done|]. by apply (segments_startswith (n :: src)).
  - destruct src as [|n src]; [done|]. apply Forall_cons in Hsrc as [Hn _].
    apply plain_dir_name_spec in Hn as (_ & _ & _ & a & n' & -> & Ha).
    unfold render. cbn [segments]. rewrite !string_app_cons, string_app_nil_l.
    rewrite startswith_unfold, Ascii.eqb_refl, startswith_unfold. by rewrite Ha.
Qed.

(** What line 58 and the engine make of the path string of a directory
    with plain names: the directory itself. *)
Lemma plain_dir_url (src : Path) :
  src ≠ [] → Forall (λ n, plain_dir_name n = true) src →
  tmp_url_of (render src) = inr ("file://" +:+ render src)
  ∧ local_directory ("file://" +:+ render src) = Some src
  ∧ resolve (render src) = src.
Proof.
  intros Hne Hsrc. destruct (plain_dir_render src Hne Hsrc) as (Hall & H1 & H2).
  assert (Hres : resolve (render src) = src) by (by apply resolve_render, plain_dir_valid).
  split_and!; [by apply tmp_url_plain| |done].
  by rewrite local_directory_plain, Hres.
Qed.

(** Such a string is a literal for the engine as a glob and as a regular
    expression. *)
Lemma plain_dir_literal (src : Path) :
  src ≠ [] → Forall (λ n, plain_dir_name n = true) src →
  regex_plain (render src) = true ∧ glob_free (render src) = true.
Proof.
  intros Hne Hsrc. destruct (plain_dir_render src Hne Hsrc) as (Hall & _).
  split; (eapply all_chars_impl; [|exact Hall]); intros a Ha;
    destruct (path_char_plain a Ha) as (_ & _ & _ & _ & Hg & Hr); by rewrite ?Hg, ?Hr.
Qed.

(** ** Names that the engine's file listing keeps *)

Lemma plain_name_spec (n : string) :
  plain_name n = true →
  valid_name n = true ∧ shouldFilterOutPathName n = false ∧ isDataPath n = true.
Proof.
  unfold plain_name, shouldFilterOutPathName, isDataPath.
  rewrite !andb_true_iff, !negb_true_iff. intros [[[[Hv _] H1] H2] H3].
  by rewrite Hv, H1, H2, H3.
Qed.

Lemma plain_name_valid (n : string) : plain_name n = true → valid_name n = true.
Proof. intros H. by apply plain_name_spec. Qed.

Lemma list_ascii_app (s t : string) :
  String.list_ascii_of_string (s +:+ t)
  = String.list_ascii_of_string s ++ String.list_ascii_of_string t.
Proof. induction s as [|a s IH]; [done|]. rewrite string_app_cons. simpl. by rewrite IH. Qed.

Lemma endswith_last (s suf : string) :
  Py.endswith s suf = true → suf ≠ "" →
  last (String.list_ascii_of_string s) = last (String.list_ascii_of_string suf).
Proof.
  intros Hends Hsuf. induction s as [|a s IH].
  - rewrite endswith_unfold in Hends. destruct suf; [done|discriminate].
  - rewrite endswith_unfold in Hends.
    destruct (String.eqb_spec (String a s) suf) as [Heq|_]; [by rewrite Heq|].
    rewrite <- (IH Hends). destruct s as [|b s]; [|done].
    rewrite endswith_unfold in Hends. destruct suf; [done|discriminate].
Qed.

Lemma endswith_chars (p : ascii → bool) (s suf : string) :
  Py.all_chars p s = true → Py.endswith s suf = true → Py.all_chars p suf = true.
Proof.
  induction s as [|a s IH]; intros Hall Hends; rewrite endswith_unfold in Hends.
  - destruct (String.eqb_spec "" suf) as [Heq|_]; [by rewrite <- Heq|done].
  - destruct (String.eqb_spec (String a s) suf) as [Heq|_]; [by rewrite <- Heq|].
    rewrite all_chars_cons in Hall. apply andb_true_iff in Hall as [_ Hall]. by apply IH.
Qed.

(** The chunk group of a file with a plain name, and the chunk files in it,
    have plain names; the sentinel does not pass the listing. *)
Lemma plain_name_parts (n : string) : plain_name n = true → plain_name (n +:+ ".parts") = true.
Proof.
  unfold plain_name. rewrite !andb_true_iff, !negb_true_iff.
  intros [[[[Hv Hp] H1] H2] _]. split_and!.
  - by apply valid_name_parts.
  - by rewrite all_chars_app, Hp.
  - destruct n as [|a n]; [done|]. rewrite startswith_unfold in H1.
    rewrite string_app_cons, startswith_unfold.
    destruct (Ascii.eqb "_" a); [by destruct n|done].
  - destruct n as [|a n]; [done|]. rewrite startswith_unfold in H2.
    rewrite string_app_cons, startswith_unfold.
    destruct (Ascii.eqb "." a); [by destruct n|done].
  - destruct (Py.endswith (n +:+ ".parts") "._COPYING_") eqn:Hends; [|done].
    apply endswith_last in Hends; [|done].
    change ".parts" with (".part" +:+ "s") in Hends.
    rewrite <- string_app_assoc, list_ascii_app in Hends.
    change (String.list_ascii_of_string "s") with ["s"%char] in Hends.
    rewrite last_snoc in Hends. vm_compute in Hends. discriminate.
Qed.

Lemma digit_chars (d : Decimal.uint) :
  Py.all_chars Py.isdigit (NilEmpty.string_of_uint d) = true.
Proof. induction d; cbn [NilEmpty.string_of_uint]; [done|by rewrite all_chars_cons..]. Qed.

Lemma digit_chars_04d (j : N) : Py.all_chars Py.isdigit (Py.format_04d j) = true.
Proof.
  unfold Py.format_04d, Py.format_d, NilZero.string_of_uint.
  rewrite all_chars_app. apply andb_true_iff. split.
  - induction (4 - _)%nat as [|k IH]; [done|]. cbn [Py.zeros]. by rewrite all_chars_cons.
  - destruct (N.to_uint j); first [done|apply digit_chars].
Qed.

Lemma plain_part_name (j : N) : plain_name (part_name j) = true.
Proof.
  unfold plain_name. rewrite valid_name_part_name.
  assert (Hdigits : ∀ p, (∀ a, Py.isdigit a = true → p a = true) →
            Py.all_chars p "part-" = true → Py.all_chars p (part_name j) = true).
  { intros p Hp H5. unfold part_name. rewrite all_chars_app, H5.
    by apply (all_chars_impl Py.isdigit), digit_chars_04d. }
  rewrite Hdigits; [|intros a Ha; unfold portable_char; by rewrite Ha, orb_true_r|done].
  assert (H1 : Py.startswith (part_name j) "_" = false) by done.
  assert (H2 : Py.startswith (part_name j) "." = false) by done.
  rewrite H1, H2.
  destruct (Py.endswith (part_name j) "._COPYING_") eqn:Hends; [|done].
  apply (endswith_chars (λ a, negb (Ascii.eqb a "."))) in Hends; [done|].
  apply Hdigits; [|done].
  intros a. destruct a as [[] [] [] [] [] [] [] []]; vm_compute; intros H;
    first [discriminate H|reflexivity].
Qed.

Lemma sentinel_not_listed : shouldFilterOutPathName "_PARTS" = true.
Proof. reflexivity. Qed.

(** A file below [d] on a way of plain names is one that the engine's file
    listing of [d] shows. *)
Lemma plain_listed (d q : Path) :
  strictly_below d q → Forall (λ n, plain_name n = true) (drop (length d) q) →
  listed d q = true ∧ isDataPath (name q) = true.
Proof.
  intros (rel & Hne & ->)%strictly_below_inv. rewrite drop_app_length. intros Hrel.
  split.
  - unfold listed. rewrite bool_decide_false.
    + rewrite drop_app_length. apply forallb_forall. intros n Hn%list_elem_of_In.
      rewrite (Forall_forall _ _) in Hrel. specialize (Hrel n Hn).
      apply plain_name_spec in Hrel as (_ & -> & _). done.
    + intros Heq. rewrite <- (app_nil_r d) in Heq at 2. by apply (inj (app d)) in Heq.
  - destruct rel as [|x rel _] using rev_ind; [done|].
    rewrite (assoc_L (++)), name_snoc. apply Forall_app in Hrel as [_ Hx].
    apply (proj1 (Forall_singleton _ _)) in Hx. by apply plain_name_spec.
Qed.

(** ** Archive orchestrator: packing *)

Lemma bind_inv {S A B : Type} (c : ST S A) (k : A → ST S B) (s s' : S) (b : B) :
  bind c k s = (Return b, s') → ∃ a s1, c s = (Return a, s1) ∧ k a s1 = (Return b, s').
Proof. unfold bind. destruct (c s) as [[a|e|] s1]; [eauto|done..]. Qed.

Lemma of_sum_inv {S A : Type} (r : exn + A) (s s' : S) (a : A) :
  of_sum r s = (Return a, s') → r = inr a ∧ s' = s.
Proof. destruct r as [e|a']; [done|]. by intros [= -> ->]. Qed.

Lemma read_binaryFile_inv (o : schedule) (url : string) (m m' : fs)
    (loaded : list BinaryFile.row) :
  read_binaryFile o url m = (Return loaded, m') →
  m' = m
  ∧ ∃ d, local_directory url = Some d ∧ is_Some (node_at m d)
    ∧ ∀ r, r ∈ loaded ↔
        ∃ q c, d `prefix_of` q ∧ node_at m q = Some (File c)
               ∧ listed d q = true ∧ isDataPath (name q) = true ∧ c ≠ []
               ∧ r = binary_row q c.
Proof.
  unfold read_binaryFile. destruct (local_directory url) as [d|]; [|done].
  destruct (node_at m d) as [nd|] eqn:Hd; [|done]. intros [= <- <-].
  split; [done|]. exists d. split_and!; [done..|]. intros r.
  rewrite list_elem_of_omap. split.
  - intros (q & Hq & Hr). rewrite fs_order_perm, list_elem_of_filter in Hq.
    destruct Hq as [Hq _]. exists q.
    destruct (node_at m q) as [[c|]|] eqn:Hm; [|done..].
    destruct (listed d q) eqn:Hl; [|done]. destruct (isDataPath (name q)) eqn:Hn; [|done].
    destruct c as [|b c]; [done|]. simpl in Hr. simplify_eq. by exists (b :: c).
  - intros (q & c & Hq & Hm & Hl & Hn & Hc & ->). exists q. split.
    + rewrite fs_order_perm, list_elem_of_filter, elem_of_entries. split; [done|].
      destruct q; [done|]. by rewrite <- node_at_nonroot, Hm.
    + rewrite Hm, Hl, Hn. by destruct c.
Qed.

Section pack.
Context (self : SinaraArchive) (o : schedule) (env : setting).

(** What a successful [pack_files_from_tmp_to_spark_df] went through. *)
Lemma pack_df_inv (tmp_entity_dir : string) (m m' : fs) (df : dataframe) :
  pack_files_from_tmp_to_spark_df self o env tmp_entity_dir m = (Return df, m') →
  ∃ tmp_url found total_size cores loaded,
    tmp_url_of tmp_entity_dir = inr tmp_url
    ∧ glob_rec o (resolve tmp_entity_dir) m = (Return found, m)
    ∧ for_acc (filter (λ x, Is_true (in_pathlist x)) found) 0 (scan self) m
      = (Return total_size, m')
    ∧ server_cores env = inr cores
    ∧ plan_partitions total_size (BLOCK_SIZE self) cores = inr (numPartitions df)
    ∧ 0 < numPartitions df < 2 ^ 31
    ∧ read_binaryFile o tmp_url m' = (Return loaded, m')
    ∧ rows df ≡ₚ with_relPath ("file:" +:+ tmp_entity_dir)
                   <$> filter (λ r, BinaryFile.length r ≤ ROW_SIZE self) loaded.
Proof.
  unfold pack_files_from_tmp_to_spark_df.
  intros (tmp_url & m00 & [Hurl ->]%of_sum_inv & H)%bind_inv.
  apply bind_inv in H as (found & m0 & Hglob & H).
  assert (m0 = m) as -> by (unfold glob_rec in Hglob; by simplify_eq).
  apply bind_inv in H as (total & m1 & Hscan & H).
  apply bind_inv in H as (cores & m1' & [Hcores ->]%of_sum_inv & H).
  apply bind_inv in H as (partitions & m2 & Hplan & H).
  apply bind_inv in H as (loaded & m3 & Hload & H).
  destruct (plan_partitions _ _ _) as [e|n] eqn:Hp; [done|].
  unfold ret in Hplan. simplify_eq.
  pose proof (read_binaryFile_inv _ _ _ _ _ Hload) as (-> & _).
  unfold repartition in H.
  destruct ((- 2 ^ 31 <=? partitions) && (partitions <? 2 ^ 31)) eqn:Hint; [|done].
  destruct (0 <? partitions) eqn:Hpos; [|done].
  unfold ret in H. simplify_eq. simpl.
  exists tmp_url, found, total, cores, loaded. split_and!; try done.
  - by apply Z.ltb_lt.
  - apply andb_true_iff in Hint as [_ Hint]. by apply Z.ltb_lt.
  - apply row_order_perm.
Qed.
End pack.

Lemma on_files_inv {A : Type} (c : F A) (w w' : world) (a : A) :
  on_files c w = (Return a, w') →
  c (files w) = (Return a, files w') ∧ store w' = store w.
Proof.
  unfold on_files. destruct (c (files w)) as [r m'] eqn:Hc. by intros [= -> <-].
Qed.

Section pack_rows.
Context (self : SinaraArchive) (o : schedule) (env : setting).

(** The rows of a successful pack: their lengths. *)
Lemma pack_df_lengths (tmp_entity_dir : string) (m m' : fs) (df : dataframe) :
  pack_files_from_tmp_to_spark_df self o env tmp_entity_dir m = (Return df, m') →
  ∀ r, r ∈ rows df →
    Archive.length r ≤ ROW_SIZE self
    ∧ Archive.length r = Z.of_nat (length (Archive.content r)).
Proof.
  intros (url & found & total & cores & loaded & _ & _ & _ & _ & _ & _ & Hload & Hrows)%pack_df_inv r.
  apply read_binaryFile_inv in Hload as (_ & d & _ & _ & Hloaded).
  rewrite Hrows, list_elem_of_fmap.
  intros (b & -> & Hb). apply list_elem_of_filter in Hb as [Hlen Hb].
  apply Hloaded in Hb as (q & c & _ & _ & _ & _ & _ & ->). done.
Qed.

(** The rows of a successful pack of a directory with plain names: one for
    every non-empty file that the engine's listing shows at or below the
    directory and that, after the chunking pass, has at most [ROW_SIZE]
    bytes. *)
Lemma pack_df_rows (src : Path) (m m' : fs) (df : dataframe) :
  src ≠ [] → Forall (λ n, plain_dir_name n = true) src →
  pack_files_from_tmp_to_spark_df self o env (render src) m = (Return df, m') →
  ∀ r, r ∈ rows df ↔
    ∃ q c, src `prefix_of` q ∧ m' !! q = Some (File c)
           ∧ Z.of_nat (length c) ≤ ROW_SIZE self
           ∧ listed src q = true ∧ isDataPath (name q) = true ∧ c ≠ []
           ∧ r = archive_row (render src) q c.
Proof.
  intros Hne Hsrc
    (url & found & total & cores & loaded & Hurl & _ & _ & _ & _ & _ & Hload & Hrows)%pack_df_inv r.
  destruct (plain_dir_url src Hne Hsrc) as (Hurl' & Hlocal & _).
  rewrite Hurl' in Hurl. simplify_eq.
  apply read_binaryFile_inv in Hload as (_ & d & Hd & _ & Hloaded).
  rewrite Hlocal in Hd. simplify_eq.
  assert (Hnode : ∀ q c, d `prefix_of` q → node_at m' q = Some (File c) ↔ m' !! q = Some (File c)).
  { intros q c [k ->]. rewrite node_at_nonroot; [done|]. by destruct d. }
  rewrite Hrows, list_elem_of_fmap. split.
  - intros (b & -> & Hb). apply list_elem_of_filter in Hb as [Hlen Hb].
    apply Hloaded in Hb as (q & c & Hq & Hm & Hl & Hn & Hc & ->). exists q, c.
    split_and!; [done|by apply Hnode|done..].
  - intros (q & c & Hq & Hm & Hlen & Hl & Hn & Hc & ->). exists (binary_row q c).
    split; [done|]. apply list_elem_of_filter. split; [done|]. apply Hloaded.
    exists q, c. split_and!; [done|by apply Hnode|done..].
Qed.

Lemma pack_inv (tmp_entity_dir store_path : string) (w w' : world) :
  pack self o env tmp_entity_dir store_path w = (Return (), w') →
  ∃ df, pack_files_from_tmp_to_spark_df self o env tmp_entity_dir (files w)
        = (Return df, files w')
        ∧ store w' = <[store_path := rows df]> (store w).
Proof.
  unfold pack, pack_files_from_tmp_to_store.
  intros (df & w1 & [Hdf Hst]%on_files_inv & Hw)%bind_inv.
  unfold write_parquet in Hw. destruct (forallb _ _); [|done].
  simplify_eq. simpl. exists df. by rewrite Hst.
Qed.
End pack_rows.

(** X1: every row that a successful pack writes to the store has a length of
    at most the row-size threshold, the length being that of its content.
    When the directory is given by the path string of a list of plain names
    without dots, every row carries the bytes of a file at or below the
    directory; and every non-empty file below the directory that lies on a
    way of plain names and has at most [ROW_SIZE] bytes once the chunking
    pass is over has a row with its bytes.  Files above the threshold, the
    split originals among them, have no row. *)
Theorem pack_rows_within_threshold (self : SinaraArchive) (o : schedule) (env : setting)
    (tmp_entity_dir store_path : string) (w w' : world) :
  pack self o env tmp_entity_dir store_path w = (Return (), w') →
  ∃ written,
    store w' !! store_path = Some written
    ∧ (∀ r, r ∈ written →
         Archive.length r ≤ ROW_SIZE self
         ∧ Archive.length r = Z.of_nat (length (Archive.content r)))
    ∧ ∀ source,
        tmp_entity_dir = render source → source ≠ [] →
        Forall (λ n, plain_dir_name n = true) source →
        (∀ r, r ∈ written →
           ∃ q, source `prefix_of` q
                ∧ files w' !! q = Some (File (Archive.content r)))
        ∧ (∀ q c, strictly_below source q → files w' !! q = Some (File c) →
             c ≠ [] → Z.of_nat (length c) ≤ ROW_SIZE self →
             Forall (λ n, plain_name n = true) (drop (length source) q) →
             ∃ r, r ∈ written ∧ Archive.content r = c).
Proof.
  intros (df & Hdf & Hst)%pack_inv. exists (rows df). split_and!.
  - by rewrite Hst, lookup_insert_eq.
  - by apply (pack_df_lengths self o env _ _ _ _ Hdf).
  - intros source -> Hne Hsrc.
    pose proof (pack_df_rows self o env _ _ _ _ Hne Hsrc Hdf) as Hrows. split.
    + intros r (q & c & Hq & Hm & _ & _ & _ & _ & ->)%Hrows. by exists q.
    + intros q c Hq Hm Hc Hlen Hplain.
      exists (archive_row (render source) q c). split; [|done].
      destruct (plain_listed source q Hq Hplain) as [Hl Hn].
      apply Hrows. exists q, c. split_and!; [by destruct Hq|done..].
Qed.

Lemma run_eq {S A : Type} (c : ST S A) (s : S) (a : A) :
  (c s).1 = Return a → c s = (Return a, (c s).2).
Proof. destruct (c s) as [r s']. simpl. by intros ->. Defined.

Lemma pack_rows_within_threshold_witness :
  ∃ written,
    store (pack example_archive in_order Unset (render ["src"]) "store/e1" example_world).2
      !! "store/e1" = Some written
    ∧ (∀ r, r ∈ written → Archive.length r ≤ 3)
    ∧ ∃ r, r ∈ written ∧ Archive.content r = ["h"; "i"]%byte.
Proof.
  destruct (pack_rows_within_threshold example_archive in_order Unset (render ["src"])
              "store/e1" example_world
              (pack example_archive in_order Unset (render ["src"]) "store/e1"
                 example_world).2)
    as (written & Hst & Hlen & Hfiles).
  - apply run_eq. vm_compute. reflexivity.
  - exists written. split; [exact Hst|]. split.
    + intros r Hr. exact (proj1 (Hlen r Hr)).
    + destruct (Hfiles ["src"] eq_refl ltac:(discriminate) ltac:(by repeat constructor))
        as [_ Hrow].
      apply (Hrow ["src"; "a.txt"] ["h"; "i"]%byte).
      * split; [by exists ["a.txt"]|discriminate].
      * vm_compute. reflexivity.
      * discriminate.
      * simpl. lia.
      * by repeat constructor.
Defined.

Lemma frames_pure {A : Type} (R : relation fs) `{!PreOrder R} (c : F A) :
  (∀ m, (c m).2 = m) → frames R c.
Proof. intros Hc m. by rewrite Hc. Qed.

Lemma frames_of_sum {A : Type} (R : relation fs) `{!PreOrder R} (r : exn + A) :
  frames R (of_sum r).
Proof. destruct r; [by apply frames_raise|by apply frames_ret]. Qed.

Lemma segments_snoc (d : Path) (n : string) : segments (d ++ [n]) = segments d +:+ "/" +:+ n.
Proof.
  induction d as [|x d IH]; simpl.
  - by rewrite string_app_nil_r.
  - by rewrite IH, !string_app_assoc.
Qed.

Lemma render_snoc (d : Path) (n : string) : render (d ++ [n]) = segments d +:+ "/" +:+ n.
Proof. rewrite <- segments_snoc. unfold render. by destruct d. Qed.

Lemma render_parts_endswith (d : Path) (n : string) :
  Py.endswith (render (d ++ [n +:+ ".parts"])) ".parts" = true.
Proof.
  rewrite render_snoc, <- !string_app_assoc. apply endswith_app.
Qed.

(** The walk of line 60 leaves out the chunk groups and what is directly in
    them. *)
Lemma in_pathlist_not_parts (p x : Path) :
  in_pathlist p = true → p ≠ parts_path_of x ∧ ∀ y, p ≠ parts_path_of x ++ [y].
Proof.
  unfold in_pathlist. rewrite andb_true_iff, !negb_true_iff. intros [Hn Hp]. split.
  - intros ->. unfold parts_path_of in Hn. by rewrite name_snoc, endswith_app in Hn.
  - intros y ->. rewrite parent_snoc in Hp. unfold parts_path_of in Hp.
    by rewrite render_parts_endswith in Hp.
Qed.

Section scan.
Context (self : SinaraArchive) (o : schedule) (env : setting).

Lemma frames_scan (R : relation fs) `{!PreOrder R} (total_size : Z) (x : Path) :
  frames R (_split_file x (ROW_SIZE self)) → frames R (scan self total_size x).
Proof.
  intros Hsplit m. unfold scan, bind at 1, get.
  destruct (is_file m x); [|reflexivity].
  destruct (ROW_SIZE self <? st_size m x); [|reflexivity].
  apply (frames_bind R (_split_file x (ROW_SIZE self))); [done|].
  intros _. by apply frames_ret.
Qed.

Lemma frames_pack_df (R : relation fs) `{!PreOrder R} (tmp_entity_dir : string) :
  (∀ x, in_pathlist x = true → frames R (_split_file x (ROW_SIZE self))) →
  frames R (pack_files_from_tmp_to_spark_df self o env tmp_entity_dir).
Proof.
  intros Hsplit. unfold pack_files_from_tmp_to_spark_df.
  apply frames_bind; [done|by apply frames_of_sum|intros tmp_url].
  apply frames_bind; [done|by apply frames_pure|intros found].
  apply frames_bind; [done| |intros total].
  { apply frames_for_acc; [done|]. intros b x [Hx _]%list_elem_of_filter.
    apply frames_scan; [done|]. by apply Hsplit, Is_true_true. }
  apply frames_bind; [done|by apply frames_of_sum|intros cores].
  apply frames_bind; [done| |intros partitions].
  { destruct (plan_partitions _ _ _); [by apply frames_raise|by apply frames_ret]. }
  apply frames_bind; [done| |intros loaded].
  { apply frames_pure; [done|]. intros m. unfold read_binaryFile.
    destruct (local_directory _); [|done]. by destruct (node_at _ _). }
  unfold repartition. destruct (_ && _); [|by apply frames_raise].
  destruct (0 <? partitions); [by apply frames_ret|by apply frames_raise].
Qed.

(** A file exactly at the threshold passes through the loop body unsplit. *)
Lemma scan_at_threshold (total_size : Z) (p : Path) (c : list byte) (m : fs) :
  p ≠ [] → m !! p = Some (File c) → Z.of_nat (length c) = ROW_SIZE self →
  scan self total_size p m = (Return (total_size + ROW_SIZE self), m).
Proof.
  intros Hp Hm Hlen. unfold scan, bind, get, is_file, st_size.
  rewrite node_at_nonroot, Hm, Hlen by done. by rewrite Z.ltb_irrefl.
Qed.
End scan.

Global Instance kept_preorder (p : Path) : PreOrder (λ m m' : fs, m' !! p = m !! p).
Proof. split; [done|]. intros m1 m2 m3 H1 H2. by rewrite H2. Qed.

(** X2: a file of the walk whose size is exactly [ROW_SIZE] is not split by
    the loop body, and it is still there unchanged after the chunking pass.
    When it is not empty and lies on a way of plain names below the
    directory, it has its row.  Every file that the pass wrote (a chunk or a
    sentinel) has at most [ROW_SIZE] bytes, the chunk size being
    [ROW_SIZE], and has its row under the same condition, which a chunk of
    a file on a way of plain names meets and a sentinel does not.  (The
    directory is given by the path string of a list of plain names without
    dots.) *)
Theorem row_size_boundary (self : SinaraArchive) (o : schedule) (env : setting)
    (source p : Path) (c : list byte) (m : fs) :
  source ≠ [] → Forall (λ n, plain_dir_name n = true) source →
  Z.of_nat (length c) = ROW_SIZE self →
  in_pathlist p = true → strictly_below source p →
  m !! p = Some (File c) →
  (∀ total_size, scan self total_size p m = (Return (total_size + ROW_SIZE self), m))
  ∧ ∀ df m',
      pack_files_from_tmp_to_spark_df self o env (render source) m = (Return df, m') →
      m' !! p = Some (File c)
      ∧ (c ≠ [] → Forall (λ n, plain_name n = true) (drop (length source) p) →
         archive_row (render source) p c ∈ rows df)
      ∧ ∀ q c', strictly_below source q →
          m' !! q = Some (File c') → m !! q ≠ Some (File c') →
          Z.of_nat (length c') ≤ ROW_SIZE self
          ∧ (c' ≠ [] → Forall (λ n, plain_name n = true) (drop (length source) q) →
             archive_row (render source) q c' ∈ rows df).
Proof.
  intros Hne Hsrc Hlen Hin Hbelow Hm.
  assert (Hp : p ≠ []) by (intros ->; by destruct Hbelow as [[k Hk] ?]; destruct source).
  split; [intros total; by apply (scan_at_threshold self total p c)|].
  intros df m' Hpack.
  pose proof (pack_df_rows self o env _ _ _ _ Hne Hsrc Hpack) as Hrows.
  assert (Hrow : ∀ q c', strictly_below source q → m' !! q = Some (File c') →
            Z.of_nat (length c') ≤ ROW_SIZE self → c' ≠ [] →
            Forall (λ n, plain_name n = true) (drop (length source) q) →
            archive_row (render source) q c' ∈ rows df).
  { intros q c' Hq Hq' Hsmall Hc' Hplain. apply Hrows. exists q, c'.
    destruct (plain_listed source q Hq Hplain) as [Hl Hn].
    split_and!; [by destruct Hq|done..]. }
  assert (Hkept : m' !! p = Some (File c)).
  { rewrite <- Hm.
    pose proof (frames_pack_df self o env (λ m m' : fs, m' !! p = m !! p) (render source))
      as Hf.
    specialize (Hf ltac:(intros x _ m0;
                           apply (split_file_changes_at x (ROW_SIZE self) m0);
                           by apply in_pathlist_not_parts) m).
    by rewrite Hpack in Hf. }
  split_and!; [done| |].
  - intros Hc Hplain. apply Hrow; [done..|lia|done|done].
  - intros q c' Hq Hq' Hnew.
    pose proof (frames_pack_df self o env (files_within (ROW_SIZE self)) (render source))
      as Hf.
    specialize (Hf ltac:(intros x _; apply split_file_within; lia) m).
    rewrite Hpack in Hf. destruct (Hf q c' Hq') as [|Hsmall]; [done|].
    split; [done|]. intros Hc' Hplain. by apply Hrow.
Qed.

Lemma row_size_boundary_witness :
  let self := {| BLOCK_SIZE := 10; ROW_SIZE := 2 |} in
  scan self 0 ["src"; "a.txt"] example_files = (Return 2, example_files)
  ∧ ∀ df m',
      pack_files_from_tmp_to_spark_df self in_order Unset (render ["src"]) example_files
      = (Return df, m') →
      archive_row (render ["src"]) ["src"; "a.txt"] ["h"; "i"]%byte ∈ rows df.
Proof.
  intros self.
  destruct (row_size_boundary self in_order Unset ["src"] ["src"; "a.txt"] ["h"; "i"]%byte
              example_files) as [H1 H2].
  - discriminate.
  - by repeat constructor.
  - reflexivity.
  - reflexivity.
  - split; [by exists ["a.txt"]|discriminate].
  - reflexivity.
  - split; [exact (H1 0)|].
    intros df m' H.
    exact (proj1 (proj2 (H2 df m' H)) ltac:(discriminate) ltac:(by repeat constructor)).
Defined.

(** Nothing is validated.  With the default settings the block size
    exceeds the row size and pack runs; and [_split_file] called with a
    chunk size above the row size writes its chunks. *)
Example no_threshold_validation :
  let defaults :=
    new_archive {| get_storage_block_size := None; get_storage_row_size := None |} in
  let split := _split_file ["src"; "d"; "big"] 5 example_files in
  ROW_SIZE defaults < BLOCK_SIZE defaults
  ∧ (pack defaults in_order Unset "/src" "store/e1" example_world).1 = Return ()
  ∧ ROW_SIZE example_archive < 5
  ∧ split.1 = Return ()
  ∧ split.2 !! ["src"; "d"; "big.parts"; "part-0000"]
    = Some (File ["0"; "1"; "2"; "3"; "4"]%byte).
Proof. vm_compute. split_and!; reflexivity. Qed.

(** X3: there is no chunk-size setting and no validation; pack
    always splits with the row size as the chunk size, so for a non-negative
    row size every file that pack writes, chunk or sentinel, has at most
    [ROW_SIZE] bytes, whatever the block size and whether pack returns or
    raises. *)
Theorem pack_chunks_within_row_size (self : SinaraArchive) (o : schedule) (env : setting)
    (tmp_entity_dir : string) (m : fs) :
  0 ≤ ROW_SIZE self →
  ∀ q c,
    (pack_files_from_tmp_to_spark_df self o env tmp_entity_dir m).2 !! q = Some (File c) →
    m !! q = Some (File c) ∨ Z.of_nat (length c) ≤ ROW_SIZE self.
Proof.
  intros Hrow.
  apply (frames_pack_df self o env (files_within (ROW_SIZE self)) tmp_entity_dir).
  intros x _. by apply split_file_within.
Qed.

Lemma pack_chunks_within_row_size_witness :
  example_files !! ["src"; "d"; "big.parts"; "part-0001"] = Some (File ["3"; "4"; "5"]%byte)
  ∨ Z.of_nat (length ["3"; "4"; "5"]%byte) ≤ 3.
Proof.
  apply (pack_chunks_within_row_size example_archive in_order Unset "/src" example_files).
  - simpl. lia.
  - vm_compute. reflexivity.
Defined.
(** ** Relative paths of the rows *)

(** The leading separator stays: the rows packed from [/src] carry the
    relative paths [/a.txt], [/d/big.parts/part-...]; the sentinel, which
    the engine's file listing hides, has no row. *)
Example relPath_keeps_separator :
  let w := (pack example_archive in_order Unset "/src" "store/e1" example_world).2 in
  Archive.relPath <$> default [] (store w !! "store/e1")
  = ["/a.txt"; "/d/big.parts/part-0002"; "/d/big.parts/part-0001";
     "/d/big.parts/part-0000"]
  ∧ files w !! ["src"; "d"; "big.parts"; "_PARTS"] = Some (File [])
  ∧ Py.startswith "/a.txt" "/" = true.
Proof. vm_compute. split_and!; reflexivity. Qed.

Lemma is_dir_lookup (m : fs) (p : Path) : p ≠ [] → is_dir m p = true → m !! p = Some Dir.
Proof.
  intros Hp. unfold is_dir. rewrite node_at_nonroot by done.
  by destruct (m !! p) as [[c|]|].
Qed.

(** A directory with plain names without dots is no chunk group and lies in
    none. *)
Lemma plain_dir_in_pathlist (src : Path) :
  src ≠ [] → Forall (λ n, plain_dir_name n = true) src → in_pathlist src = true.
Proof.
  intros Hne Hsrc. unfold in_pathlist. apply andb_true_iff. split; apply negb_true_iff.
  - rewrite (path_parent_name src Hne) in Hsrc. apply Forall_app in Hsrc as [_ Hn].
    apply (proj1 (Forall_singleton _ _)) in Hn.
    apply plain_dir_name_spec in Hn as (_ & _ & Hn & _).
    destruct (Py.endswith (name src) ".parts") eqn:Hends; [|done].
    by apply (endswith_chars _ _ _ Hn) in Hends.
  - destruct (decide (parent src = [])) as [->|Hp]; [done|].
    rewrite (path_parent_name src Hne) in Hsrc. apply Forall_app in Hsrc as [Hparent _].
    destruct (plain_dir_render _ Hp Hparent) as (Hall & _).
    destruct (Py.endswith (render (parent src)) ".parts") eqn:Hends; [|done].
    by apply (endswith_chars _ _ _ Hall) in Hends.
Qed.

(** X4: for a source directory given by the path string of a list of plain
    names without dots, every row of a successful pack belongs to a file
    below the directory, and its [relPath] is the file's path string with
    the text [file:<sourceDir>] taken out wherever it occurs; when the rest
    of the path does not repeat that text, [relPath] is exactly the rest of
    the path, which begins with a separator. *)
Theorem pack_relPath (self : SinaraArchive) (o : schedule) (env : setting)
    (source : Path) (m m' : fs) (df : dataframe) :
  source ≠ [] → Forall (λ n, plain_dir_name n = true) source →
  is_dir m source = true →
  pack_files_from_tmp_to_spark_df self o env (render source) m = (Return df, m') →
  ∀ r, r ∈ rows df →
    ∃ q c rest,
      strictly_below source q ∧ m' !! q = Some (File c)
      ∧ Archive.content r = c ∧ Archive.length r = Z.of_nat (length c)
      ∧ Archive.relPath r
        = Py.regexp_replace_empty ("file:" +:+ render q) ("file:" +:+ render source)
      ∧ render q = render source +:+ rest
      ∧ Py.startswith rest "/" = true
      ∧ (Py.contains rest ("file:" +:+ render source) = false → Archive.relPath r = rest).
Proof.
  intros Hsrc Hplain Hdir Hpack r Hr.
  apply (pack_df_rows self o env _ _ _ _ Hsrc Hplain Hpack) in Hr
    as (q & c & Hq & Hm & _ & _ & _ & _ & ->).
  assert (Hkept : m' !! source = m !! source).
  { pose proof (frames_pack_df self o env (λ m m' : fs, m' !! source = m !! source)
                  (render source)) as Hf.
    specialize (Hf ltac:(intros x _ m0;
                           apply (split_file_changes_at x (ROW_SIZE self) m0);
                           by apply in_pathlist_not_parts, plain_dir_in_pathlist) m).
    by rewrite Hpack in Hf. }
  assert (Hbelow : strictly_below source q).
  { split; [done|]. intros Heq. rewrite <- Heq, Hkept, (is_dir_lookup m source) in Hm; done. }
  destruct (strictly_below_inv _ _ Hbelow) as (rel & Hrel & ->).
  exists (source ++ rel), c, (segments rel). split_and!; try done.
  - by apply render_app.
  - by apply segments_startswith.
  - intros Hocc. unfold archive_row, with_relPath, binary_row. simpl.
    rewrite render_app, <- string_app_assoc by done.
    by apply regexp_replace_prefix.
Qed.

Lemma pack_relPath_witness :
  ∃ df m',
    pack_files_from_tmp_to_spark_df example_archive in_order Unset (render ["src"])
      example_files
    = (Return df, m')
    ∧ ∀ r, r ∈ rows df →
        ∃ q rest,
          strictly_below ["src"] q ∧ render q = render ["src"] +:+ rest
          ∧ Py.startswith rest "/" = true
          ∧ (Py.contains rest ("file:" +:+ render ["src"]) = false
             → Archive.relPath r = rest).
Proof.
  assert (∃ df m',
    pack_files_from_tmp_to_spark_df example_archive in_order Unset (render ["src"])
      example_files
    = (Return df, m')) as (df & m' & Hpack).
  { eexists _, _. apply run_eq. vm_compute. reflexivity. }
  exists df, m'. split; [exact Hpack|]. intros r Hr.
  destruct (pack_relPath example_archive in_order Unset ["src"] example_files m' df
              ltac:(discriminate) ltac:(by repeat constructor) eq_refl Hpack r Hr)
    as (q & c & rest & Hq & _ & _ & _ & _ & Hrender & Hstart & Hrest).
  exists q, rest. exact (conj Hq (conj Hrender (conj Hstart Hrest))).
Defined.

(** ** Chunker: errors and edge cases *)

Lemma parts_path_ne (path : Path) : parts_path_of path ≠ path.
Proof. intros H. apply (parts_path_not_prefix path). by rewrite H. Qed.

Lemma parts_path_nonroot (path : Path) : parts_path_of path ≠ [].
Proof. unfold parts_path_of. by destruct (parent path). Qed.

Lemma mkdir_parts_fresh (path : Path) (m : fs) :
  node_at m (parent path) = Some Dir → m !! parts_path_of path = None →
  Path_mkdir (parts_path_of path) m = (Return (), <[parts_path_of path := Dir]> m).
Proof.
  intros Hparent Hfresh. unfold Path_mkdir, create.
  rewrite node_at_nonroot, Hfresh by apply parts_path_nonroot.
  unfold parts_path_of at 1. by rewrite parent_snoc, Hparent.
Qed.

(** X8: [_split_file] makes the [.parts] directory before it opens the
    file.  Called on a path that is not a regular file, next to which no
    [.parts] entry exists yet, it raises [IsADirectoryError] for a directory
    and [FileNotFoundError] for a missing path, and the new, empty [.parts]
    directory stays behind. *)
Theorem split_file_not_a_file (path : Path) (chunk_size : Z) (m : fs) :
  is_file m path = false →
  node_at m (parent path) = Some Dir → m !! parts_path_of path = None →
  _split_file path chunk_size m
  = (Raise (if is_dir m path then IsADirectoryError else FileNotFoundError),
     <[parts_path_of path := Dir]> m).
Proof.
  intros Hfile Hparent Hfresh. unfold _split_file.
  rewrite (bind_run _ _ _ _ _ (mkdir_parts_fresh path m Hparent Hfresh)).
  apply bind_raise. unfold open_rb, is_file, is_dir in *.
  rewrite node_at_insert by apply parts_path_nonroot.
  rewrite decide_False by apply parts_path_ne.
  by destruct (node_at m path) as [[c|]|].
Qed.

Lemma split_file_not_a_file_witness :
  let m : fs := {[ ["d"] := Dir; ["d"; "sub"] := Dir ]} in
  _split_file ["d"; "gone"] 4 m
  = (Raise FileNotFoundError, <[["d"; "gone.parts"] := Dir]> m)
  ∧ _split_file ["d"; "sub"] 4 m
    = (Raise IsADirectoryError, <[["d"; "sub.parts"] := Dir]> m).
Proof.
  intros m. split.
  - exact (split_file_not_a_file ["d"; "gone"] 4 m eq_refl eq_refl eq_refl).
  - exact (split_file_not_a_file ["d"; "sub"] 4 m eq_refl eq_refl eq_refl).
Defined.



(** ** Rejoiner: what it does to a whole tree *)

(** Checking on a concrete filesystem that no directory below [d] has a name
    ending in [.parts]. *)
Lemma no_parts_dir_check (m : fs) (d : Path) :
  forallb (λ k, negb (bool_decide (strictly_below d k)
                      && Py.endswith (name k) ".parts" && is_dir m k))
    (entries m) = true →
  ∀ q, strictly_below d q → Py.endswith (name q) ".parts" = true → m !! q ≠ Some Dir.
Proof.
  intros Hall q Hq Hends Hdir. rewrite forallb_forall in Hall.
  specialize (Hall q). rewrite negb_true_iff, !andb_false_iff in Hall.
  assert (Hne : q ≠ []) by (intros ->; by destruct Hq as [[k Hk] ?]; destruct d).
  destruct Hall as [[Hb|He]|Hd].
  - apply list_elem_of_In, elem_of_entries. by rewrite Hdir.
  - by apply bool_decide_eq_false in Hb.
  - congruence.
  - unfold is_dir in Hd. by rewrite node_at_nonroot, Hdir in Hd.
Qed.

(** Without a directory to join, [_join_parts] has nothing to do. *)
Lemma join_parts_nothing (o : schedule) (path : string) (m : fs) :
  (∀ q, strictly_below (resolve path) q → Py.endswith (name q) ".parts" = true →
        m !! q ≠ Some Dir) →
  _join_parts o path m = (Return (), m).
Proof.
  intros Hnone. unfold _join_parts, glob_rec_suffix, glob_rec, bind, ret, get.
  set (found := filter _ (if is_dir m (resolve path) then _ else [])).
  replace (filter (λ x, Is_true (is_dir m x)) found) with (@nil Path); [done|].
  symmetry. apply elem_of_nil_inv. intros q [Hdir Hq]%list_elem_of_filter.
  apply list_elem_of_filter in Hq as [Hends Hq].
  destruct (is_dir m (resolve path)); [|by apply elem_of_nil in Hq].
  rewrite fs_order_perm in Hq. apply list_elem_of_filter in Hq as [Hbelow _].
  apply (Hnone q Hbelow); [by apply Is_true_true|].
  assert (Hne : q ≠ []).
  { intros ->. by destruct Hbelow as [[k Hk] ?]; destruct (resolve path). }
  apply Is_true_true in Hdir. unfold is_dir in Hdir.
  rewrite node_at_nonroot in Hdir by done. by destruct (m !! q) as [[c|]|].
Qed.

(** X7: a tree without chunk groups is left alone.  When no directory below
    [path] has a name ending in [.parts] (files of such a name do not count,
    and [path] itself need not exist), [_join_parts] returns without
    changing anything, whatever the listing order. *)
Theorem join_parts_no_groups (o : schedule) (path : string) (m : fs) :
  (∀ q, strictly_below (resolve path) q → Py.endswith (name q) ".parts" = true →
        m !! q ≠ Some Dir) →
  _join_parts o path m = (Return (), m).
Proof. apply join_parts_nothing. Qed.

Lemma join_parts_no_groups_witness :
  let m : fs := {[ ["d"] := Dir; ["d"; "a.parts"] := File ["x"]%byte;
                   ["d"; "b"] := File ["y"]%byte ]} in
  _join_parts reversed "/d" m = (Return (), m)
  ∧ _join_parts in_order "/missing" m = (Return (), m).
Proof.
  intros m. split.
  - apply (join_parts_no_groups reversed "/d" m).
    apply no_parts_dir_check. vm_compute. reflexivity.
  - apply (join_parts_no_groups in_order "/missing" m).
    apply no_parts_dir_check. vm_compute. reflexivity.
Defined.





(** ** Packing: what it leaves alone and how it fails *)

Section pack_effects.
Context (self : SinaraArchive) (o : schedule) (env : setting).

Lemma pack_files (tmp_entity_dir store_path : string) (w : world) :
  files (pack self o env tmp_entity_dir store_path w).2
  = (pack_files_from_tmp_to_spark_df self o env tmp_entity_dir (files w)).2.
Proof.
  unfold pack, pack_files_from_tmp_to_store, bind, on_files, write_parquet.
  destruct (pack_files_from_tmp_to_spark_df _ _ _ _ _) as [[df|e|] m']; [|done..].
  simpl. by destruct (forallb _ _).
Qed.

Lemma pack_store (tmp_entity_dir store_path : string) (w : world) :
  store (pack self o env tmp_entity_dir store_path w).2
  = match (pack_files_from_tmp_to_spark_df self o env tmp_entity_dir (files w)).1 with
    | Return df =>
        if forallb (λ r, Archive.length r <=? maxLength) (rows df)
        then <[store_path := rows df]> (store w)
        else delete store_path (store w)
    | _ => store w
    end.
Proof.
  unfold pack, pack_files_from_tmp_to_store, bind, on_files, write_parquet.
  destruct (pack_files_from_tmp_to_spark_df _ _ _ _ _) as [[df|e|] m']; [|done..].
  simpl. by destruct (forallb _ _).
Qed.

(** X10: packing never touches the files it archives.  Whether [pack]
    returns or raises, every filesystem entry that passes the test of the
    walk (its name does not end in [.parts], nor does its parent's path) is
    afterwards what it was before: the only entries pack creates or rewrites
    are [.parts] directories and what is directly in them.  In the store,
    only [store_path] can change. *)
Theorem pack_frame (tmp_entity_dir store_path : string) (w : world) :
  let w' := (pack self o env tmp_entity_dir store_path w).2 in
  (∀ q, files w' !! q = files w !! q
        ∨ Py.endswith (name q) ".parts" = true
        ∨ Py.endswith (render (parent q)) ".parts" = true)
  ∧ (∀ k, store w' !! k = store w !! k ∨ k = store_path).
Proof.
  intros w'. unfold w'. split.
  - intros q. rewrite pack_files.
    destruct (in_pathlist q) eqn:Hq.
    + left.
      apply (frames_pack_df self o env (λ m m' : fs, m' !! q = m !! q) tmp_entity_dir).
      intros x _ m0. apply (split_file_changes_at x (ROW_SIZE self) m0);
        by apply in_pathlist_not_parts.
    + right. unfold in_pathlist in Hq. apply andb_false_iff in Hq.
      rewrite !negb_false_iff in Hq. tauto.
  - intros k. rewrite pack_store.
    destruct (pack_files_from_tmp_to_spark_df _ _ _ _ _).1; [|by left..].
    destruct (decide (k = store_path)) as [|Hk]; [by right|left].
    destruct (forallb _ _); [by rewrite lookup_insert_ne|by rewrite lookup_delete_ne].
Qed.





(** X13: packing a directory that does not exist, given by the path string
    of a list of plain names without dots.  The walk finds nothing, so
    nothing is split and the total is 0; the engine then refuses to load
    the path.  [pack] raises [AnalysisException] (or, before that,
    [ValueError] when [SINARA_SERVER_CORES] is no number, else
    [ZeroDivisionError] with [BLOCK_SIZE = 0]) and changes neither the
    filesystem nor the store. *)
Theorem pack_missing_directory (source : Path) (store_path : string) (w : world) :
  source ≠ [] → Forall (λ n, plain_dir_name n = true) source →
  node_at (files w) source = None →
  pack self o env (render source) store_path w
  = (Raise (match server_cores env with
            | inl e => e
            | inr _ => if BLOCK_SIZE self =? 0 then ZeroDivisionError
                       else AnalysisException
            end), w).
Proof.
  intros Hne Hsrc Hnone.
  destruct (plain_dir_url source Hne Hsrc) as (Hurl & Hlocal & Hres).
  assert (Hdir : is_dir (files w) source = false)
    by (unfold is_dir; by rewrite Hnone).
  destruct w as [m st]. simpl in Hdir, Hnone.
  unfold pack, pack_files_from_tmp_to_store, bind at 1, on_files. simpl.
  unfold pack_files_from_tmp_to_spark_df, bind at 1. rewrite Hurl, Hres.
  cbn [of_sum]. unfold ret at 1, bind at 1, glob_rec.
  rewrite Hdir, filter_nil. cbn [for_acc]. unfold bind at 1, ret at 1, bind at 1.
  destruct (server_cores env) as [e|cores]; [done|]. cbn [of_sum]. unfold ret at 1.
  unfold plan_partitions, by_block_size, PyFloat.truediv.
  destruct (BLOCK_SIZE self =? 0) eqn:Hb; [done|].
  simpl. unfold bind at 1, ret at 1, bind at 1, read_binaryFile.
  by rewrite Hlocal, Hnone.
Qed.

End pack_effects.


Lemma pack_missing_directory_witness :
  pack example_archive in_order Unset (render ["nowhere"]) "store/e1" example_world
  = (Raise AnalysisException, example_world).
Proof.
  exact (pack_missing_directory example_archive in_order Unset ["nowhere"] "store/e1"
           example_world ltac:(discriminate) ltac:(by repeat constructor) eq_refl).
Defined.

(** ** Packing: the partition count *)

Lemma total_of_Permutation (m : fs) (l1 l2 : list Path) :
  l1 ≡ₚ l2 → total_of m l1 = total_of m l2.
Proof.
  unfold total_of. induction 1 as [|x l1 l2 _ IH|x y l|l1 l2 l3 _ IH1 _ IH2].
  - done.
  - cbn [foldr]. by rewrite IH.
  - cbn [foldr]. lia.
  - by rewrite IH1.
Qed.

Lemma total_of_ext (m m' : fs) (l : list Path) :
  (∀ q, q ∈ l → m' !! q = m !! q) → total_of m' l = total_of m l.
Proof.
  unfold total_of. induction l as [|x l IH]; intros Hl; [done|]. cbn [foldr].
  rewrite IH by (intros q Hq; apply Hl; by right). f_equal.
  unfold st_size, node_at. destruct x; [done|]. by rewrite (Hl _ ltac:(by left)).
Qed.

Lemma total_of_nonneg (m : fs) (l : list Path) : 0 ≤ total_of m l.
Proof.
  unfold total_of. induction l as [|x l IH]; cbn [foldr]; [done|].
  assert (0 ≤ st_size m x); [|lia].
  unfold st_size. destruct (node_at m x) as [[c|]|]; lia.
Qed.

Section partitions.
Context (self : SinaraArchive) (o : schedule) (env : setting).

(** One step of the walk adds the size of its entry and changes nothing
    that passes the test of the walk. *)
Lemma scan_step (total_size : Z) (x : Path) (m m' : fs) (t : Z) :
  scan self total_size x m = (Return t, m') →
  t = total_size + st_size m x ∧ ∀ q, in_pathlist q = true → m' !! q = m !! q.
Proof.
  intros Hscan. split.
  - unfold scan, bind at 1, get in Hscan. unfold is_file, st_size in *.
    destruct (node_at m x) as [[c|]|]; [|unfold ret in Hscan; simplify_eq; lia..].
    destruct (ROW_SIZE self <? Z.of_nat (length c)).
    + apply bind_inv in Hscan as (? & m1 & _ & Hret). unfold ret in Hret. by simplify_eq.
    + unfold ret in Hscan. by simplify_eq.
  - intros q Hq.
    pose proof (frames_scan self (λ m m' : fs, m' !! q = m !! q) total_size x) as Hf.
    specialize (Hf ltac:(intros m0; apply (split_file_changes_at x (ROW_SIZE self) m0);
                           by apply in_pathlist_not_parts) m).
    by rewrite Hscan in Hf.
Qed.

Lemma scan_pass (l : list Path) (total_size : Z) (m m' : fs) (t : Z) :
  Forall (λ q, in_pathlist q = true) l →
  for_acc l total_size (scan self) m = (Return t, m') →
  t = total_size + total_of m l.
Proof.
  intros Hl. revert total_size m.
  induction Hl as [|x l Hx Hl IH]; intros total_size m Hrun.
  - cbn [for_acc] in Hrun. unfold ret in Hrun. simplify_eq.
    unfold total_of. cbn [foldr]. lia.
  - cbn [for_acc] in Hrun. apply bind_inv in Hrun as (t1 & m1 & Hscan & Hrun).
    apply scan_step in Hscan as [-> Hkept]. apply IH in Hrun as ->.
    rewrite (total_of_ext m m1).
    + unfold total_of. cbn [foldr]. lia.
    + intros q Hq. apply Hkept. by apply (proj1 (Forall_forall _ _) Hl).
Qed.


End partitions.


(** ** Unpacking: path strings *)

Lemma lstrip_other (c a : ascii) (s : string) :
  Ascii.eqb a c = false → Py.lstrip c (String a s) = String a s.
Proof. intros Ha. cbn [Py.lstrip]. by rewrite Ha. Qed.

Lemma rstrip_app (c : ascii) (s t : string) :
  Py.rstrip c t ≠ "" → Py.rstrip c (s +:+ t) = s +:+ Py.rstrip c t.
Proof.
  intros Ht. induction s as [|a s IH]; [by rewrite !string_app_nil_l|].
  rewrite !string_app_cons. cbn [Py.rstrip]. rewrite IH.
  destruct (s +:+ Py.rstrip c t) eqn:Hs.
  - destruct s; [|done]. by rewrite string_app_nil_l in Hs.
  - by rewrite andb_false_r.
Qed.

Lemma rstrip_no_slash (n : string) : Py.contains n "/" = false → Py.rstrip "/" n = n.
Proof.
  induction n as [|a n IH]; [done|]. intros [Ha Hn]%contains_slash_cons.
  cbn [Py.rstrip]. by rewrite IH, Ha by done.
Qed.

Lemma rstrip_name_slash (n : string) :
  Py.contains n "/" = false → Py.rstrip "/" (n +:+ "/") = n.
Proof.
  induction n as [|a n IH]; [done|]. intros [Ha Hn]%contains_slash_cons.
  rewrite string_app_cons. cbn [Py.rstrip]. by rewrite IH, Ha by done.
Qed.

Lemma valid_name_head (n : string) :
  valid_name n = true → ∃ a s, n = String a s ∧ Ascii.eqb a "/" = false.
Proof.
  intros Hn. pose proof (valid_name_nonempty n Hn) as Hne.
  apply valid_name_no_slash in Hn. destruct n as [|a s]; [done|].
  apply contains_slash_cons in Hn as [Ha _]. by exists a, s.
Qed.

Lemma relative_snoc (rel : list string) (n : string) :
  ∃ s, relative (rel ++ [n]) = s +:+ n.
Proof.
  destruct rel as [|x rel]; simpl.
  - exists "". by rewrite string_app_nil_r.
  - exists (x +:+ segments rel +:+ "/"). by rewrite segments_snoc, !string_app_assoc.
Qed.

Lemma segments_relative (rel : list string) :
  rel ≠ [] → segments rel = "/" +:+ relative rel.
Proof. by destruct rel. Qed.

(** [relPath.strip('/')] of a relative path written with its leading
    separator. *)
Lemma strip_segments (rel : list string) :
  rel ≠ [] → Forall (λ n, valid_name n = true) rel →
  Py.strip "/" (segments rel) = relative rel.
Proof.
  intros Hne Hvalid. unfold Py.strip.
  destruct rel as [|x rel]; [done|]. clear Hne. cbn [segments].
  destruct (valid_name_head x) as (a & s & -> & Ha); [by inversion Hvalid|].
  rewrite string_app_cons, string_app_nil_l. cbn [Py.lstrip].
  rewrite Ascii.eqb_refl, string_app_cons, (lstrip_other "/" a) by done.
  rewrite <- string_app_cons. change (String a s +:+ segments rel) with (relative (String a s :: rel)).
  destruct (exists_last (l:=String a s :: rel)) as (rel' & n & Hrel); [done|].
  rewrite Hrel in *. destruct (relative_snoc rel' n) as [t ->].
  assert (Hn : valid_name n = true).
  { apply (proj1 (Forall_forall _ _) Hvalid), list_elem_of_In, in_or_app. right. by left. }
  rewrite rstrip_app; rewrite rstrip_no_slash by by apply valid_name_no_slash.
  - done.
  - by apply valid_name_nonempty.
Qed.

Lemma endswith_slash_name (s n : string) :
  valid_name n = true → Py.endswith (s +:+ n) "/" = false.
Proof.
  intros Hn. induction s as [|a s IH].
  - rewrite string_app_nil_l. pose proof (valid_name_nonempty n Hn) as Hne.
    apply valid_name_no_slash in Hn.
    induction n as [|a n IH]; [done|].
    apply contains_slash_cons in Hn as [Ha Hn]. rewrite endswith_unfold.
    replace (String.eqb (String a n) "/") with false.
    + destruct n; [done|]. by apply IH.
    + symmetry. apply String.eqb_neq. intros [= -> ->]. done.
  - rewrite string_app_cons, endswith_unfold.
    replace (String.eqb (String a (s +:+ n)) "/") with false; [done|].
    symmetry. apply String.eqb_neq. intros [= -> Hs].
    destruct s; [|done]. rewrite string_app_nil_l in Hs. subst n. done.
Qed.

Lemma relative_not_absolute (rel : list string) :
  Forall (λ n, valid_name n = true) rel → Py.startswith (relative rel) "/" = false.
Proof.
  intros Hvalid. destruct rel as [|x rel]; [done|]. simpl.
  destruct (valid_name_head x) as (a & s & -> & Ha); [by inversion Hvalid|].
  rewrite string_app_cons, startswith_unfold, Ascii.eqb_sym. by rewrite Ha.
Qed.

Lemma segments_last (p : Path) :
  p ≠ [] → ∃ s n, segments p = s +:+ n ∧ n = name p.
Proof.
  intros Hp. exists (segments (parent p) +:+ "/"), (name p). split; [|done].
  rewrite string_app_assoc, <- segments_snoc. f_equal. by apply path_parent_name.
Qed.

Lemma valid_name_last (p : Path) :
  p ≠ [] → Forall (λ n, valid_name n = true) p → valid_name (name p) = true.
Proof.
  intros Hp Hvalid. apply (proj1 (Forall_forall _ _) Hvalid).
  apply list_elem_of_In. rewrite (path_parent_name p Hp).
  rewrite name_snoc. apply in_or_app. right. by left.
Qed.

(** [path.join(tmp_entity_dir, relPath.strip('/'))] names the file below the
    directory. *)
Lemma join_render (d rel : Path) :
  Forall (λ n, valid_name n = true) d → Forall (λ n, valid_name n = true) rel →
  rel ≠ [] → Py.join (render d) (relative rel) = segments (d ++ rel).
Proof.
  intros Hd Hrel Hne. unfold Py.join. rewrite relative_not_absolute by done.
  destruct (decide (d = [])) as [->|Hdne].
  - simpl. rewrite string_app_cons, string_app_nil_l. by rewrite segments_relative.
  - replace (render d) with (segments d) by (by destruct d).
    replace (String.eqb (segments d) "") with false.
    + destruct (segments_last d Hdne) as (s & n & Hs & ->). rewrite Hs at 1.
      rewrite endswith_slash_name by by apply valid_name_last.
      simpl. rewrite segments_app, (segments_relative rel) by done.
      by rewrite string_app_cons, string_app_nil_l.
    + symmetry. apply String.eqb_neq. by destruct d.
Qed.

Lemma rsplit_at_no_slash (n : string) :
  Py.contains n "/" = false → Py.rsplit_at "/" n = None.
Proof.
  induction n as [|a n IH]; [done|]. intros [Ha Hn]%contains_slash_cons.
  cbn [Py.rsplit_at]. by rewrite IH, Ha.
Qed.

(** [path.dirname] of a file's path string is its parent's path string. *)
Lemma dirname_segments (p : Path) (n : string) :
  Forall (λ n, valid_name n = true) p → valid_name n = true →
  Py.dirname (segments (p ++ [n])) = render p.
Proof.
  intros Hp Hn. unfold Py.dirname.
  rewrite segments_snoc, string_app_cons, string_app_nil_l.
  rewrite rsplit_at_app by by apply rsplit_at_no_slash, valid_name_no_slash.
  destruct (decide (p = [])) as [->|Hpne]; [done|].
  replace (render p) with (segments p) by (by destruct p).
  replace (String.eqb (Py.lstrip "/" (segments p +:+ "/")) "") with false.
  - destruct (segments_last p Hpne) as (s & x & Hs & ->). rewrite Hs, string_app_assoc.
    pose proof (valid_name_last p Hpne Hp) as Hx.
    rewrite rstrip_app; rewrite rstrip_name_slash by by apply valid_name_no_slash.
    + done.
    + by apply valid_name_nonempty.
  - symmetry. apply String.eqb_neq. destruct p as [|x p]; [done|]. cbn [segments].
    destruct (valid_name_head x) as (a & s & -> & Ha); [by inversion Hp|].
    rewrite !string_app_cons, string_app_nil_l. cbn [Py.lstrip].
    rewrite Ascii.eqb_refl, !string_app_cons, (lstrip_other "/" a) by done. done.
Qed.

(** ** Unpacking: creating the directories *)

Lemma strictly_below_snoc (base : Path) (n : string) : strictly_below base (base ++ [n]).
Proof. split; [by apply prefix_app_r|]. symmetry. apply snoc_ne_self. Qed.

Lemma strictly_below_trans (d p q : Path) :
  strictly_below d p → p `prefix_of` q → strictly_below d q.
Proof.
  intros [Hdp Hne] Hpq. split; [by trans p|]. intros ->.
  apply Hne. by apply (anti_symm prefix).
Qed.

(** The entries between [base] and [base ++ n :: rest]. *)
Lemma between_step (base : Path) (n : string) (rest : list string) (q : Path) :
  strictly_below base q ∧ q `prefix_of` base ++ n :: rest
  ↔ q = base ++ [n]
    ∨ (strictly_below (base ++ [n]) q ∧ q `prefix_of` (base ++ [n]) ++ rest).
Proof.
  rewrite <- (assoc_L (++) base [n] rest). split.
  - intros [[Hbq Hne] Hq].
    destruct (prefix_snoc_inv base q Hbq) as [->|[x Hx]]; [done|].
    assert (x = n) as ->.
    { assert (Hxn : base ++ [x] `prefix_of` base ++ [n] ++ rest) by (by trans q).
      apply prefix_app_inv in Hxn. by apply prefix_cons_inv_1 in Hxn. }
    destruct (decide (q = base ++ [n])) as [|Hq']; [by left|right]. by split.
  - intros [->|[Hbelow Hq]].
    + split; [apply strictly_below_snoc|]. apply prefix_app, (prefix_app_r [n] [n]). done.
    + split; [|done]. eapply strictly_below_trans; [apply strictly_below_snoc|].
      by destruct Hbelow.
Qed.

Lemma with_dirs_lookup (base : Path) (rest : list string) (m : fs) (q : Path) :
  with_dirs base rest m !! q
  = if decide (strictly_below base q ∧ q `prefix_of` base ++ rest)
    then Some Dir else m !! q.
Proof.
  revert base m. induction rest as [|n rest IH]; intros base m.
  - simpl. rewrite decide_False; [done|]. rewrite app_nil_r. intros [[Hbq Hne] Hqb].
    apply Hne. by apply (anti_symm prefix).
  - cbn [with_dirs]. rewrite IH.
    pose proof (between_step base n rest q) as Hstep.
    destruct (decide (strictly_below (base ++ [n]) q ∧ q `prefix_of` (base ++ [n]) ++ rest))
      as [Hin|Hout].
    + rewrite decide_True; [done|]. apply Hstep. by right.
    + destruct (decide (q = base ++ [n])) as [->|Hq].
      * rewrite lookup_insert_eq, decide_True; [done|]. apply Hstep. by left.
      * rewrite lookup_insert_ne by done. rewrite decide_False; [done|].
        intros [|]%Hstep; done.
Qed.

(** [os.makedirs(..., exist_ok=True)] succeeds when none of the directories
    on the way is there as a file. *)
Lemma makedirs_from_spec (base : Path) (rest : list string) (m : fs) :
  (∀ q c, strictly_below base q → q `prefix_of` base ++ rest → m !! q ≠ Some (File c)) →
  makedirs_from base rest m = (Return (), with_dirs base rest m).
Proof.
  revert base m. induction rest as [|n rest IH]; intros base m Hfree; [done|].
  cbn [makedirs_from with_dirs].
  assert (Hne : base ++ [n] ≠ []) by (by destruct base).
  assert (Hnext : ∀ m' : fs,
            (∀ q, q ≠ base ++ [n] → m' !! q = m !! q) →
            ∀ q c, strictly_below (base ++ [n]) q → q `prefix_of` (base ++ [n]) ++ rest →
              m' !! q ≠ Some (File c)).
  { intros m' Hm' q c Hq1 Hq2. rewrite Hm' by (by destruct Hq1).
    apply Hfree; apply (between_step base n rest q); by right. }
  rewrite node_at_nonroot by done.
  destruct (m !! (base ++ [n])) as [[c|]|] eqn:Hm.
  - destruct (Hfree (base ++ [n]) c); [..|done]; apply (between_step base n rest); by left.
  - rewrite IH by (apply Hnext; by intros). by rewrite insert_id.
  - apply IH, Hnext. intros q Hq. by rewrite lookup_insert_ne.
Qed.

(** ** Unpacking: one row *)

Lemma write_file (m : fs) (p : Path) (data : list byte) :
  p ≠ [] → node_at m (parent p) = Some Dir → m !! p ≠ Some Dir →
  (open_wb p ;; write p data) m = (Return (), <[p := File data]> m).
Proof.
  intros Hp Hparent Hnodir. unfold bind, open_wb, create, write.
  rewrite node_at_nonroot by done.
  destruct (m !! p) as [[c|]|]; [|done|rewrite Hparent]; by rewrite alter_insert_eq.
Qed.

Lemma save_file_run (d rel : Path) (r : Archive.row) (m : fs) :
  let p := d ++ rel in
  Forall (λ n, valid_name n = true) d → Forall (λ n, valid_name n = true) rel →
  rel ≠ [] → Py.strip "/" (Archive.relPath r) = relative rel →
  (∀ q c, q ≠ [] → q `prefix_of` parent p → m !! q ≠ Some (File c)) →
  m !! p ≠ Some Dir →
  SinaraArchive_save_file (render d) r m
  = (Return (), <[p := File (Archive.content r)]> (with_dirs [] (parent p) m)).
Proof.
  intros p Hd Hrel Hne Hstrip Hfree Hnodir.
  assert (Hp : p ≠ []) by (unfold p; by destruct d, rel).
  assert (Hvalid : Forall (λ n, valid_name n = true) p) by (by apply Forall_app).
  assert (Hparent : Forall (λ n, valid_name n = true) (parent p)).
  { rewrite (path_parent_name p Hp) in Hvalid. by apply Forall_app in Hvalid as [? _]. }
  unfold SinaraArchive_save_file. rewrite Hstrip, join_render by done. fold p.
  rewrite (path_parent_name p Hp) at 1 2.
  rewrite dirname_segments by (by try apply valid_name_last).
  rewrite <- (path_parent_name p Hp).
  assert (Hmk : os_makedirs (render (parent p)) m
                = (Return (), with_dirs [] (parent p) m)).
  { unfold os_makedirs. replace (String.eqb (render (parent p)) "") with false.
    - rewrite resolve_render by done. apply makedirs_from_spec.
      intros q c [_ Hq] Hpre. apply Hfree; [by intros ->|by rewrite app_nil_l in Hpre].
    - symmetry. apply String.eqb_neq. by destruct (parent p). }
  rewrite (bind_run _ _ _ _ _ Hmk). unfold open_wb_str.
  destruct (segments_last p Hp) as (s & n & Hs & ->). rewrite Hs at 1.
  rewrite endswith_slash_name by by apply valid_name_last.
  rewrite resolve_segments by done.
  rewrite bind_assoc. rewrite <- (write_file (with_dirs [] (parent p) m) p (Archive.content r)).
  - unfold bind. by destruct (open_wb p _) as [[[]|e|] m1].
  - done.
  - destruct (decide (parent p = [])) as [->|Hpp]; [done|].
    rewrite node_at_nonroot by done. rewrite with_dirs_lookup.
    apply decide_True. split; [|done]. split; [apply prefix_nil|done].
  - rewrite with_dirs_lookup, decide_False; [done|]. rewrite app_nil_l.
    intros [_ Hpre]. apply prefix_length in Hpre.
    rewrite (path_parent_name p Hp) in Hpre at 1. rewrite length_app in Hpre. simpl in Hpre. lia.
Qed.

(** Checking on a concrete filesystem that no file lies on the way to [p]. *)
Lemma no_file_on_way_check (m : fs) (p : Path) :
  forallb (λ k, negb (is_file m (take k p))) (seq 1 (length p)) = true →
  ∀ q c, q ≠ [] → q `prefix_of` p → m !! q ≠ Some (File c).
Proof.
  intros Hall q c Hq [k ->] Hm. rewrite forallb_forall in Hall.
  specialize (Hall (length q)). rewrite take_app_length in Hall.
  unfold is_file in Hall. rewrite node_at_nonroot, Hm in Hall by done.
  discriminate Hall. apply in_seq. rewrite length_app. destruct q; [done|]. simpl. lia.
Qed.

(** X14: what [SinaraArchive_save_file] does with one row.  The separators
    around [relPath] are stripped; for what remains, the names [rel], the row
    is written to the file [rel] below the directory: when nothing on the
    way there is a file and the place itself is not a directory, the call
    returns, the file holds exactly the row's content (an older file is
    replaced), every directory on the way exists, and all other entries are
    as before. *)
Theorem save_file_writes (d rel : Path) (r : Archive.row) (m : fs) :
  Forall (λ n, valid_name n = true) d → Forall (λ n, valid_name n = true) rel →
  rel ≠ [] → Py.strip "/" (Archive.relPath r) = relative rel →
  (∀ q c, q ≠ [] → q `prefix_of` parent (d ++ rel) → m !! q ≠ Some (File c)) →
  m !! (d ++ rel) ≠ Some Dir →
  ∃ m',
    SinaraArchive_save_file (render d) r m = (Return (), m')
    ∧ m' !! (d ++ rel) = Some (File (Archive.content r))
    ∧ (∀ q, q ≠ [] → q `prefix_of` parent (d ++ rel) → m' !! q = Some Dir)
    ∧ (∀ q, ¬ q `prefix_of` d ++ rel → m' !! q = m !! q).
Proof.
  intros Hd Hrel Hne Hstrip Hfree Hnodir.
  assert (Hp : d ++ rel ≠ []) by (by destruct d, rel).
  eexists. split; [by apply save_file_run|]. split_and!.
  - by rewrite lookup_insert_eq.
  - intros q Hq Hpre. rewrite lookup_insert_ne, with_dirs_lookup.
    + rewrite decide_True; [done|]. split; [|done]. split; [apply prefix_nil|done].
    + intros <-. apply prefix_length in Hpre.
      rewrite (path_parent_name _ Hp) in Hpre at 1. rewrite length_app in Hpre.
      simpl in Hpre. lia.
  - intros q Hq. rewrite lookup_insert_ne, with_dirs_lookup by (by intros <-).
    rewrite decide_False; [done|]. intros [_ Hpre]. apply Hq. rewrite app_nil_l in Hpre.
    etrans; [exact Hpre|]. rewrite (path_parent_name _ Hp) at 2. by apply prefix_app_r.
Qed.

Lemma save_file_writes_witness :
  let r := {| Archive.length := 2; Archive.content := ["h"; "i"]%byte;
              Archive.relPath := "/d/a.txt" |} in
  ∃ m',
    SinaraArchive_save_file "/tmp/e" r example_files = (Return (), m')
    ∧ m' !! ["tmp"; "e"; "d"; "a.txt"] = Some (File ["h"; "i"]%byte)
    ∧ m' !! ["tmp"; "e"; "d"] = Some Dir.
Proof.
  intros r.
  destruct (save_file_writes ["tmp"; "e"] ["d"; "a.txt"] r example_files)
    as (m' & Hrun & Hfile & Hdirs & _).
  - by repeat constructor.
  - by repeat constructor.
  - discriminate.
  - reflexivity.
  - apply no_file_on_way_check. vm_compute. reflexivity.
  - discriminate.
  - exists m'. split; [exact Hrun|]. split; [exact Hfile|].
    apply Hdirs; [discriminate|]. by exists [].
Defined.

(** ** Packing: the state after the chunking pass *)

Lemma split_file_group (p : Path) (chunk_size : Z) (c : list byte) (m : fs) :
  m !! p = Some (File c) → p ≠ [] → c ≠ [] → 0 < chunk_size →
  node_at m (parent p) = Some Dir →
  (∀ q, parts_path_of p `prefix_of` q → m !! q = None) →
  ∃ m', _split_file p chunk_size m = (Return (), m')
    ∧ group_at chunk_size p c m'
    ∧ (∀ q, ¬ parts_path_of p `prefix_of` q → m' !! q = m !! q).
Proof.
  intros Hp Hne Hc Hpos Hparent Hfresh.
  destruct (split_file_spec p chunk_size c m)
    as (m1 & Hrun & Hs1 & Hdir & Hchunks & Honly & _); [by rewrite node_at_nonroot|done..|].
  eexists. split; [exact Hrun|]. split.
  - unfold group_at. split_and!.
    + rewrite lookup_insert_ne; [done|]. apply snoc_ne_self.
    + by rewrite lookup_insert_eq.
    + intros j Hj. rewrite lookup_insert_ne by apply sentinel_not_chunk. by apply Hchunks.
    + intros q Hq Hsome.
      destruct (decide (q = parts_path_of p ++ ["_PARTS"])) as [|Hqs]; [by right; left|].
      rewrite lookup_insert_ne in Hsome by done.
      destruct (Honly q Hq Hsome) as [|(j & Hj & ->)]; [by left|]. right; right. by exists j.
  - intros q Hq. pose proof (frames_split_file p chunk_size m q Hq) as Hf.
    by rewrite Hrun in Hf.
Qed.

Section pass.
Context (self : SinaraArchive).

Lemma scan_pass_groups (l : list Path) (total_size : Z) (m : fs) :
  0 < ROW_SIZE self →
  NoDup l → (∀ x, x ∈ l → x ≠ []) →
  (∀ x y, x ∈ l → y ∈ l → x ≠ y → apart x y) →
  (∀ x c, x ∈ l → m !! x = Some (File c) →
     node_at m (parent x) = Some Dir ∧ ∀ q, parts_path_of x `prefix_of` q → m !! q = None) →
  ∃ t m1,
    for_acc l total_size (scan self) m = (Return t, m1)
    ∧ (∀ x c, x ∈ l → m !! x = Some (File c) → ROW_SIZE self < Z.of_nat (length c) →
         group_at (ROW_SIZE self) x c m1)
    ∧ (∀ q, (∀ x c, x ∈ l → m !! x = Some (File c) →
               ROW_SIZE self < Z.of_nat (length c) → ¬ parts_path_of x `prefix_of` q) →
         m1 !! q = m !! q).
Proof.
  intros Hrow Hnd. revert total_size m.
  induction Hnd as [|x l Hx Hnd IH]; intros total_size m Hnonroot Hapart Hfresh.
  { exists total_size, m. split; [done|]. split; [|done].
    intros x c Hin. by apply elem_of_nil in Hin. }
  cbn [for_acc]. unfold bind at 1, scan at 1, bind at 1, get, is_file, st_size.
  assert (Hrest : ∀ x' y, x' ∈ l → y ∈ l → x' ≠ y → apart x' y).
  { intros x' y Hx' Hy. apply Hapart; by right. }
  assert (Hnr : ∀ y, y ∈ l → y ≠ []) by (intros y Hy; apply Hnonroot; by right).
  assert (Hxne : x ≠ []) by (apply Hnonroot; by left).
  rewrite node_at_nonroot by done.
  destruct (m !! x) as [[c|]|] eqn:Hnode.
  2,3: destruct (IH total_size m Hnr Hrest ltac:(intros y c Hy; apply Hfresh; by right))
         as (t & m1 & Hrun & Hgroups & Hframe);
       exists t, m1; (split; [exact Hrun|]); split;
       [ intros y c [->|Hy]%elem_of_cons Hm; [congruence | by apply Hgroups]
       | intros q Hq; apply Hframe; intros y c Hy; apply Hq; by right ].
  destruct (Z.ltb_spec (ROW_SIZE self) (Z.of_nat (length c))) as [Hbig|Hsmall].
  - destruct (Hfresh x c ltac:(by left) Hnode) as [Hparent Hnone].
    destruct (split_file_group x (ROW_SIZE self) c m) as (m' & Hsplit & Hgroup & Hframe');
      [done|done|by destruct c; simpl in *; [lia|]|done..|].
    rewrite (bind_run _ _ _ _ _ Hsplit). unfold ret at 1.
    assert (Hkept : ∀ y q, y ∈ l → q = y ∨ q = parent y ∨ parts_path_of y `prefix_of` q →
              m' !! q = m !! q).
    { intros y q Hy Hq. apply Hframe'. intros Hpre.
      assert (Hxy : x ≠ y) by (by intros ->).
      destruct (Hapart x y ltac:(by left) ltac:(by right) Hxy) as [Ha1 Ha2].
      destruct (Hapart y x ltac:(by right) ltac:(by left) ltac:(done)) as [Hb1 Hb2].
      destruct Hq as [->|[->|Hq]].
      - done.
      - apply Ha1. etrans; [exact Hpre|]. destruct y as [|a y] using rev_ind; [done|].
        rewrite parent_snoc. by apply prefix_app_r.
      - destruct (prefix_weak_total _ _ _ Hpre Hq); done. }
    destruct (IH (total_size + Z.of_nat (length c)) m' Hnr Hrest)
      as (t & m1 & Hrun & Hgroups & Hframe).
    { intros y c' Hy Hm'. rewrite (Hkept y y Hy) in Hm' by by left.
      destruct (Hfresh y c' ltac:(by right) Hm') as [Hparent' Hnone']. split.
      - destruct (decide (parent y = [])) as [Hroot|Hpy]; [by rewrite Hroot|].
        rewrite node_at_nonroot in * by done.
        rewrite (Hkept y (parent y) Hy) by (right; by left). done.
      - intros q Hq. rewrite (Hkept y q Hy) by (right; by right). by apply Hnone'. }
    unfold ret in Hrun. exists t, m1. split; [exact Hrun|]. split.
    + intros y c' [->|Hy]%elem_of_cons Hm Hbig'.
      * assert (c' = c) as -> by congruence.
        destruct Hgroup as (G1 & G2 & G3 & G4).
        assert (Hsame : ∀ q, parts_path_of x `prefix_of` q → m1 !! q = m' !! q).
        { intros q Hq. apply Hframe. intros z cz Hz Hmz _ Hpre.
          assert (Hxz : x ≠ z) by (by intros ->).
          destruct (Hapart x z ltac:(by left) ltac:(by right) Hxz) as [_ Ha2].
          destruct (Hapart z x ltac:(by right) ltac:(by left) ltac:(done)) as [_ Hb2].
          destruct (prefix_weak_total _ _ _ Hpre Hq); done. }
        unfold group_at. split_and!.
        -- by rewrite Hsame.
        -- rewrite Hsame; [done|]. by apply prefix_app_r.
        -- intros j Hj. rewrite Hsame; [by apply G3|]. by apply prefix_app_r.
        -- intros q Hq. rewrite Hsame by done. by apply G4.
      * apply Hgroups; [done| |done]. by rewrite (Hkept y y Hy) by by left.
    + intros q Hq. rewrite Hframe.
      * apply Hframe'. by apply (Hq x c ltac:(by left)).
      * intros y c' Hy Hm'. rewrite (Hkept y y Hy) in Hm' by by left.
        apply (Hq y c'); [by right|done].
  - unfold ret at 1.
    destruct (IH (total_size + Z.of_nat (length c)) m Hnr Hrest
                ltac:(intros y c' Hy; apply Hfresh; by right))
      as (t & m1 & Hrun & Hgroups & Hframe).
    unfold ret in Hrun. exists t, m1. split; [exact Hrun|]. split.
    + intros y c' [->|Hy]%elem_of_cons Hm Hbig'; [|by apply Hgroups].
      assert (c' = c) by congruence. subst. lia.
    + intros q Hq. apply Hframe. intros y c' Hy. apply Hq. by right.
Qed.

End pass.

(** ** A source tree without chunk groups *)

Lemma string_app_inj_r (s1 s2 t : string) : s1 +:+ t = s2 +:+ t → s1 = s2.
Proof.
  revert s2. induction s1 as [|a s1 IH]; intros [|b s2] H.
  - done.
  - apply (f_equal String.length) in H. rewrite !string_length_app in H. simpl in H. lia.
  - apply (f_equal String.length) in H. rewrite !string_length_app in H. simpl in H. lia.
  - rewrite !string_app_cons in H. injection H as -> H. f_equal. by apply IH.
Qed.

Lemma parts_path_of_inj (x y : Path) :
  x ≠ [] → y ≠ [] → parts_path_of x = parts_path_of y → x = y.
Proof.
  intros Hx Hy H. unfold parts_path_of in H. apply app_inj_tail in H as [Hp Hn].
  apply string_app_inj_r in Hn.
  rewrite (path_parent_name x Hx), (path_parent_name y Hy). congruence.
Qed.

Lemma strictly_below_nonroot (d q : Path) : strictly_below d q → q ≠ [].
Proof. intros [[k Hk] Hne] ->. by destruct d. Qed.

Lemma strictly_below_parent (d q : Path) :
  strictly_below d q → d `prefix_of` parent q.
Proof.
  intros [[k ->] Hne]. destruct k as [|x k] using rev_ind.
  - by rewrite app_nil_r in Hne.
  - rewrite (assoc_L (++)), parent_snoc. by apply prefix_app_r.
Qed.

Lemma strictly_below_parts_path (d q : Path) :
  strictly_below d q → strictly_below d (parts_path_of q).
Proof.
  intros Hq. unfold parts_path_of.
  eapply strictly_below_trans; [|done].
  apply strictly_below_parent in Hq as [k ->]. rewrite <- (assoc_L (++)).
  split; [by apply prefix_app_r|].
  intros H%(f_equal length). rewrite !length_app in H. simpl in H. lia.
Qed.

Section tree.
Context (src : Path) (m : fs).
Hypothesis Hsrc : m !! src = Some Dir.
Hypothesis Hwf : ∀ q, strictly_below src q → is_Some (m !! q) →
  valid_name (name q) = true ∧ m !! parent q = Some Dir.
Hypothesis Hfilter : ∀ q, strictly_below src q → is_Some (m !! q) → in_pathlist q = true.

(** Whatever lies between the source directory and an entry is a
    directory of the tree. *)
Lemma tree_ancestors (a q : Path) :
  strictly_below src q → is_Some (m !! q) → src `prefix_of` a → a `prefix_of` q →
  a ≠ q → m !! a = Some Dir.
Proof.
  intros Hq Hsome Ha [k ->]. revert Hq Hsome.
  induction k as [|x k IH] using rev_ind; intros Hq Hsome Hne.
  - by rewrite app_nil_r in Hne.
  - rewrite (assoc_L (++)) in Hq, Hsome. destruct (Hwf _ Hq Hsome) as [_ Hparent].
    rewrite parent_snoc in Hparent.
    destruct (decide (k = [])) as [->|Hk]; [by rewrite app_nil_r in Hparent|].
    apply IH; [|by rewrite Hparent|].
    + split; [by apply prefix_app_r|]. intros Heq%(f_equal length).
      apply prefix_length in Ha. rewrite length_app in Heq.
      destruct k; simpl in *; [done|lia].
    + intros H%(f_equal length). rewrite length_app in H. destruct k; simpl in *; [done|lia].
Qed.

Lemma tree_names (rel : list string) :
  is_Some (m !! (src ++ rel)) → Forall (λ n, valid_name n = true) rel.
Proof.
  induction rel as [|x rel IH] using rev_ind; intros Hsome; [done|].
  assert (Hq : strictly_below src (src ++ rel ++ [x])).
  { split; [by apply prefix_app_r|]. intros H%(f_equal length).
    rewrite !length_app in H. simpl in H. lia. }
  destruct (Hwf _ Hq Hsome) as [Hname Hparent].
  rewrite (assoc_L (++)), name_snoc in Hname. rewrite (assoc_L (++)), parent_snoc in Hparent.
  apply Forall_app. split; [|by constructor]. apply IH. by rewrite Hparent.
Qed.

(** A file of the tree has nothing below it. *)
Lemma tree_file_leaf (p q : Path) (c : list byte) :
  src `prefix_of` p → m !! p = Some (File c) → strictly_below p q → m !! q = None.
Proof.
  intros Hp Hfile [Hpq Hne]. destruct (m !! q) as [x|] eqn:Hq; [|done].
  assert (Hbelow : strictly_below src q).
  { split; [by trans p|]. intros ->. apply Hne. by apply (anti_symm prefix). }
  rewrite (tree_ancestors p q) in Hfile; [done..|by rewrite Hq|done|done|done].
Qed.

(** No entry of the tree is a chunk group or inside one. *)
Lemma tree_no_parts (p q : Path) :
  strictly_below src p → parts_path_of p `prefix_of` q → m !! q = None.
Proof.
  intros Hp Hpre. destruct (m !! q) as [x|] eqn:Hq; [|done]. exfalso.
  pose proof (strictly_below_parts_path src p Hp) as Hpp.
  assert (Hbelow : strictly_below src q) by (by eapply strictly_below_trans).
  assert (Hentry : is_Some (m !! parts_path_of p)).
  { destruct (decide (parts_path_of p = q)) as [->|Hne]; [by rewrite Hq|].
    rewrite (tree_ancestors (parts_path_of p) q); [done..|by rewrite Hq|by destruct Hpp|done|done]. }
  apply (Hfilter _ Hpp) in Hentry. unfold in_pathlist, parts_path_of in Hentry.
  rewrite name_snoc, endswith_app in Hentry. done.
Qed.

Lemma tree_apart (x y : Path) :
  strictly_below src x → strictly_below src y → is_Some (m !! y) → x ≠ y → apart x y.
Proof.
  intros Hx Hy Hsome Hne. split.
  - intros Hpre. rewrite (tree_no_parts x y Hx Hpre) in Hsome. by destruct Hsome.
  - intros Hpre. unfold parts_path_of at 2 in Hpre.
    apply prefix_of_snoc in Hpre as [Heq|Hpre].
    + apply Hne. apply parts_path_of_inj; [by eapply strictly_below_nonroot..|done].
    + destruct (Hwf y Hy Hsome) as [_ Hparent].
      by rewrite (tree_no_parts x (parent y) Hx Hpre) in Hparent.
Qed.

End tree.

(** ** Unpacking: all rows *)

Lemma segments_inj (p q : Path) :
  Forall (λ n, valid_name n = true) p → Forall (λ n, valid_name n = true) q →
  segments p = segments q → p = q.
Proof.
  intros Hp Hq H. apply (f_equal (Py.split "/")) in H.
  rewrite !split_segments in H by done. congruence.
Qed.

Lemma strictly_below_app (d a b : Path) :
  strictly_below (d ++ a) (d ++ b) ↔ strictly_below a b.
Proof.
  unfold strictly_below. split.
  - intros [Hpre Hne]. split; [by apply prefix_app_inv in Hpre|congruence].
  - intros [Hpre Hne]. split; [by apply prefix_app|]. by intros ?%(inj (app d)).
Qed.

Lemma prefix_parent (p q : Path) : p `prefix_of` q → p ≠ q → p `prefix_of` parent q.
Proof. intros Hpre Hne. by apply strictly_below_parent. Qed.

Section save_all.
Context (src dst : Path) (m1 : fs).
Hypothesis Hdst : Forall (λ n, valid_name n = true) dst.
Hypothesis Hleaf : ∀ rel rel' c,
  m1 !! (src ++ rel) = Some (File c) → strictly_below rel rel' → m1 !! (src ++ rel') = None.

Lemma save_row (r : Archive.row) (rel : list string) (m : fs) :
  unpacking src dst m1 m →
  rel ≠ [] → Forall (λ n, valid_name n = true) rel →
  Archive.relPath r = segments rel →
  m1 !! (src ++ rel) = Some (File (Archive.content r)) →
  ∃ m',
    SinaraArchive_save_file (render dst) r m = (Return (), m')
    ∧ unpacking src dst m1 m'
    ∧ m' !! (dst ++ rel) = Some (File (Archive.content r))
    ∧ (∀ q, q ≠ [] → q `prefix_of` parent (dst ++ rel) → m' !! q = Some Dir)
    ∧ (∀ q c, dst `prefix_of` q → m !! q = Some (File c) → m' !! q = Some (File c))
    ∧ (∀ q, m !! q = Some Dir → m' !! q = Some Dir)
    ∧ (∀ q, ¬ dst `prefix_of` q → ¬ q `prefix_of` dst → m' !! q = m !! q).
Proof.
  intros (Hb & Hc & He) Hne Hvalid Hpath Hfile.
  assert (Hp : dst ++ rel ≠ []) by (by destruct dst, rel).
  assert (Hparent : dst `prefix_of` parent (dst ++ rel)).
  { apply prefix_parent; [by apply prefix_app_r|]. rewrite <- (app_nil_r dst) at 1.
    by intros ?%(inj (app dst)). }
  assert (Hup : parent (dst ++ rel) `prefix_of` dst ++ rel).
  { rewrite (path_parent_name _ Hp) at 2. by apply prefix_app_r. }
  assert (Hshort : ¬ dst ++ rel `prefix_of` parent (dst ++ rel)).
  { intros Hpre%prefix_length. rewrite (path_parent_name _ Hp) in Hpre at 1.
    rewrite length_app in Hpre. simpl in Hpre. lia. }
  assert (Hway : ∀ q c, q ≠ [] → q `prefix_of` parent (dst ++ rel) → m !! q ≠ Some (File c)).
  { intros q c Hq Hpre Hm.
    destruct (prefix_weak_total _ _ _ Hpre Hparent) as [Hqd|Hdq]; [by eapply He|].
    destruct (Hb q c Hdq Hm) as (rel0 & -> & Hrel0 & Hm1).
    rewrite (Hleaf rel0 rel c) in Hfile; [done..|].
    apply (strictly_below_app dst). split; [by trans (parent (dst ++ rel))|].
    intros Heq. by rewrite Heq in Hpre. }
  assert (Hnodir : m !! (dst ++ rel) ≠ Some Dir).
  { intros Hm. destruct (Hc (dst ++ rel)) as (rel0 & rel' & c & Heq & Hbelow & Hm1); [|done|].
    - rewrite <- (app_nil_r dst) at 1. apply strictly_below_app.
      split; [apply prefix_nil|done].
    - apply (inj (app dst)) in Heq as <-.
      by rewrite (Hleaf rel rel' (Archive.content r)) in Hm1. }
  eexists. split; [apply save_file_run; try done; by rewrite Hpath, strip_segments|].
  split_and!.
  - split_and!.
    + intros q c Hq. destruct (decide (q = dst ++ rel)) as [->|Hqne].
      * rewrite lookup_insert_eq. intros [= <-]. by exists rel.
      * rewrite lookup_insert_ne, with_dirs_lookup by done. case_decide; [done|]. by apply Hb.
    + intros q Hq. destruct (decide (q = dst ++ rel)) as [->|Hqne].
      * by rewrite lookup_insert_eq.
      * rewrite lookup_insert_ne, with_dirs_lookup by done.
        case_decide as Hon; [|by apply Hc]. intros _. destruct Hon as [_ Hon].
        rewrite app_nil_l in Hon. destruct Hq as [[rel0 ->] Hq].
        exists rel0, rel, (Archive.content r). split_and!; [done| |done].
        apply (strictly_below_app dst). split; [by trans (parent (dst ++ rel))|done].
    + intros q c Hq Hpre. rewrite lookup_insert_ne, with_dirs_lookup.
      * case_decide; [done|]. by apply He.
      * intros <-. apply prefix_length in Hpre. rewrite length_app in Hpre.
        destruct rel; simpl in *; [done|lia].
  - by rewrite lookup_insert_eq.
  - intros q Hq Hpre. rewrite lookup_insert_ne, with_dirs_lookup by (by intros <-).
    rewrite decide_True; [done|]. split; [|done]. split; [apply prefix_nil|done].
  - intros q c Hq Hm. destruct (decide (q = dst ++ rel)) as [->|Hqne].
    + rewrite lookup_insert_eq. destruct (Hb _ c Hq Hm) as (rel0 & Heq & _ & Hm1).
      apply (inj (app dst)) in Heq as <-. congruence.
    + rewrite lookup_insert_ne, with_dirs_lookup by done.
      case_decide as Hon; [|done]. destruct Hon as [[_ Hqne'] Hon].
      rewrite app_nil_l in Hon. by destruct (Hway q c).
  - intros q Hm. rewrite lookup_insert_ne, with_dirs_lookup by congruence.
    by case_decide.
  - intros q Hq1 Hq2. rewrite lookup_insert_ne, with_dirs_lookup.
    + rewrite decide_False; [done|]. intros [_ Hon]. rewrite app_nil_l in Hon.
      destruct (prefix_weak_total _ _ _ Hon Hparent); done.
    + intros <-. apply Hq1. by apply prefix_app_r.
Qed.

Lemma save_rows (l : list Archive.row) (m : fs) :
  unpacking src dst m1 m → (∀ r, r ∈ l → row_of src m1 r) →
  ∃ m2,
    for_ l (SinaraArchive_save_file (render dst)) m = (Return (), m2)
    ∧ unpacking src dst m1 m2
    ∧ (∀ r rel, r ∈ l → Forall (λ n, valid_name n = true) rel →
         Archive.relPath r = segments rel →
         m2 !! (dst ++ rel) = Some (File (Archive.content r))
         ∧ ∀ q, q ≠ [] → q `prefix_of` parent (dst ++ rel) → m2 !! q = Some Dir)
    ∧ (∀ q c, dst `prefix_of` q → m !! q = Some (File c) → m2 !! q = Some (File c))
    ∧ (∀ q, m !! q = Some Dir → m2 !! q = Some Dir)
    ∧ (∀ q, ¬ dst `prefix_of` q → ¬ q `prefix_of` dst → m2 !! q = m !! q).
Proof.
  revert m. induction l as [|r l IH]; intros m Hinv Hrows.
  { exists m. split; [done|]. split_and!; try done. intros r rel Hr. by apply elem_of_nil in Hr. }
  destruct (Hrows r ltac:(by left)) as (rel & Hne & Hvalid & Hpath & Hfile).
  destruct (save_row r rel m Hinv Hne Hvalid Hpath Hfile)
    as (m' & Hrun & Hinv' & Hwritten & Hdirs & HkeepF & HkeepD & Hframe).
  destruct (IH m' Hinv' ltac:(intros r' Hr'; apply Hrows; by right))
    as (m2 & Hrun2 & Hinv2 & Hall & HkeepF2 & HkeepD2 & Hframe2).
  exists m2. cbn [for_]. rewrite (bind_run _ _ _ _ _ Hrun). split; [exact Hrun2|].
  split_and!; [done| |..].
  - intros r' rel' [->|Hr']%elem_of_cons Hvalid' Hpath'; [|by apply Hall].
    assert (rel' = rel) as ->.
    { apply segments_inj; [done..|]. congruence. }
    split.
    + apply HkeepF2; [by apply prefix_app_r|done].
    + intros q Hq Hpre. by apply HkeepD2, Hdirs.
  - intros q c Hq Hm. by apply HkeepF2, HkeepF.
  - intros q Hm. by apply HkeepD2, HkeepD.
  - intros q Hq1 Hq2. by rewrite Hframe2, Hframe.
Qed.

End save_all.

(** ** Packing a tree without chunk groups *)

Lemma oversize_spec (self : SinaraArchive) (m : fs) (x : Path) :
  oversize self m x = true ↔ ∃ c, m !! x = Some (File c) ∧ ROW_SIZE self < Z.of_nat (length c).
Proof.
  unfold oversize. split.
  - destruct (m !! x) as [[c|]|]; [|done..]. intros H%Z.ltb_lt. by exists c.
  - intros (c & -> & H). by apply Z.ltb_lt.
Qed.

Section regular.
Context (self : SinaraArchive) (o : schedule) (env : setting) (cores : Z) (src : Path)
  (m : fs).
Hypothesis Hrow : 0 < ROW_SIZE self.
Hypothesis Hblock : 0 < BLOCK_SIZE self.
Hypothesis Henv : server_cores env = inr cores.
Hypothesis Hcores : 0 < cores.
Hypothesis Hsrcne : src ≠ [].
Hypothesis Hsrcplain : Forall (λ n, plain_dir_name n = true) src.
Hypothesis Hsrc : m !! src = Some Dir.
Hypothesis Hwf : ∀ q, strictly_below src q → is_Some (m !! q) →
  valid_name (name q) = true ∧ m !! parent q = Some Dir.
Hypothesis Hfilter : ∀ q, strictly_below src q → is_Some (m !! q) → in_pathlist q = true.
Hypothesis Htotal : total_of m (walked src m) < 2 ^ 53.
Hypothesis Hint : Z.max (cores * 3) (total_of m (walked src m) / BLOCK_SIZE self) < 2 ^ 31.

Lemma walked_elem (x : Path) : x ∈ walked src m ↔ strictly_below src x ∧ is_Some (m !! x).
Proof.
  unfold walked, is_dir. rewrite node_at_nonroot, Hsrc by done.
  rewrite !list_elem_of_filter, elem_of_entries. split; [tauto|].
  intros [Hx Hsome]. split_and!; [|done..]. apply Is_true_true. by apply Hfilter.
Qed.

Lemma pack_regular :
  ∃ df m1,
    pack_files_from_tmp_to_spark_df self o env (render src) m = (Return df, m1)
    ∧ (∀ p c, strictly_below src p → m !! p = Some (File c) →
         ROW_SIZE self < Z.of_nat (length c) → group_at (ROW_SIZE self) p c m1)
    ∧ (∀ q, (∀ p, strictly_below src p → oversize self m p = true →
               ¬ parts_path_of p `prefix_of` q) → m1 !! q = m !! q)
    ∧ (∀ q, (∃ p, strictly_below src p ∧ oversize self m p = true
                  ∧ parts_path_of p `prefix_of` q)
            ∨ m1 !! q = m !! q).
Proof.
  set (found := fs_order o (filter (strictly_below src) (entries m))).
  set (pathlist := filter (λ x, Is_true (in_pathlist x)) found).
  assert (Hperm : pathlist ≡ₚ walked src m).
  { unfold pathlist, found, walked, is_dir. rewrite node_at_nonroot, Hsrc by done.
    by rewrite fs_order_perm. }
  assert (Hin : ∀ x, x ∈ pathlist ↔ strictly_below src x ∧ is_Some (m !! x)).
  { intros x. by rewrite Hperm, walked_elem. }
  destruct (scan_pass_groups self pathlist 0 m Hrow) as (t & m1 & Hrun & Hgroups & Hframe).
  { unfold pathlist, found. apply NoDup_filter. rewrite fs_order_perm.
    apply NoDup_filter, NoDup_entries. }
  { intros x [Hx _]%Hin. by eapply strictly_below_nonroot. }
  { intros x y [Hx _]%Hin [Hy Hsome]%Hin Hne. by eapply (tree_apart src m). }
  { intros x c [Hx Hsome]%Hin Hm. split.
    - destruct (Hwf x Hx Hsome) as [_ Hparent].
      destruct (decide (parent x = [])) as [->|Hne]; [done|]. by rewrite node_at_nonroot.
    - intros q Hq. by eapply (tree_no_parts src m). }
  assert (Hm2 : ∀ q, (∀ p, strictly_below src p → oversize self m p = true →
                           ¬ parts_path_of p `prefix_of` q) → m1 !! q = m !! q).
  { intros q Hq. apply Hframe. intros x c [Hx _]%Hin Hm Hbig. apply Hq; [done|].
    apply oversize_spec. by exists c. }
  assert (Ht : t = total_of m (walked src m)).
  { apply scan_pass in Hrun.
    - by rewrite Hrun, Z.add_0_l, (total_of_Permutation _ _ _ Hperm).
    - apply Forall_forall. intros x [Hx Hsome]%Hin. by apply Hfilter. }
  assert (Hdir1 : is_dir m1 src = true).
  { unfold is_dir. rewrite node_at_nonroot by done. rewrite Hm2; [by rewrite Hsrc|].
    intros p Hp _ Hpre.
    pose proof (strictly_below_parts_path src p Hp) as [Hpp Hne].
    apply Hne. by apply (anti_symm prefix). }
  destruct (plain_dir_url src Hsrcne Hsrcplain) as (Hurl & Hlocal & Hres).
  eexists _, m1. split_and!.
  - unfold pack_files_from_tmp_to_spark_df. rewrite Hurl, Hres.
    cbn [of_sum]. unfold ret at 1, bind at 1 2, glob_rec. unfold is_dir at 1.
    rewrite node_at_nonroot, Hsrc by done.
    fold found. fold pathlist. rewrite (bind_run _ _ _ _ _ Hrun), Henv.
    cbn [of_sum]. unfold ret at 1, bind at 1.
    unfold plan_partitions. rewrite by_block_size_floor, Ht.
    + unfold bind at 1, ret at 1, bind at 1, read_binaryFile. rewrite Hlocal.
      unfold is_dir in Hdir1. destruct (node_at m1 src) as [nd|]; [|done].
      pose proof (total_of_nonneg m (walked src m)) as Hnonneg.
      assert (Hmax : (if cores * 3 <? total_of m (walked src m) / BLOCK_SIZE self
                      then total_of m (walked src m) / BLOCK_SIZE self else cores * 3)
                     = Z.max (cores * 3) (total_of m (walked src m) / BLOCK_SIZE self)).
      { destruct (Z.ltb_spec (cores * 3) (total_of m (walked src m) / BLOCK_SIZE self)); lia. }
      rewrite Hmax. unfold repartition.
      replace (_ && _) with true by (symmetry; apply andb_true_iff; split;
                                     [apply Z.leb_le|apply Z.ltb_lt]; lia).
      replace (0 <? _) with true by (symmetry; apply Z.ltb_lt; lia).
      done.
    + rewrite Ht. split; [apply total_of_nonneg|done].
    + done.
  - intros p c Hp Hm. apply Hgroups; [|done]. apply Hin. by rewrite Hm.
  - done.
  - intros q.
    destruct (decide (Exists (λ x, oversize self m x = true ∧ parts_path_of x `prefix_of` q)
                        pathlist)) as [Hex|Hno].
    + left. apply Exists_exists in Hex as (p & [Hp _]%Hin & Hbig & Hpre). by exists p.
    + right. apply Hm2. intros p Hp Hbig Hpre. apply Hno, Exists_exists. exists p.
      split; [|done]. apply Hin. split; [done|].
      apply oversize_spec in Hbig as (c & -> & _). done.
Qed.

End regular.

(** ** The packed tree *)

Lemma parent_app (d rel : Path) : rel ≠ [] → parent (d ++ rel) = d ++ parent rel.
Proof.
  intros Hne. destruct rel as [|x rel] using rev_ind; [done|].
  by rewrite (assoc_L (++)), !parent_snoc.
Qed.

Lemma name_app (d rel : Path) : rel ≠ [] → name (d ++ rel) = name rel.
Proof.
  intros Hne. destruct rel as [|x rel] using rev_ind; [done|].
  by rewrite (assoc_L (++)), !name_snoc.
Qed.

Lemma strictly_below_rel (d q : Path) :
  strictly_below d q ↔ ∃ rel, rel ≠ [] ∧ q = d ++ rel.
Proof.
  split; [apply strictly_below_inv|]. intros (rel & Hne & ->).
  rewrite <- (app_nil_r d) at 1. apply strictly_below_app. split; [apply prefix_nil|done].
Qed.

Lemma removelast_snoc {A : Type} (l : list A) (x : A) : removelast (l ++ [x]) = l.
Proof. apply removelast_last. Qed.

Section tree_dirs.
Context (src : Path) (m : fs) (P : string → Prop).
Hypothesis Hwf : ∀ q, strictly_below src q → is_Some (m !! q) →
  valid_name (name q) = true ∧ m !! parent q = Some Dir.
Hypothesis Hdirs : ∀ q, strictly_below src q → m !! q = Some Dir → P (name q).

Lemma tree_dir_names (rel : list string) : m !! (src ++ rel) = Some Dir → Forall P rel.
Proof.
  induction rel as [|x rel IH] using rev_ind; intros Hdir; [done|].
  assert (Hq : strictly_below src (src ++ rel ++ [x])).
  { apply strictly_below_rel. exists (rel ++ [x]). split; [by destruct rel|done]. }
  destruct (Hwf _ Hq ltac:(by rewrite Hdir)) as [_ Hparent].
  pose proof (Hdirs _ Hq Hdir) as Hx.
  rewrite (assoc_L (++)), name_snoc in Hx. rewrite (assoc_L (++)), parent_snoc in Hparent.
  apply Forall_app. split; [by apply IH|by constructor].
Qed.

Lemma tree_entry_dirs (rel : list string) :
  rel ≠ [] → is_Some (m !! (src ++ rel)) → Forall P (removelast rel).
Proof.
  intros Hne Hsome. destruct rel as [|x rel _] using rev_ind; [done|].
  rewrite removelast_snoc. apply tree_dir_names.
  assert (Hq : strictly_below src (src ++ rel ++ [x])).
  { apply strictly_below_rel. by exists (rel ++ [x]). }
  destruct (Hwf _ Hq Hsome) as [_ Hparent].
  by rewrite (assoc_L (++)), parent_snoc in Hparent.
Qed.

End tree_dirs.

Section packed.
Context (self : SinaraArchive) (src : Path) (m m1 : fs).
Hypothesis Hrow : 0 < ROW_SIZE self.
Hypothesis Hsrcne : src ≠ [].
Hypothesis Hsrcvalid : Forall (λ n, valid_name n = true) src.
Hypothesis Hsrc : m !! src = Some Dir.
Hypothesis Hwf : ∀ q, strictly_below src q → is_Some (m !! q) →
  valid_name (name q) = true ∧ m !! parent q = Some Dir.
Hypothesis Hfilter : ∀ q, strictly_below src q → is_Some (m !! q) → in_pathlist q = true.
Hypothesis Hdirs : ∀ q, strictly_below src q → m !! q = Some Dir →
  Py.endswith (name q) "file:" = false.
Hypothesis Hgroups : ∀ p c, strictly_below src p → m !! p = Some (File c) →
  ROW_SIZE self < Z.of_nat (length c) → group_at (ROW_SIZE self) p c m1.
Hypothesis Hframe : ∀ q,
  (∀ p, strictly_below src p → oversize self m p = true → ¬ parts_path_of p `prefix_of` q) →
  m1 !! q = m !! q.
Hypothesis Hcases : ∀ q,
  (∃ p, strictly_below src p ∧ oversize self m p = true ∧ parts_path_of p `prefix_of` q)
  ∨ m1 !! q = m !! q.

Lemma packed_entry (q : Path) :
  is_Some (m1 !! q) →
  (is_Some (m !! q) ∧ m1 !! q = m !! q)
  ∨ ∃ p c, strictly_below src p ∧ m !! p = Some (File c)
           ∧ ROW_SIZE self < Z.of_nat (length c) ∧ in_group (ROW_SIZE self) m1 p c q.
Proof.
  intros Hsome. destruct (Hcases q) as [(p & Hp & Hbig & Hpre)|Heq].
  - right. apply oversize_spec in Hbig as (c & Hm & Hbig). exists p, c.
    split_and!; [done..|].
    destruct (Hgroups p c Hp Hm Hbig) as (G1 & G2 & G3 & G4).
    destruct (G4 q Hpre Hsome) as [->|[->|(j & Hj & ->)]].
    + by left.
    + right; by left.
    + right; right. exists j. split_and!; [done..|]. by apply G3.
  - left. by rewrite <- Heq.
Qed.

Lemma kept_entry (q : Path) : is_Some (m !! q) → m1 !! q = m !! q.
Proof.
  intros Hsome. apply Hframe. intros p Hp _ Hpre.
  rewrite (tree_no_parts src m Hwf Hfilter p q) in Hsome by done. by destruct Hsome.
Qed.

Lemma in_group_length (p : Path) (c : list byte) (q : Path) :
  in_group (ROW_SIZE self) m1 p c q →
  (length (parts_path_of p) ≤ length q ≤ S (length (parts_path_of p)))%nat.
Proof.
  intros [[-> _]|[[-> _]|(j & _ & -> & _)]];
    unfold chunk_filename; rewrite ?length_app; simpl; lia.
Qed.

Lemma in_group_prefix (p : Path) (c : list byte) (q : Path) :
  in_group (ROW_SIZE self) m1 p c q → parts_path_of p `prefix_of` q.
Proof.
  intros [[-> _]|[[-> _]|(j & _ & -> & _)]]; unfold chunk_filename;
    first [reflexivity|by apply prefix_app_r].
Qed.

Lemma in_group_file (p : Path) (c c' : list byte) (q : Path) :
  in_group (ROW_SIZE self) m1 p c q → m1 !! q = Some (File c') →
  ∃ z, q = parts_path_of p ++ [z] ∧ valid_name z = true
       ∧ Z.of_nat (length c') ≤ ROW_SIZE self.
Proof.
  intros [[-> Hd]|[[-> Hs]|(j & _ & -> & Hj)]] Hfile.
  - congruence.
  - exists "_PARTS". split_and!; [done..|]. assert (c' = []) as -> by congruence. simpl. lia.
  - exists (part_name (N.of_nat j)). split_and!; [done|apply valid_name_part_name|].
    assert (c' = take (Z.to_nat (ROW_SIZE self)) (drop (j * Z.to_nat (ROW_SIZE self)) c))
      as -> by congruence.
    rewrite length_take. lia.
Qed.

(** In the packed tree, too, a file has nothing below it. *)
Lemma packed_file_leaf (rel rel' : list string) (c : list byte) :
  m1 !! (src ++ rel) = Some (File c) → strictly_below rel rel' →
  m1 !! (src ++ rel') = None.
Proof.
  intros Hfile Hbelow. set (q := src ++ rel) in *. set (q' := src ++ rel').
  assert (Hqq : strictly_below q q') by (by apply strictly_below_app).
  destruct (m1 !! q') as [x|] eqn:Hq'; [exfalso|done].
  assert (Hsq : src `prefix_of` q) by (by apply prefix_app_r).
  destruct (packed_entry q' ltac:(by rewrite Hq'))
    as [[Hsome' _]|(p & c' & Hp & Hm & Hbig & Hin)].
  - assert (Hdir : m !! q = Some Dir).
    { destruct (decide (q = src)) as [->|Hne]; [done|].
      apply (tree_ancestors src m Hwf q q'); [|done|done|by destruct Hqq..].
      eapply strictly_below_trans; [|by destruct Hqq]. by split. }
    rewrite kept_entry in Hfile by (by rewrite Hdir). congruence.
  - pose proof (in_group_length p c' q' Hin) as Hlen'.
    pose proof (in_group_prefix p c' q' Hin) as Hpre'.
    assert (Hshort : (length q < length q')%nat).
    { destruct Hqq as [Hpre Hne]. pose proof (prefix_length _ _ Hpre).
      destruct (decide (length q = length q')) as [Heq|]; [|lia].
      destruct Hne. apply prefix_length_eq; [done|lia]. }
    destruct (Hgroups p c' Hp Hm Hbig) as (G1 & _).
    destruct (prefix_weak_total _ _ _ (proj1 Hqq) Hpre') as [Hqp|Hpq].
    2: { assert (parts_path_of p = q) as Heq.
         { apply prefix_length_eq; [done|]. apply prefix_length in Hpq. lia. }
         rewrite <- Heq in Hfile. congruence. }
    assert (Hne : q ≠ parts_path_of p) by (intros Heq; rewrite Heq in Hfile; congruence).
    assert (Hqparent : q `prefix_of` parent p).
    { apply prefix_parent in Hqp; [|done]. unfold parts_path_of in Hqp.
      by rewrite parent_snoc in Hqp. }
    assert (Hpdir : m !! parent p = Some Dir).
    { by destruct (Hwf p Hp ltac:(by rewrite Hm)). }
    destruct (packed_entry q ltac:(by rewrite Hfile))
      as [[Hsome Heq]|(p2 & c2 & Hp2 & Hm2 & Hbig2 & Hin2)].
    + rewrite Heq in Hfile.
      destruct (decide (q = parent p)) as [Hqe|Hqne]; [congruence|].
      rewrite (tree_file_leaf src m Hsrc Hwf Hfilter q (parent p) c) in Hpdir; done.
    + pose proof (in_group_prefix p2 c2 q Hin2) as Hpre2.
      assert (Hpp : parts_path_of p2 `prefix_of` p).
      { etrans; [exact Hpre2|]. etrans; [exact Hqparent|].
        rewrite (path_parent_name p) at 2 by (by eapply strictly_below_nonroot).
        by apply prefix_app_r. }
      by rewrite (tree_no_parts src m Hwf Hfilter p2 p) in Hm.
Qed.

(** The names on the way to an entry of the packed tree are names. *)
Lemma packed_names (rel : list string) :
  is_Some (m1 !! (src ++ rel)) → Forall (λ n, valid_name n = true) rel.
Proof.
  intros Hsome.
  destruct (packed_entry _ Hsome) as [[Hsome' _]|(p & c & Hp & Hm & Hbig & Hin)].
  { by apply (tree_names src m Hwf). }
  apply strictly_below_rel in Hp as (relp & Hne & ->).
  assert (Hvalid : Forall (λ n, valid_name n = true) relp).
  { apply (tree_names src m Hwf). by rewrite Hm. }
  assert (Hpp : parts_path_of (src ++ relp) = src ++ parent relp ++ [name relp +:+ ".parts"]).
  { unfold parts_path_of. by rewrite parent_app, name_app, (assoc_L (++)) by done. }
  rewrite (path_parent_name relp Hne) in Hvalid. apply Forall_app in Hvalid as [Hv1 Hv2].
  apply (proj1 (Forall_singleton _ _)) in Hv2.
  assert (Hvpp : Forall (λ n, valid_name n = true) (parent relp ++ [name relp +:+ ".parts"])).
  { apply Forall_app. split; [done|]. apply Forall_singleton. by apply valid_name_parts. }
  unfold in_group in Hin. rewrite Hpp in Hin. unfold chunk_filename in Hin.
  destruct Hin as [[Heq _]|[[Heq _]|(j & _ & Heq & _)]].
  - apply (inj (app src)) in Heq as ->. done.
  - rewrite <- !(assoc_L (++)) in Heq. apply (inj (app src)) in Heq as ->.
    rewrite (assoc_L (++)). apply Forall_app. split; [done|]. by apply Forall_singleton.
  - rewrite <- !(assoc_L (++)) in Heq. apply (inj (app src)) in Heq as ->.
    rewrite (assoc_L (++)). apply Forall_app. split; [done|].
    apply Forall_singleton, valid_name_part_name.
Qed.

(** No directory on the way to a file of the packed tree has a name ending
    in [file:]. *)
Lemma packed_dirs (rel : list string) (c : list byte) :
  m1 !! (src ++ rel) = Some (File c) →
  Forall (λ n, Py.endswith n "file:" = false) (removelast rel).
Proof.
  intros Hfile.
  destruct (decide (rel = [])) as [->|Hrel]; [done|].
  destruct (packed_entry (src ++ rel) ltac:(by rewrite Hfile))
    as [[Hsome' _]|(p & c' & Hp & Hm & Hbig & Hin)].
  { by apply (tree_entry_dirs src m _ Hwf Hdirs). }
  destruct (in_group_file p c' c _ Hin Hfile) as (z & Heq & _).
  apply strictly_below_rel in Hp as (relp & Hne & ->).
  assert (Hpp : parts_path_of (src ++ relp) = src ++ parent relp ++ [name relp +:+ ".parts"]).
  { unfold parts_path_of. by rewrite parent_app, name_app, (assoc_L (++)) by done. }
  rewrite Hpp, <- !(assoc_L (++)) in Heq. apply (inj (app src)) in Heq as ->.
  rewrite !(assoc_L (++)), removelast_snoc. apply Forall_app. split.
  - apply (tree_entry_dirs src m _ Hwf Hdirs relp Hne). by rewrite Hm.
  - apply Forall_singleton, endswith_parts_other.
Qed.

(** The row of a file of the packed tree. *)
Lemma packed_row (rel : list string) (c : list byte) :
  rel ≠ [] → m1 !! (src ++ rel) = Some (File c) →
  archive_row (render src) (src ++ rel) c
  = {| Archive.length := Z.of_nat (length c); Archive.content := c;
       Archive.relPath := segments rel |}.
Proof.
  intros Hne Hfile. unfold archive_row, with_relPath, binary_row. simpl. f_equal.
  rewrite render_app, <- string_app_assoc by done.
  apply regexp_replace_prefix; [done|].
  assert (∃ v, render src = "/" +:+ v) as [v ->].
  { clear -Hsrcne. destruct src as [|n src']; [done|]. by exists (n +:+ segments src'). }
  apply (segments_no_match "file:" v rel); [done..| |].
  - apply packed_names. by rewrite Hfile.
  - by eapply packed_dirs.
Qed.

End packed.

(** ** Joining the unpacked chunk groups *)

Lemma chunk_indices (data : list byte) (chunk_size : Z) :
  let size := Z.to_nat chunk_size in
  let count := Z.to_nat ((Z.of_nat (length data) + chunk_size - 1) / chunk_size) in
  let idx := N.of_nat <$> seq 0 count in
  0 < chunk_size → Z.of_nat (length data) ≤ 10000 * chunk_size →
  NoDup idx
  ∧ StronglySorted (λ i j, (part_name i ≤ part_name j)%string) idx
  ∧ (∀ j, j ∈ idx ↔ (N.to_nat j < count)%nat)
  ∧ concat ((λ j : N, take size (drop (N.to_nat j * size) data)) <$> idx) = data.
Proof.
  intros size count idx Hc Hsize.
  assert (Hcount : (count ≤ 100 * 100)%nat).
  { destruct (decide (count ≤ 100 * 100)%nat) as [|Hgt]; [done|].
    assert (100 * 100 < count)%nat as Hlt by lia.
    apply ceil_div_spec in Hlt; lia. }
  split_and!.
  - apply (NoDup_fmap_2 _), NoDup_seq.
  - assert (Hle : (0 + N.of_nat count ≤ 10000)%N) by lia.
    pose proof (part_names_sorted 0 count Hle) as Hs.
    erewrite list_fmap_ext in Hs; [exact Hs|]. intros i k _. simpl. lia.
  - intros j. unfold idx. rewrite list_elem_of_fmap. split.
    + intros (k & -> & Hk%elem_of_seq). lia.
    + intros Hj. exists (N.to_nat j). split; [lia|]. apply elem_of_seq. lia.
  - unfold idx. rewrite <- list_fmap_compose.
    erewrite list_fmap_ext; [rewrite (concat_chunks size data count)|].
    + apply take_ge. destruct (decide (count * size < length data)%nat) as [Hlt|]; [|lia].
      assert (count < count)%nat; [|lia]. apply ceil_div_spec; lia.
    + intros i k _. simpl. by rewrite Nat2N.id.
Qed.

Lemma group_of_rel (src dst : Path) (m : fs) (relp : list string) (c : list byte) :
  relp ≠ [] → m !! (src ++ relp) = Some (File c) →
  group_of src dst m (src ++ relp) = (dst ++ parent relp, name relp, c)
  ∧ gdir (group_of src dst m (src ++ relp)) = dst ++ parent relp ++ [name relp +:+ ".parts"]
  ∧ gfile (group_of src dst m (src ++ relp)) = dst ++ relp.
Proof.
  intros Hne Hm.
  assert (Hg : group_of src dst m (src ++ relp) = (dst ++ parent relp, name relp, c)).
  { unfold group_of, content_of. by rewrite Hm, parent_app, name_app, drop_app_length. }
  rewrite Hg. unfold gdir, gfile. simpl. split_and!; [done|by rewrite (assoc_L (++))|].
  by rewrite <- (assoc_L (++)), <- path_parent_name.
Qed.

Section joined.
Context (self : SinaraArchive) (src dst : Path) (m m1 m2 : fs).
Hypothesis Hrow : 0 < ROW_SIZE self.
Hypothesis Hsrcne : src ≠ [].
Hypothesis Hsrc : m !! src = Some Dir.
Hypothesis Hwf : ∀ q, strictly_below src q → is_Some (m !! q) →
  valid_name (name q) = true ∧ m !! parent q = Some Dir.
Hypothesis Hfilter : ∀ q, strictly_below src q → is_Some (m !! q) → in_pathlist q = true.
Hypothesis Hsize : ∀ p c, strictly_below src p → m !! p = Some (File c) →
  Z.of_nat (length c) ≤ 10000 * ROW_SIZE self.
Hypothesis Hgroups : ∀ p c, strictly_below src p → m !! p = Some (File c) →
  ROW_SIZE self < Z.of_nat (length c) → group_at (ROW_SIZE self) p c m1.
Hypothesis Hframe : ∀ q,
  (∀ p, strictly_below src p → oversize self m p = true → ¬ parts_path_of p `prefix_of` q) →
  m1 !! q = m !! q.
Hypothesis Hcases : ∀ q,
  (∃ p, strictly_below src p ∧ oversize self m p = true ∧ parts_path_of p `prefix_of` q)
  ∨ m1 !! q = m !! q.
Hypothesis Hinv : unpacking src dst m1 m2.
Hypothesis Hnonempty : ∀ p c, strictly_below src p → m !! p = Some (File c) → c ≠ [].
Hypothesis Hwritten : ∀ rel c,
  rel ≠ [] → m1 !! (src ++ rel) = Some (File c) → Z.of_nat (length c) ≤ ROW_SIZE self →
  c ≠ [] →
  m2 !! (dst ++ rel) = Some (File c)
  ∧ ∀ q, q ≠ [] → q `prefix_of` parent (dst ++ rel) → m2 !! q = Some Dir.

Lemma oversized_elem (p : Path) :
  p ∈ oversized self src m
  ↔ ∃ relp c, relp ≠ [] ∧ p = src ++ relp ∧ m !! p = Some (File c)
              ∧ ROW_SIZE self < Z.of_nat (length c).
Proof.
  unfold oversized. rewrite !list_elem_of_filter, Is_true_true, oversize_spec. split.
  - intros ((c & Hm & Hbig) & (relp & Hne & ->)%strictly_below_rel & _). by exists relp, c.
  - intros (relp & c & Hne & -> & Hm & Hbig). split_and!.
    + by exists c.
    + apply strictly_below_rel. by exists relp.
    + apply elem_of_entries. by rewrite Hm.
Qed.

(** What the rows of one split file leave below [dst]. *)
Lemma unpacked_group (relp : list string) (c : list byte) :
  let relpp := parent relp ++ [name relp +:+ ".parts"] in
  let size := Z.to_nat (ROW_SIZE self) in
  let count := Z.to_nat ((Z.of_nat (length c) + ROW_SIZE self - 1) / ROW_SIZE self) in
  relp ≠ [] → m !! (src ++ relp) = Some (File c) → ROW_SIZE self < Z.of_nat (length c) →
  parts_path_of (src ++ relp) = src ++ relpp
  ∧ m2 !! (dst ++ relpp) = Some Dir
  ∧ node_at m2 (dst ++ parent relp) = Some Dir
  ∧ node_at m2 dst = Some Dir
  ∧ (∀ j, (j < count)%nat →
       m2 !! chunk_filename (dst ++ relpp) (N.of_nat j)
       = Some (File (take size (drop (j * size) c))))
  ∧ (∀ x, is_Some (m2 !! ((dst ++ relpp) ++ [x])) → Py.startswith x "part-" = true →
       ∃ j, (j < count)%nat ∧ x = part_name (N.of_nat j)).
Proof.
  intros relpp size count Hne Hm Hbig.
  assert (Hp : strictly_below src (src ++ relp)) by (apply strictly_below_rel; by exists relp).
  assert (Hpp : parts_path_of (src ++ relp) = src ++ relpp).
  { unfold parts_path_of, relpp. by rewrite parent_app, name_app, (assoc_L (++)) by done. }
  assert (Hrelpp : relpp ≠ []) by (unfold relpp; by destruct (parent relp)).
  assert (Hdpp : dst ++ relpp ≠ []) by (by destruct dst, relpp).
  destruct (Hgroups _ c Hp Hm Hbig) as (G1 & G2 & G3 & G4). rewrite Hpp in G1, G2, G3, G4.
  assert (Hchunk : ∀ j, (j < count)%nat → take size (drop (j * size) c) ≠ []).
  { intros j Hj. apply ceil_div_spec in Hj; [|lia..]. intros Hnil%(f_equal length).
    rewrite length_take, length_drop in Hnil. simpl in Hnil. unfold size in Hnil. lia. }
  assert (Hcount : (0 < count)%nat) by (apply ceil_div_spec; lia).
  assert (Hfirst : m1 !! (src ++ relpp ++ [part_name 0])
                   = Some (File (take size (drop (0 * size) c)))).
  { rewrite (assoc_L (++)). by apply (G3 0%nat). }
  destruct (Hwritten (relpp ++ [part_name 0]) _ ltac:(by destruct relpp) Hfirst
              ltac:(rewrite length_take; lia) (Hchunk 0%nat Hcount)) as [_ Hway].
  rewrite (assoc_L (++)), parent_snoc in Hway.
  split_and!.
  - done.
  - by apply Hway.
  - destruct (decide (dst ++ parent relp = [])) as [->|Hd]; [done|].
    rewrite node_at_nonroot by done. apply Hway; [done|].
    apply prefix_app. by apply prefix_app_r.
  - destruct (decide (dst = [])) as [->|Hd]; [done|].
    rewrite node_at_nonroot by done. apply Hway; [done|]. by apply prefix_app_r.
  - intros j Hj. unfold chunk_filename in *. rewrite <- (assoc_L (++)).
    apply Hwritten; [by destruct relpp|by rewrite (assoc_L (++)), G3| |by apply Hchunk].
    rewrite length_take. lia.
  - intros x Hsome Hstart. rewrite <- (assoc_L (++)) in Hsome.
    destruct Hinv as (Hb & Hc & _).
    assert (Hentry : is_Some (m1 !! ((src ++ relpp) ++ [x])) → 
              ∃ j, (j < count)%nat ∧ x = part_name (N.of_nat j)).
    { intros Hin. destruct (G4 _ ltac:(by apply prefix_app_r) Hin) as [Heq|[Heq|(j & Hj & Heq)]].
      - by apply snoc_ne_self in Heq.
      - apply app_inj_tail in Heq as [_ ->]. done.
      - unfold chunk_filename in Heq. apply app_inj_tail in Heq as [_ ->]. by exists j. }
    destruct (m2 !! (dst ++ relpp ++ [x])) as [[c'|]|] eqn:Hx; [| |by destruct Hsome].
    + destruct (Hb _ c' ltac:(by apply prefix_app_r) Hx) as (rel0 & Heq & _ & Hm1).
      apply (inj (app dst)) in Heq as <-. apply Hentry.
      by rewrite <- (assoc_L (++)), Hm1.
    + destruct (Hc (dst ++ relpp ++ [x])) as (rel0 & rel' & c' & Heq & Hbelow & Hm1); [|done|].
      { apply strictly_below_rel. exists (relpp ++ [x]). split; [by destruct relpp|done]. }
      apply (inj (app dst)) in Heq as <-. exfalso.
      assert (Hunder : src ++ relpp `prefix_of` src ++ rel').
      { apply prefix_app. etrans; [|by destruct Hbelow]. by apply prefix_app_r. }
      assert (Hlen : (length rel' ≤ S (length relpp))%nat).
      { destruct (G4 _ Hunder ltac:(by rewrite Hm1)) as [Heq|[Heq|(j & Hj & Heq)]];
          apply (f_equal length) in Heq; unfold chunk_filename in Heq;
          rewrite !length_app in Heq; simpl in Heq; lia. }
      destruct Hbelow as [Hpre Hne']. apply Hne', prefix_length_eq; [done|].
      rewrite length_app. simpl. lia.
Qed.

Lemma unpacked_chunk_group (p : Path) :
  p ∈ oversized self src m → chunk_group m2 (group_of src dst m p).
Proof.
  intros (relp & c & Hne & -> & Hm & Hbig)%oversized_elem.
  destruct (group_of_rel src dst m relp c Hne Hm) as (-> & _ & _).
  destruct (unpacked_group relp c Hne Hm Hbig) as (Hpp & Hdir & Hparent & _ & Hchunks & Honly).
  assert (Hp : strictly_below src (src ++ relp)) by (apply strictly_below_rel; by exists relp).
  destruct (chunk_indices c (ROW_SIZE self) Hrow (Hsize _ c Hp Hm))
    as (Hnd & Hsorted & Hidx & Hconcat).
  rewrite <- Hconcat at 1. rewrite (assoc_L (++)) in Hdir, Hchunks, Honly.
  apply chunk_group_of_chunks.
  - destruct (Hwf _ Hp ltac:(by rewrite Hm)) as [Hn _]. by rewrite name_app in Hn.
  - done.
  - done.
  - rewrite <- (assoc_L (++)), <- path_parent_name by done.
    rewrite node_at_nonroot by (by destruct dst, relp). intros Hd.
    destruct Hinv as (_ & Hc & _).
    destruct (Hc (dst ++ relp)) as (rel0 & rel' & c' & Heq & Hbelow & Hm1); [|done|].
    { apply strictly_below_rel. by exists relp. }
    apply (inj (app dst)) in Heq as <-.
    pose proof (packed_file_leaf self src m m1) as Hleaf.
    rewrite (Hleaf Hsrc Hwf Hfilter Hgroups Hframe Hcases relp rel' c) in Hm1; [done| |done].
    rewrite (kept_entry self src m m1 Hwf Hfilter Hframe) by (by rewrite Hm). done.
  - done.
  - done.
  - intros j Hj%Hidx. rewrite <- (N2Nat.id j) at 1. by apply Hchunks.
  - intros x Hsome Hstart. destruct (Honly x Hsome Hstart) as (k & Hk & ->).
    exists (N.of_nat k). split; [|done]. apply Hidx. by rewrite Nat2N.id.
Qed.

(** An ancestor below [src] of an entry of the source tree does not have a
    name ending in [.parts]. *)
Lemma tree_dir_not_parts (a q : Path) :
  strictly_below src a → a `prefix_of` q → is_Some (m !! q) →
  Py.endswith (name a) ".parts" = false.
Proof.
  intros Ha Hpre Hsome.
  assert (Hq : strictly_below src q) by (by eapply strictly_below_trans).
  assert (Hentry : is_Some (m !! a)).
  { destruct (decide (a = q)) as [->|Hne]; [done|].
    rewrite (tree_ancestors src m Hwf a q); [done..|by destruct Ha|done|done]. }
  pose proof (Hfilter a Ha Hentry) as Hin. unfold in_pathlist in Hin.
  apply andb_true_iff in Hin as [Hin _]. by apply negb_true_iff in Hin.
Qed.

(** The only directories below [dst] with a name ending in [.parts] are the
    chunk groups of the split files. *)
Lemma unpacked_parts_dirs (q : Path) :
  strictly_below dst q → Py.endswith (name q) ".parts" = true → m2 !! q = Some Dir →
  q ∈ gdir <$> (group_of src dst m <$> oversized self src m).
Proof.
  intros Hq Hends Hdir. destruct Hinv as (_ & Hc & _).
  destruct (Hc q Hq Hdir) as (rel & rel' & c & -> & [Hpre Hne] & Hm1).
  assert (Hrel : rel ≠ []).
  { intros ->. rewrite app_nil_r in Hq. by destruct Hq. }
  rewrite name_app in Hends by done.
  assert (Ha : strictly_below src (src ++ rel)) by (apply strictly_below_rel; by exists rel).
  assert (Hnot : ∀ q', src ++ rel `prefix_of` q' → is_Some (m !! q') → False).
  { intros q' Hpre' Hsome.
    pose proof (tree_dir_not_parts (src ++ rel) q' Ha Hpre' Hsome) as Hno.
    rewrite name_app in Hno by done. congruence. }
  destruct (packed_entry self src m m1 Hgroups Hcases (src ++ rel') ltac:(by rewrite Hm1))
    as [[Hsome _]|(p & c' & Hp & Hm & Hbig & Hin)].
  { destruct (Hnot (src ++ rel')); [by apply prefix_app|done]. }
  destruct (in_group_file self m1 Hrow p c' c _ Hin Hm1) as (z & Heq & _).
  assert (Happ : src ++ rel `prefix_of` parts_path_of p).
  { assert (Hpre' : src ++ rel `prefix_of` parts_path_of p ++ [z])
      by (rewrite <- Heq; by apply prefix_app).
    apply prefix_of_snoc in Hpre' as [Heq'|]; [|done].
    rewrite <- Heq' in Heq. apply (inj (app src)) in Heq. by destruct Hne. }
  apply strictly_below_rel in Hp as Hp'. destruct Hp' as (relp & Hrelp & ->).
  destruct (decide (src ++ rel = parts_path_of (src ++ relp))) as [Hsame|Hdiff].
  - apply list_elem_of_fmap. exists (group_of src dst m (src ++ relp)). split.
    + destruct (group_of_rel src dst m relp c' Hrelp Hm) as (_ & -> & _).
      assert (Hpp : parts_path_of (src ++ relp)
                    = src ++ parent relp ++ [name relp +:+ ".parts"]).
      { unfold parts_path_of. by rewrite parent_app, name_app, (assoc_L (++)) by done. }
      rewrite Hpp in Hsame. by apply (inj (app src)) in Hsame as ->.
    + apply list_elem_of_fmap_2, oversized_elem. by exists relp, c'.
  - exfalso. apply (Hnot (parent (src ++ relp))).
    + apply prefix_parent in Happ; [|done]. unfold parts_path_of in Happ.
      by rewrite parent_snoc in Happ.
    + destruct (Hwf _ Hp ltac:(by rewrite Hm)) as [_ ->]. done.
Qed.

Lemma groups_apart (p p' : Path) :
  p ∈ oversized self src m → p' ∈ oversized self src m →
  ¬ gdir (group_of src dst m p) `prefix_of` gfile (group_of src dst m p')
  ∧ (gdir (group_of src dst m p) `prefix_of` gdir (group_of src dst m p') → p = p').
Proof.
  intros (relp & c & Hne & -> & Hm & Hbig)%oversized_elem
         (relp' & c' & Hne' & -> & Hm' & Hbig')%oversized_elem.
  destruct (group_of_rel src dst m relp c Hne Hm) as (_ & Hd & Hf).
  destruct (group_of_rel src dst m relp' c' Hne' Hm') as (_ & Hd' & Hf').
  assert (Hp : strictly_below src (src ++ relp)) by (apply strictly_below_rel; by exists relp).
  assert (Hp' : strictly_below src (src ++ relp')) by (apply strictly_below_rel; by exists relp').
  assert (Hpp : ∀ r : list string, r ≠ [] →
            parts_path_of (src ++ r) = src ++ parent r ++ [name r +:+ ".parts"]).
  { intros r Hr. unfold parts_path_of. by rewrite parent_app, name_app, (assoc_L (++)) by done. }
  rewrite Hd, Hd', Hf'. split.
  - intros Hpre%prefix_app_inv.
    assert (Hpre' : parts_path_of (src ++ relp) `prefix_of` src ++ relp')
      by (rewrite Hpp by done; by apply prefix_app).
    by rewrite (tree_no_parts src m Hwf Hfilter _ _ Hp Hpre') in Hm'.
  - intros Hpre%prefix_app_inv.
    destruct (decide (src ++ relp = src ++ relp')) as [|Hdiff]; [done|]. exfalso.
    destruct (tree_apart src m Hwf Hfilter (src ++ relp) (src ++ relp') Hp Hp'
                ltac:(by rewrite Hm') Hdiff) as [_ Hapart].
    apply Hapart. rewrite !Hpp by done. by apply prefix_app.
Qed.

Lemma join_unpacked (o : schedule) :
  Forall (λ n, valid_name n = true) dst →
  ∃ m3,
    _join_parts o (render dst) m2 = (Return (), m3)
    ∧ (∀ rel c, rel ≠ [] → m !! (src ++ rel) = Some (File c) →
         m3 !! (dst ++ rel) = Some (File c))
    ∧ (∀ rel c, rel ≠ [] → m3 !! (dst ++ rel) = Some (File c) →
         m !! (src ++ rel) = Some (File c))
    ∧ (∀ q, ¬ dst `prefix_of` q → m3 !! q = m2 !! q).
Proof.
  intros Hdst. set (gs := group_of src dst m <$> oversized self src m).
  assert (Hgs : ∀ g, g ∈ gs ↔ ∃ relp c, relp ≠ [] ∧ m !! (src ++ relp) = Some (File c)
                  ∧ ROW_SIZE self < Z.of_nat (length c)
                  ∧ src ++ relp ∈ oversized self src m
                  ∧ g = (dst ++ parent relp, name relp, c)
                  ∧ gdir g = dst ++ parent relp ++ [name relp +:+ ".parts"]
                  ∧ gfile g = dst ++ relp).
  { intros g. unfold gs. rewrite list_elem_of_fmap. split.
    - intros (p & -> & Hp). pose proof Hp as Hp'.
      apply oversized_elem in Hp' as (relp & c & Hne & -> & Hm & Hbig).
      destruct (group_of_rel src dst m relp c Hne Hm) as (Hg & Hd & Hf).
      exists relp, c. by rewrite <- Hg.
    - intros (relp & c & Hne & Hm & Hbig & Hin & -> & _). exists (src ++ relp).
      split; [|done]. by destruct (group_of_rel src dst m relp c Hne Hm) as (-> & _). }
  assert (Hjoin : ∃ m3, _join_parts o (render dst) m2 = (Return (), m3)
            ∧ (∀ g q, g ∈ gs → gdir g `prefix_of` q → m3 !! q = None)
            ∧ (∀ g, g ∈ gs → m3 !! gfile g = Some (File g.2))
            ∧ (∀ q, (∀ g, g ∈ gs → ¬ gdir g `prefix_of` q ∧ q ≠ gfile g) →
                 m3 !! q = m2 !! q)).
  { destruct (decide (oversized self src m = [])) as [Hnil|Hnn].
    - assert (Hempty : ∀ g, g ∉ gs).
      { intros g. unfold gs. rewrite Hnil. apply not_elem_of_nil. }
      exists m2. split; [|split_and!].
      + apply join_parts_nothing. rewrite resolve_render by done.
        intros q Hq Hends Hdir. pose proof (unpacked_parts_dirs q Hq Hends Hdir) as Hin.
        rewrite Hnil in Hin. by apply elem_of_nil in Hin.
      + intros g q Hg. by destruct (Hempty g).
      + intros g Hg. by destruct (Hempty g).
      + done.
    - assert (∃ p0, p0 ∈ oversized self src m) as [p0 Hp0].
      { destruct (oversized self src m) as [|p0 ?]; [done|]. exists p0. by left. }
      apply join_parts_spec.
      + rewrite resolve_render by done.
        apply oversized_elem in Hp0 as (relp & c & Hne & -> & Hm & Hbig).
        destruct (unpacked_group relp c Hne Hm Hbig) as (_ & _ & _ & Hd & _).
        unfold is_dir. by rewrite Hd.
      + unfold gs. rewrite <- list_fmap_compose. apply NoDup_fmap_2_strong.
        * intros p p' Hp Hp' Heq. apply (groups_apart p p' Hp Hp'). simpl in Heq.
          by rewrite Heq.
        * unfold oversized. do 2 apply NoDup_filter. apply NoDup_entries.
      + intros g g'. unfold gs. rewrite !list_elem_of_fmap.
        intros (p & -> & Hp) (p' & -> & Hp').
        destruct (groups_apart p p' Hp Hp') as [H1 H2]. split; [done|].
        intros Hpre. by rewrite (H2 Hpre).
      + intros g (p & -> & Hp)%list_elem_of_fmap. by apply unpacked_chunk_group.
      + rewrite resolve_render by done. intros g (relp & c & Hne & _ & _ & _ & _ & -> & _)%Hgs.
        apply strictly_below_rel. eexists. split; [|done]. by destruct (parent relp).
      + rewrite resolve_render by done. apply unpacked_parts_dirs. }
  destruct Hjoin as (m3 & Hrun & J1 & J2 & J3). exists m3. split; [exact Hrun|].
  assert (Hkept : ∀ q, is_Some (m !! q) → m1 !! q = m !! q)
    by apply (kept_entry self src m m1 Hwf Hfilter Hframe).
  split_and!.
  - intros rel c Hne Hm.
    assert (Hp : strictly_below src (src ++ rel)) by (apply strictly_below_rel; by exists rel).
    destruct (Z.lt_ge_cases (ROW_SIZE self) (Z.of_nat (length c))) as [Hbig|Hsmall].
    + assert (Hin : src ++ rel ∈ oversized self src m)
        by (apply oversized_elem; by exists rel, c).
      destruct (group_of_rel src dst m rel c Hne Hm) as (Hg & _ & Hf).
      rewrite <- Hf, (J2 (group_of src dst m (src ++ rel))).
      * by rewrite Hg.
      * by apply list_elem_of_fmap_2.
    + rewrite J3.
      * apply Hwritten; [done| |done|by eapply Hnonempty].
        by rewrite Hkept by (by rewrite Hm).
      * intros g (relp & c' & Hne' & Hm' & Hbig' & _ & _ & -> & ->)%Hgs. split.
        -- intros Hpre%prefix_app_inv.
           assert (Hp' : strictly_below src (src ++ relp))
             by (apply strictly_below_rel; by exists relp).
           rewrite (tree_no_parts src m Hwf Hfilter (src ++ relp) (src ++ rel)) in Hm;
             [done..|].
           unfold parts_path_of.
           rewrite parent_app, name_app, <- (assoc_L (++)) by done. by apply prefix_app.
        -- intros Heq%(inj (app dst)). subst relp. assert (c' = c) by congruence. subst. lia.
  - intros rel c Hne Hm3.
    destruct (decide (Exists (λ g, gdir g `prefix_of` dst ++ rel ∨ dst ++ rel = gfile g) gs))
      as [Hex|Hno].
    + apply Exists_exists in Hex as (g & Hg & [Hpre|Heq]).
      * by rewrite (J1 g _ Hg Hpre) in Hm3.
      * rewrite Heq, (J2 g Hg) in Hm3.
        apply Hgs in Hg as (relp & c' & _ & Hm & _ & _ & -> & _ & Hf).
        rewrite Hf in Heq. apply (inj (app dst)) in Heq as ->. simpl in Hm3. congruence.
    + rewrite J3 in Hm3.
      2: { intros g Hg. split; intros H; apply Hno, Exists_exists; exists g; tauto. }
      destruct Hinv as (Hb & _).
      destruct (Hb _ c ltac:(by apply prefix_app_r) Hm3) as (rel0 & Heq & _ & Hm1).
      apply (inj (app dst)) in Heq as <-.
      destruct (packed_entry self src m m1 Hgroups Hcases (src ++ rel) ltac:(by rewrite Hm1))
        as [[_ Heq]|(p & c' & Hp & Hm & Hbig & Hin)]; [congruence|].
      exfalso. apply Hno, Exists_exists.
      apply strictly_below_rel in Hp as Hp'. destruct Hp' as (relp & Hrelp & ->).
      exists (group_of src dst m (src ++ relp)). split.
      * apply list_elem_of_fmap_2, oversized_elem. by exists relp, c'.
      * left. destruct (group_of_rel src dst m relp c' Hrelp Hm) as (_ & -> & _).
        apply prefix_app. apply (in_group_prefix self m1) in Hin.
        unfold parts_path_of in Hin.
        rewrite parent_app, name_app, <- (assoc_L (++)) in Hin by done.
        by apply prefix_app_inv in Hin.
  - intros q Hq. apply J3.
    intros g (relp & c & _ & _ & _ & _ & _ & -> & ->)%Hgs. split.
    + intros Hpre. apply Hq. etrans; [|exact Hpre]. by apply prefix_app_r.
    + intros ->. apply Hq. by apply prefix_app_r.
Qed.

End joined.
(** ** Packing and unpacking *)

(** The destination of [unpack]: for a work directory given by its normal
    path string and a store path with a proper last name, the directory of
    that name in the work directory. *)
Lemma split_name (n : string) : Py.contains n "/" = false → Py.split "/" n = [n].
Proof.
  intros Hn. rewrite <- (string_app_nil_r n) at 1. rewrite split_app_name by done.
  cbn [Py.split]. by rewrite string_app_nil_r.
Qed.

Lemma filter_valid_names (l : list string) :
  Forall (λ n, valid_name n = true) l → filter (λ n : string, n ≠ "" ∧ n ≠ ".") l = l.
Proof.
  induction 1 as [|n l Hn Hl IH]; [done|]. rewrite filter_cons_True, IH; [done|].
  unfold valid_name in Hn. rewrite !andb_true_iff, !negb_true_iff in Hn.
  destruct Hn as [[[H1 H2] _] _]. split; by apply String.eqb_neq.
Qed.

Lemma of_string_render (p : Path) :
  Forall (λ n, valid_name n = true) p →
  PurePath.of_string (render p) = {| PurePath.root := "/"; PurePath.parts := p |}.
Proof.
  intros Hp. destruct p as [|n p]; [done|]. unfold PurePath.of_string, render.
  rewrite split_segments by done.
  rewrite filter_cons_False by (intros []; done). rewrite filter_valid_names by done.
  f_equal. apply Forall_cons in Hp as [Hn _].
  destruct (valid_name_head n Hn) as (a & n' & -> & Ha).
  cbn [segments]. rewrite !string_app_cons, string_app_nil_l.
  cbn [Py.startswith]. by rewrite Ascii.eqb_refl, (Ascii.eqb_sym "/" a), Ha.
Qed.

Lemma of_string_name (n : string) :
  valid_name n = true →
  PurePath.of_string n = {| PurePath.root := ""; PurePath.parts := [n] |}.
Proof.
  intros Hn. unfold PurePath.of_string.
  rewrite split_name by (by apply valid_name_no_slash).
  rewrite filter_valid_names by (by constructor). f_equal.
  destruct (valid_name_head n Hn) as (a & n' & -> & Ha).
  rewrite !(startswith_unfold (String a _)). by rewrite Ascii.eqb_sym, Ha.
Qed.

Lemma unpack_dir (tmp : Path) (store_path : string) :
  let n := PurePath.name (PurePath.of_string store_path) in
  Forall (λ n, valid_name n = true) (tmp ++ [n]) →
  PurePath.str (PurePath.joinpath (PurePath.of_string (render tmp)) n) = render (tmp ++ [n]).
Proof.
  intros n [Htmp Hn]%Forall_app. apply (proj1 (Forall_singleton _ _)) in Hn.
  rewrite of_string_render by done. unfold PurePath.joinpath.
  rewrite (of_string_name n Hn). cbn [PurePath.root PurePath.parts String.eqb].
  unfold PurePath.str. cbn [PurePath.root PurePath.parts].
  destruct tmp as [|x tmp]; cbn [app relative render segments];
    by rewrite ?string_app_cons, ?string_app_nil_l.
Qed.

Lemma unpack_run (o : schedule) (tmp : Path) (store_path : string) (dst : Path)
    (l : list Archive.row) (m1 m2 m3 : fs) (st : gmap string (list Archive.row)) :
  dst = tmp ++ [PurePath.name (PurePath.of_string store_path)] →
  Forall (λ n, valid_name n = true) dst →
  glob_free store_path = true →
  st !! store_path = Some l →
  for_ (row_order o l) (SinaraArchive_save_file (render dst)) m1 = (Return (), m2) →
  _join_parts o (render dst) m2 = (Return (), m3) →
  unpack o (render tmp) store_path {| files := m1; store := st |}
  = (Return (render dst), {| files := m3; store := st |}).
Proof.
  intros -> Hdst Hglob Hst Hsave Hjoin.
  unfold unpack. rewrite unpack_dir by done.
  unfold unpack_files_from_store_to_tmp, bind at 1 2, read_parquet. simpl.
  rewrite Hglob, Hst. unfold on_files, unpack_files_from_spark_df_to_tmp. simpl.
  by rewrite (bind_run _ _ _ _ _ Hsave), Hjoin.
Qed.

(** The names on the way to an entry of a tree. *)
Lemma tree_names_of (src : Path) (m : fs) (P : string → Prop) :
  (∀ q, strictly_below src q → is_Some (m !! q) → P (name q) ∧ m !! parent q = Some Dir) →
  ∀ rel, is_Some (m !! (src ++ rel)) → Forall P rel.
Proof.
  intros Hwf rel. induction rel as [|x rel IH] using rev_ind; intros Hsome; [done|].
  assert (Hq : strictly_below src (src ++ rel ++ [x])).
  { apply strictly_below_rel. exists (rel ++ [x]). split; [by destruct rel|done]. }
  destruct (Hwf _ Hq Hsome) as [Hname Hparent].
  rewrite (assoc_L (++)), name_snoc in Hname. rewrite (assoc_L (++)), parent_snoc in Hparent.
  apply Forall_app. split; [|by constructor]. apply IH. by rewrite Hparent.
Qed.

Lemma plain_name_not_file (n : string) : plain_name n = true → Py.endswith n "file:" = false.
Proof.
  unfold plain_name. rewrite !andb_true_iff. intros [[[[_ Hp] _] _] _].
  destruct (Py.endswith n "file:") eqn:Hends; [|done].
  by apply (endswith_chars _ _ _ Hp) in Hends.
Qed.

(** In the packed tree of a source tree with plain names, every non-empty
    file lies on a way of plain names: the engine's listing shows it. *)
Lemma packed_plain (self : SinaraArchive) (src : Path) (m m1 : fs) :
  (∀ q, strictly_below src q → is_Some (m !! q) →
        plain_name (name q) = true ∧ m !! parent q = Some Dir) →
  (∀ p c, strictly_below src p → m !! p = Some (File c) →
          ROW_SIZE self < Z.of_nat (length c) → group_at (ROW_SIZE self) p c m1) →
  (∀ q, (∃ p, strictly_below src p ∧ oversize self m p = true
              ∧ parts_path_of p `prefix_of` q)
        ∨ m1 !! q = m !! q) →
  ∀ rel c, m1 !! (src ++ rel) = Some (File c) → c ≠ [] →
    Forall (λ n, plain_name n = true) rel.
Proof.
  intros Hwf Hgroups Hcases rel c Hfile Hc.
  destruct (packed_entry self src m m1 Hgroups Hcases (src ++ rel) ltac:(by rewrite Hfile))
    as [[Hsome' _]|(p & c' & Hp & Hm & Hbig & Hin)].
  { by apply (tree_names_of src m _ Hwf). }
  apply strictly_below_rel in Hp as (relp & Hne & ->).
  assert (Hplain : Forall (λ n, plain_name n = true) relp).
  { apply (tree_names_of src m _ Hwf). by rewrite Hm. }
  assert (Hpp : parts_path_of (src ++ relp) = src ++ parent relp ++ [name relp +:+ ".parts"]).
  { unfold parts_path_of. by rewrite parent_app, name_app, (assoc_L (++)) by done. }
  rewrite (path_parent_name relp Hne) in Hplain. apply Forall_app in Hplain as [Hv1 Hv2].
  apply (proj1 (Forall_singleton _ _)) in Hv2.
  assert (Hvpp : Forall (λ n, plain_name n = true) (parent relp ++ [name relp +:+ ".parts"])).
  { apply Forall_app. split; [done|]. apply Forall_singleton. by apply plain_name_parts. }
  unfold in_group in Hin. rewrite Hpp in Hin. unfold chunk_filename in Hin.
  destruct Hin as [[Heq _]|[[Heq Hs]|(j & _ & Heq & _)]].
  - apply (inj (app src)) in Heq as ->. done.
  - rewrite Heq in Hfile. congruence.
  - rewrite <- !(assoc_L (++)) in Heq. apply (inj (app src)) in Heq as ->.
    rewrite (assoc_L (++)). apply Forall_app. split; [done|].
    apply Forall_singleton, plain_part_name.
Qed.

(** X15: the round trip.  Take a source directory that is a well-formed
    tree of plain names (portable characters, no leading [_] or [.], no
    ending [._COPYING_]; every entry lies in a directory) without chunk
    groups (every entry passes the test of the walk), whose files are not
    empty and have at most 10000 chunks each and less than [2^53] bytes
    together; a row size that is positive and at most [maxLength], a
    positive block size, a positive core count, and a partition count
    below [2^31]; the source directory given by the path string of a list
    of plain names without dots; a store path that is no glob pattern; and
    a destination [tmp/<name of store_path>], for a work directory [tmp]
    given by its path string, that is outside the source, with nothing in
    it and no file on the way to it.  Then [pack] and, on the store it
    wrote, [unpack] both return, whatever the listing and row orders;
    [unpack] returns the destination's path string; and the files below the
    destination are exactly the files below the source, at the same
    relative paths with the same bytes. *)
Theorem pack_unpack_round_trip (self : SinaraArchive) (o1 o2 : schedule) (env : setting)
    (cores : Z) (src tmp : Path) (store_path : string) (w : world) :
  let m := files w in
  let total := total_of m (walked src m) in
  let dst := tmp ++ [PurePath.name (PurePath.of_string store_path)] in
  0 < ROW_SIZE self ≤ maxLength → 0 < BLOCK_SIZE self →
  server_cores env = inr cores → 0 < cores →
  total < 2 ^ 53 → Z.max (cores * 3) (total / BLOCK_SIZE self) < 2 ^ 31 →
  src ≠ [] → Forall (λ n, plain_dir_name n = true) src →
  m !! src = Some Dir →
  (∀ q, strictly_below src q → is_Some (m !! q) →
        plain_name (name q) = true ∧ m !! parent q = Some Dir) →
  (∀ q, strictly_below src q → is_Some (m !! q) → in_pathlist q = true) →
  (∀ p c, strictly_below src p → m !! p = Some (File c) →
          c ≠ [] ∧ Z.of_nat (length c) ≤ 10000 * ROW_SIZE self) →
  glob_free store_path = true →
  Forall (λ n, valid_name n = true) dst → ¬ src `prefix_of` dst →
  (∀ q c, q ≠ [] → q `prefix_of` dst → m !! q ≠ Some (File c)) →
  (∀ q, strictly_below dst q → m !! q = None) →
  ∃ w1 w2,
    pack self o1 env (render src) store_path w = (Return (), w1)
    ∧ unpack o2 (render tmp) store_path w1 = (Return (render dst), w2)
    ∧ (∀ rel c, rel ≠ [] → m !! (src ++ rel) = Some (File c) →
         files w2 !! (dst ++ rel) = Some (File c))
    ∧ (∀ rel c, rel ≠ [] → files w2 !! (dst ++ rel) = Some (File c) →
         m !! (src ++ rel) = Some (File c)).
Proof.
  intros m total dst [Hrow Hmax] Hblock Henv Hcores Htotal Hint Hsrcne Hsrcplain Hsrc
    Hplain Hfilter Hfiles Hglob Hdstvalid Hout Hway Hempty.
  assert (Hsrcvalid : Forall (λ n, valid_name n = true) src) by (by apply plain_dir_valid).
  assert (Hwf : ∀ q, strictly_below src q → is_Some (m !! q) →
            valid_name (name q) = true ∧ m !! parent q = Some Dir).
  { intros q Hq Hsome. destruct (Hplain q Hq Hsome) as [Hn Hp].
    split; [by apply plain_name_valid|done]. }
  assert (Hdirs : ∀ q, strictly_below src q → m !! q = Some Dir →
            Py.endswith (name q) "file:" = false).
  { intros q Hq Hdir. apply plain_name_not_file. by apply (Hplain q Hq); rewrite Hdir. }
  assert (Hsize : ∀ p c, strictly_below src p → m !! p = Some (File c) →
            Z.of_nat (length c) ≤ 10000 * ROW_SIZE self)
    by (intros p c Hp Hm; by destruct (Hfiles p c Hp Hm)).
  assert (Hnonempty : ∀ p c, strictly_below src p → m !! p = Some (File c) → c ≠ [])
    by (intros p c Hp Hm; by destruct (Hfiles p c Hp Hm)).
  destruct (pack_regular self o1 env cores src m Hrow Hblock Henv Hcores Hsrcne Hsrcplain
              Hsrc Hwf Hfilter Htotal Hint) as (df & m1 & Hpack & Hgroups & Hframe & Hcases).
  pose proof (pack_df_rows self o1 env _ _ _ _ Hsrcne Hsrcplain Hpack) as Hrows.
  pose proof (pack_df_lengths self o1 env _ _ _ _ Hpack) as Hlengths.
  pose proof (packed_file_leaf self src m m1 Hsrc Hwf Hfilter Hgroups Hframe Hcases) as Hleaf.
  pose proof (packed_names self src m m1 Hwf Hgroups Hcases) as Hnames.
  pose proof (packed_row self src m m1 Hrow Hsrcne Hwf Hdirs Hgroups Hcases) as Hrow_eq.
  pose proof (packed_plain self src m m1 Hplain Hgroups Hcases) as Hlisted.
  (* the destination is untouched by pack *)
  assert (Hdstne : dst ≠ []) by (unfold dst; by destruct tmp).
  assert (Hnear : ∀ q, dst `prefix_of` q ∨ q `prefix_of` dst → m1 !! q = m !! q).
  { intros q Hq. apply Hframe. intros p Hp (c & Hm & _)%oversize_spec Hpre.
    assert (Hsp : src `prefix_of` parts_path_of p)
      by (by destruct (strictly_below_parts_path src p Hp)).
    destruct Hq as [Hq|Hq]; [|apply Hout; by etrans; [|exact Hq]; etrans].
    destruct (prefix_weak_total _ _ _ Hq Hpre) as [Hdp|Hpd]; [|apply Hout; by etrans].
    apply prefix_of_snoc in Hdp as [Heq|Hdp]; [apply Hout; by rewrite Heq|].
    assert (Hbelow : strictly_below dst p).
    { split.
      - etrans; [exact Hdp|]. rewrite (path_parent_name p) at 2
          by (by eapply strictly_below_nonroot). by apply prefix_app_r.
      - intros Heq. apply Hout. rewrite Heq. by destruct Hp. }
    by rewrite (Hempty p Hbelow) in Hm. }
  assert (Hinv : unpacking src dst m1 m1).
  { split_and!.
    - intros q c Hq Hm1. rewrite Hnear in Hm1 by by left.
      destruct (decide (q = dst)) as [->|Hne]; [by destruct (Hway dst c)|].
      by rewrite Hempty in Hm1.
    - intros q Hq Hm1. rewrite Hnear in Hm1 by (left; by destruct Hq).
      by rewrite Hempty in Hm1.
    - intros q c Hq Hpre. rewrite Hnear by by right. by apply Hway. }
  (* the rows *)
  set (l := row_order o2 (rows df)).
  assert (Hsrcdir1 : m1 !! src = Some Dir).
  { rewrite (kept_entry self src m m1 Hwf Hfilter Hframe); [done|by rewrite Hsrc]. }
  assert (Hl : ∀ r, r ∈ l ↔ ∃ rel c, rel ≠ [] ∧ m1 !! (src ++ rel) = Some (File c)
                 ∧ Z.of_nat (length c) ≤ ROW_SIZE self ∧ c ≠ []
                 ∧ r = {| Archive.length := Z.of_nat (length c); Archive.content := c;
                          Archive.relPath := segments rel |}).
  { intros r. unfold l. rewrite row_order_perm, Hrows. split.
    - intros (q & c & [rel ->] & Hm1 & Hlen & _ & _ & Hc & ->).
      assert (Hrel : rel ≠ []).
      { intros ->. rewrite app_nil_r in Hm1. congruence. }
      exists rel, c. by rewrite Hrow_eq.
    - intros (rel & c & Hne & Hm1 & Hlen & Hc & ->). exists (src ++ rel), c.
      assert (Hbelow : strictly_below src (src ++ rel))
        by (apply strictly_below_rel; by exists rel).
      destruct (plain_listed src (src ++ rel) Hbelow) as [Hli Hdata].
      { rewrite drop_app_length. by eapply Hlisted. }
      split_and!; [by apply prefix_app_r|done..|by rewrite Hrow_eq]. }
  destruct (save_rows src dst m1 Hdstvalid Hleaf l m1 Hinv) as (m2 & Hsave & Hinv2 & Hall & _).
  { intros r (rel & c & Hne & Hm1 & _ & _ & ->)%Hl. exists rel.
    split_and!; [done| |done..]. apply Hnames. by rewrite Hm1. }
  destruct (join_unpacked self src dst m m1 m2 Hrow Hsrc Hwf Hfilter Hsize Hgroups Hframe
              Hcases Hinv2 Hnonempty) with (o := o2) as (m3 & Hjoin & Hthere & Hback & _);
    [|done|].
  { intros rel c Hne Hm1 Hlen Hc.
    apply (Hall {| Archive.length := Z.of_nat (length c); Archive.content := c;
                   Archive.relPath := segments rel |} rel); [|by apply Hnames; rewrite Hm1|done].
    apply Hl. by exists rel, c. }
  exists {| files := m1; store := <[store_path := rows df]> (store w) |},
         {| files := m3; store := <[store_path := rows df]> (store w) |}.
  split_and!; [|by eapply unpack_run; [done..|apply lookup_insert_eq|exact Hsave|]|done..].
  unfold pack, pack_files_from_tmp_to_store, bind, on_files. fold m. rewrite Hpack.
  unfold write_parquet.
  replace (forallb _ (rows df)) with true; [done|].
  symmetry. apply forallb_forall. intros r Hr%list_elem_of_In.
  apply Z.leb_le. destruct (Hlengths r Hr) as [Hle _]. simpl. lia.
Qed.

(** Checking a property of all entries of a concrete filesystem. *)
Lemma entries_check (m : fs) (f : Path → bool) :
  forallb f (entries m) = true → ∀ q, is_Some (m !! q) → f q = true.
Proof.
  intros Hall q Hq. rewrite forallb_forall in Hall. apply Hall.
  by apply list_elem_of_In, elem_of_entries.
Qed.

Lemma pack_unpack_round_trip_witness :
  ∃ w1 w2,
    pack example_archive in_order Unset (render ["src"]) "store/e1" example_world
    = (Return (), w1)
    ∧ unpack reversed (render ["tmp"]) "store/e1" w1 = (Return (render ["tmp"; "e1"]), w2)
    ∧ files w2 !! ["tmp"; "e1"; "a.txt"] = Some (File ["h"; "i"]%byte)
    ∧ files w2 !! ["tmp"; "e1"; "d"; "big"]
      = Some (File ["0"; "1"; "2"; "3"; "4"; "5"; "6"]%byte).
Proof.
  destruct (pack_unpack_round_trip example_archive in_order reversed Unset 5
              ["src"] ["tmp"] "store/e1" example_world)
    as (w1 & w2 & Hpack & Hunpack & Hthere & _).
  - split; [reflexivity|discriminate].
  - reflexivity.
  - reflexivity.
  - reflexivity.
  - vm_compute. reflexivity.
  - vm_compute. reflexivity.
  - discriminate.
  - by repeat constructor.
  - reflexivity.
  - intros q Hq Hsome. change (files example_world) with example_files in *.
    assert (Hall : forallb
      (λ q, negb (bool_decide (strictly_below ["src"] q))
            || (plain_name (name q) && is_dir example_files (parent q)))
      (entries example_files) = true) by (vm_compute; reflexivity).
    pose proof (entries_check _ _ Hall q Hsome) as Hf. cbv beta in Hf.
    rewrite bool_decide_true in Hf by done. simpl in Hf.
    apply andb_true_iff in Hf as [Hn Hp]. split; [exact Hn|].
    apply is_dir_lookup; [|exact Hp].
    apply strictly_below_parent in Hq as [k Hk]. rewrite Hk. discriminate.
  - intros q Hq Hsome. change (files example_world) with example_files in *.
    assert (Hall : forallb
      (λ q, negb (bool_decide (strictly_below ["src"] q)) || in_pathlist q)
      (entries example_files) = true) by (vm_compute; reflexivity).
    pose proof (entries_check _ _ Hall q Hsome) as Hf. cbv beta in Hf.
    by rewrite bool_decide_true in Hf by done.
  - intros p c Hp Hm. change (files example_world) with example_files in *.
    assert (Hall : forallb
      (λ q, (negb (is_file example_files q)
             || negb (Nat.eqb (length (content_of example_files q)) 0))
            && (Z.of_nat (length (content_of example_files q)) <=? 10000 * 3))
      (entries example_files) = true) by (vm_compute; reflexivity).
    pose proof (entries_check _ _ Hall p (ex_intro _ _ Hm)) as Hf. cbv beta in Hf.
    unfold content_of, is_file in Hf.
    rewrite node_at_nonroot in Hf by (by eapply strictly_below_nonroot).
    rewrite Hm in Hf. apply andb_true_iff in Hf as [Hne Hle]. split.
    + intros ->. discriminate Hne.
    + by apply Z.leb_le in Hle.
  - reflexivity.
  - by repeat constructor.
  - intros [k Hk]. discriminate.
  - apply no_file_on_way_check. vm_compute. reflexivity.
  - intros q Hq. change (files example_world) with example_files.
    destruct (example_files !! q) as [x|] eqn:Hx; [|reflexivity].
    assert (Hall : forallb
      (λ q, negb (bool_decide (strictly_below ["tmp"; "e1"] q)))
      (entries example_files) = true) by (vm_compute; reflexivity).
    pose proof (entries_check _ _ Hall q (ex_intro _ _ Hx)) as Hf. cbv beta in Hf.
    by rewrite bool_decide_true in Hf by done.
  - exists w1, w2. split; [exact Hpack|]. split; [exact Hunpack|]. split.
    + apply (Hthere ["a.txt"]); [discriminate|reflexivity].
    + apply (Hthere ["d"; "big"]); [discriminate|reflexivity].
Defined.

(** ** Names: from the file to its chunks and back *)

(** X16: the chunker names the directory [<name>.parts] next to the file,
    and the rejoiner takes the directory's parent and stem for the file to
    write; for a file with a proper name that is the file the chunks came
    from, whatever dots the name has. *)
Theorem rejoin_target (path : Path) :
  path ≠ [] → valid_name (name path) = true →
  walk (parent (parts_path_of path)) (stem (parts_path_of path)) = path.
Proof.
  intros Hne Hn. unfold parts_path_of.
  rewrite file_name_of_parts by done. symmetry. by apply path_parent_name.
Qed.

Lemma rejoin_target_witness :
  walk (parent (parts_path_of ["d"; "x.tar.gz"])) (stem (parts_path_of ["d"; "x.tar.gz"]))
  = ["d"; "x.tar.gz"]
  ∧ stem ["d"; ".profile.parts"] = ".profile".
Proof.
  split; [|reflexivity].
  exact (rejoin_target ["d"; "x.tar.gz"] ltac:(discriminate) eq_refl).
Defined.

(** X17: chunk names.  Different indices give different names, whatever
    their size; and below 10000 the string order of the names is the order
    of the indices, so that [sorted] puts two chunk files of a directory in
    index order. *)
Theorem chunk_names_ordered (d : Path) (i j : N) :
  (i < j)%N →
  chunk_filename d i ≠ chunk_filename d j
  ∧ ((j < 10000)%N →
     name_lt (part_name i) (part_name j) = true
     ∧ sorted [chunk_filename d j; chunk_filename d i]
       = [chunk_filename d i; chunk_filename d j]).
Proof.
  intros Hij. split.
  - intros Heq%chunk_filename_inj. lia.
  - intros Hj. assert (Hle : (part_name i ≤ part_name j)%string) by (apply part_name_le; lia).
    split.
    + apply name_lt_spec. split; [done|]. intros Heq%part_name_inj. lia.
    + apply sorted_of_Sorted; [|apply perm_swap].
      repeat constructor. by apply path_le_siblings.
Qed.

Lemma chunk_names_ordered_witness :
  name_lt (part_name 9) (part_name 10) = true
  ∧ sorted [chunk_filename ["d"; "f.parts"] 10; chunk_filename ["d"; "f.parts"] 9]
    = [chunk_filename ["d"; "f.parts"] 9; chunk_filename ["d"; "f.parts"] 10].
Proof.
  exact (proj2 (chunk_names_ordered ["d"; "f.parts"] 9 10 eq_refl) eq_refl).
Defined.
